(** * Netlist mutation primitives of nextpnr ([common/design_utils.cc])

    A shallow embedding of the port/net rewiring helpers: [replace_port],
    [connect_port], [disconnect_port], [connect_ports], [rename_port],
    [rename_net], [replace_bus], [copy_port] and [copy_bus].

    The C++ code works on a pointer graph: cells point to nets through
    [PortInfo::net], nets point back to cells through [PortRef::cell].  The
    embedding keeps that shape: objects live in two stores addressed by
    pointers, a null pointer is [None], and every function threads the whole
    [Context] explicitly. *)

From stdpp Require Import gmap strings list fin_maps pretty.

Open Scope string_scope.
Open Scope list_scope.

(** ** Data model *)

(** Modelled from the spec: the class [IdString] and [Context::id], which
    [nextpnr.h] declares.  An identifier is an interned string; interning
    is injective, so the embedding identifies an [IdString] with the string
    it denotes, and [ctx->id] and [str] become the identity.  The C string
    [c_str] gives is read only by [%s], see [c_str] below. *)
Abbreviation IdString := string (only parsing).

(** Addresses of heap objects ([CellInfo *], [NetInfo *] once non-null). *)
Abbreviation ptr := positive (only parsing).

(** Modelled from the spec: the enumeration [PortType] of [nextpnr.h]; a
    port direction is one of [OUT], [IN], [INOUT]. *)
Inductive PortType : Set := PORT_IN | PORT_OUT | PORT_INOUT.

Global Instance PortType_eq_dec : EqDecision PortType.
Proof. solve_decision. Defined.

(** Modelled from the spec: the struct [PortRef] of [nextpnr.h], a
    non-owning reference pair (cell, port name); the cell pointer may be
    null. *)
Record PortRef : Set := mkPortRef {
  cell : option ptr;
  port : IdString
}.

Global Instance PortRef_eq_dec : EqDecision PortRef.
Proof. solve_decision. Defined.

(** Modelled from the spec: the struct [PortInfo] of [nextpnr.h]; a port
    has a name, a direction and an optional reference to the net it is
    attached to. *)
Record PortInfo : Set := mkPortInfo {
  name : IdString;
  net : option ptr;
  type : PortType
}.

Global Instance PortInfo_eq_dec : EqDecision PortInfo.
Proof. solve_decision. Defined.

(** Modelled from the spec: the struct [CellInfo] of [nextpnr.h]; a cell
    has an identifier, a type tag and a mapping from port names to ports. *)
Record CellInfo : Type := mkCellInfo {
  cell_name : IdString;
  cell_type : IdString;
  ports : gmap IdString PortInfo
}.

(** Modelled from the spec: the struct [NetInfo] of [nextpnr.h]; a net has
    an identifier, one driver reference (no driver when its cell pointer is
    null) and an ordered list of users. *)
Record NetInfo : Set := mkNetInfo {
  net_name : IdString;
  driver : PortRef;
  users : list PortRef
}.

Global Instance NetInfo_eq_dec : EqDecision NetInfo.
Proof. solve_decision. Defined.

(** Modelled from the spec: the graph store, [Context] of [nextpnr.h].
    [cells] and [nets] are its owning tables, keyed by identifier (a
    [std::unique_ptr] is a nullable address); [cell_mem] and [net_mem] hold
    the objects that those addresses, and the pointers inside ports and
    nets, refer to. *)
Record Context : Type := mkContext {
  cell_mem : gmap ptr CellInfo;
  net_mem : gmap ptr NetInfo;
  cells : gmap IdString (option ptr);
  nets : gmap IdString (option ptr)
}.

(** ** Outcomes

    A call returns normally, stops on a failed [NPNR_ASSERT] or on the
    [std::out_of_range] of a failed [at], or has no defined behaviour
    (it dereferences a pointer that addresses no object, or overflows a
    signed [int]). *)
Inductive failure : Set := assertion_failure | out_of_range.

Inductive outcome (A : Type) : Type :=
| Done (a : A)
| Fatal (e : failure)
| Undef.
Arguments Done {A} a.
Arguments Fatal {A} e.
Arguments Undef {A}.

Global Instance outcome_ret : MRet outcome := λ A a, Done a.

Global Instance outcome_bind : MBind outcome := λ A B k m,
  match m with
  | Done a => k a
  | Fatal e => Fatal e
  | Undef => Undef
  end.

Definition is_fatal {A} (m : outcome A) : Prop := ∃ e, m = Fatal e.

(** Modelled from the spec: the macro [NPNR_ASSERT] of [log.h], an
    abort-style fatal assertion. *)
Definition NPNR_ASSERT (b : bool) : outcome unit :=
  if b then Done tt else Fatal assertion_failure.

(** ** Access to the stores *)

(** [*c] for a cell pointer. *)
Definition deref_cell (ctx : Context) (c : ptr) : outcome CellInfo :=
  match cell_mem ctx !! c with
  | Some ci => Done ci
  | None => Undef
  end.

(** [*n] for a net pointer. *)
Definition deref_net (ctx : Context) (n : ptr) : outcome NetInfo :=
  match net_mem ctx !! n with
  | Some ni => Done ni
  | None => Undef
  end.

(** [m.count(k)] as a truth value. *)
Definition count {A} (m : gmap IdString A) (k : IdString) : bool :=
  bool_decide (is_Some (m !! k)).

(** [c->ports.at(p)]: throws when [p] is not a key. *)
Definition ports_at (ctx : Context) (c : ptr) (p : IdString) : outcome PortInfo :=
  ci ← deref_cell ctx c ;
  match ports ci !! p with
  | Some pi => Done pi
  | None => Fatal out_of_range
  end.

Definition set_name (x : IdString) (pi : PortInfo) : PortInfo :=
  mkPortInfo x (net pi) (type pi).
Definition set_net (x : option ptr) (pi : PortInfo) : PortInfo :=
  mkPortInfo (name pi) x (type pi).
Definition set_type (x : PortType) (pi : PortInfo) : PortInfo :=
  mkPortInfo (name pi) (net pi) x.

Definition set_ports (f : gmap IdString PortInfo → gmap IdString PortInfo)
    (ci : CellInfo) : CellInfo :=
  mkCellInfo (cell_name ci) (cell_type ci) (f (ports ci)).

Definition set_driver (x : PortRef) (ni : NetInfo) : NetInfo :=
  mkNetInfo (net_name ni) x (users ni).
Definition set_users (x : list PortRef) (ni : NetInfo) : NetInfo :=
  mkNetInfo (net_name ni) (driver ni) x.
Definition set_net_name (x : IdString) (ni : NetInfo) : NetInfo :=
  mkNetInfo x (driver ni) (users ni).

Definition upd_cell_mem (f : gmap ptr CellInfo → gmap ptr CellInfo)
    (ctx : Context) : Context :=
  mkContext (f (cell_mem ctx)) (net_mem ctx) (cells ctx) (nets ctx).
Definition upd_net_mem (f : gmap ptr NetInfo → gmap ptr NetInfo)
    (ctx : Context) : Context :=
  mkContext (cell_mem ctx) (f (net_mem ctx)) (cells ctx) (nets ctx).
Definition upd_nets (f : gmap IdString (option ptr) → gmap IdString (option ptr))
    (ctx : Context) : Context :=
  mkContext (cell_mem ctx) (net_mem ctx) (cells ctx) (f (nets ctx)).

(** A write through a [PortInfo &] obtained from [c->ports]. *)
Definition write_port (c : ptr) (p : IdString) (f : PortInfo → PortInfo)
    (ctx : Context) : Context :=
  upd_cell_mem (alter (set_ports (alter f p)) c) ctx.

(** A write through a [NetInfo *]. *)
Definition write_net (n : ptr) (f : NetInfo → NetInfo) (ctx : Context) : Context :=
  upd_net_mem (alter f n) ctx.

(** [c->ports[p]] used as an lvalue: a missing entry is value-initialised
    first (empty name, null net, the zero enumerator). *)
Definition default_port : PortInfo := mkPortInfo "" None PORT_IN.

Definition ports_index (c : ptr) (p : IdString) (ctx : Context) : Context :=
  upd_cell_mem
    (alter (set_ports (λ m, if count m p then m else <[p := default_port]> m)) c)
    ctx.

(** ** The primitives *)

(** The loop body of [replace_port] over [rep.net->users]. *)
Definition retarget (old_cell : ptr) (old_name : IdString)
    (rep_cell : ptr) (rep_name : IdString) (load : PortRef) : PortRef :=
  if bool_decide (cell load = Some old_cell) && bool_decide (port load = old_name)
  then mkPortRef (Some rep_cell) rep_name
  else load.

Definition replace_port (ctx : Context) (old_cell : ptr) (old_name : IdString)
    (rep_cell : ptr) (rep_name : IdString) : outcome Context :=
  oc ← deref_cell ctx old_cell ;
  if negb (count (ports oc) old_name) then Done ctx else
  old ← ports_at ctx old_cell old_name ;
  rc ← deref_cell ctx rep_cell ;
  let ctx :=
    if negb (count (ports rc) rep_name) then
      write_port rep_cell rep_name (set_type (type old))
        (write_port rep_cell rep_name (set_name rep_name)
           (ports_index rep_cell rep_name ctx))
    else ctx in
  rep ← ports_at ctx rep_cell rep_name ;
  NPNR_ASSERT (bool_decide (type old = type rep)) ;;
  let ctx := write_port rep_cell rep_name (set_net (net old)) ctx in
  let ctx := write_port old_cell old_name (set_net None) ctx in
  rep ← ports_at ctx rep_cell rep_name ;
  match type rep with
  | PORT_OUT =>
      match net rep with
      | Some n =>
          deref_net ctx n ;;
          Done (write_net n (set_driver (mkPortRef (Some rep_cell) rep_name)) ctx)
      | None => Done ctx
      end
  | PORT_IN =>
      match net rep with
      | Some n =>
          deref_net ctx n ;;
          Done (write_net n
                  (λ ni, set_users
                           (retarget old_cell old_name rep_cell rep_name <$> users ni)
                           ni)
                  ctx)
      | None => Done ctx
      end
  | _ => Fatal assertion_failure
  end.

(** A reference that names port [p] of cell [c]. *)
Definition refers (c : ptr) (p : IdString) (r : PortRef) : Prop :=
  cell r = Some c ∧ port r = p.

Global Instance refers_dec c p r : Decision (refers c p r).
Proof. unfold refers. apply _. Defined.

(** Connect a net to a port.  The last branch of the source, for a
    direction that is none of the three, has no counterpart: [PortType] has
    no such value. *)
Definition connect_port (ctx : Context) (n : option ptr) (c : ptr)
    (port_name : IdString) : outcome Context :=
  match n with
  | None => Done ctx
  | Some n =>
      pt ← ports_at ctx c port_name ;
      NPNR_ASSERT (bool_decide (net pt = None)) ;;
      let ctx := write_port c port_name (set_net (Some n)) ctx in
      match type pt with
      | PORT_OUT =>
          ni ← deref_net ctx n ;
          NPNR_ASSERT (bool_decide (cell (driver ni) = None)) ;;
          Done (write_net n (set_driver (mkPortRef (Some c) port_name)) ctx)
      | PORT_IN | PORT_INOUT =>
          deref_net ctx n ;;
          Done (write_net n
                  (λ ni, set_users (users ni ++ [mkPortRef (Some c) port_name]) ni)
                  ctx)
      end
  end.

Definition disconnect_port (ctx : Context) (c : ptr) (port_name : IdString)
    : outcome Context :=
  ci ← deref_cell ctx c ;
  if negb (count (ports ci) port_name) then Done ctx else
  pt ← ports_at ctx c port_name ;
  match net pt with
  | Some n =>
      deref_net ctx n ;;
      let ctx :=
        write_net n
          (λ ni, set_users (filter (λ user, ¬ refers c port_name user) (users ni)) ni)
          ctx in
      ni ← deref_net ctx n ;
      let ctx :=
        if bool_decide (refers c port_name (driver ni))
        then write_net n (λ ni, set_driver (mkPortRef None (port (driver ni))) ni) ctx
        else ctx in
      Done (write_port c port_name (set_net None) ctx)
  | None => Done ctx
  end.

(** [new NetInfo()]: a value-initialised net at an address that is not in
    use. *)
Definition new_NetInfo (ctx : Context) : ptr * Context :=
  let a := fresh (dom (net_mem ctx)) in
  (a, upd_net_mem <[a := mkNetInfo "" (mkPortRef None "") []]> ctx).

(** The destructor of a [std::unique_ptr<NetInfo>]: the object it owns, if
    any, is deleted. *)
Definition destroy_unique (u : option ptr) (ctx : Context) : outcome Context :=
  match u with
  | None => Done ctx
  | Some q =>
      deref_net ctx q ;;
      Done (upd_net_mem (delete q) ctx)
  end.

(** [ctx->nets[k] = std::move(u)]: the slot takes [u]; what it owned
    before is destroyed. *)
Definition nets_assign (k : IdString) (u : option ptr) (ctx : Context)
    : outcome Context :=
  let before := default None (nets ctx !! k) in
  destroy_unique before (upd_nets <[k := u]> ctx).

Definition connect_ports (ctx : Context) (cell1 : ptr) (port1_name : IdString)
    (cell2 : ptr) (port2_name : IdString) : outcome Context :=
  port1 ← ports_at ctx cell1 port1_name ;
  ctx ← match net port1 with
        | None =>
            let '(p1net, ctx) := new_NetInfo ctx in
            c1 ← deref_cell ctx cell1 ;
            let ctx :=
              write_net p1net
                (set_net_name (cell_name c1 +:+ "$conn$" +:+ port1_name)) ctx in
            ctx ← connect_port ctx (Some p1net) cell1 port1_name ;
            ni ← deref_net ctx p1net ;
            let p1name := net_name ni in
            NPNR_ASSERT (negb (count (cells ctx) p1name)) ;;
            nets_assign p1name (Some p1net) ctx
        | Some _ => Done ctx
        end ;
  port1 ← ports_at ctx cell1 port1_name ;
  connect_port ctx (net port1) cell2 port2_name.

(** The loop body of [rename_port] over [pi.net->users]. *)
Definition rename_user (c : ptr) (old_name new_name : IdString) (usr : PortRef)
    : PortRef :=
  if bool_decide (refers c old_name usr) then mkPortRef (cell usr) new_name else usr.

Definition rename_port (ctx : Context) (c : ptr) (old_name new_name : IdString)
    : outcome Context :=
  ci ← deref_cell ctx c ;
  if negb (count (ports ci) old_name) then Done ctx else
  pi ← ports_at ctx c old_name ;
  ctx ← match net pi with
        | Some n =>
            ni ← deref_net ctx n ;
            let ctx :=
              if bool_decide (refers c old_name (driver ni))
              then write_net n
                     (λ ni, set_driver (mkPortRef (cell (driver ni)) new_name) ni) ctx
              else ctx in
            Done (write_net n
                    (λ ni, set_users (rename_user c old_name new_name <$> users ni) ni)
                    ctx)
        | None => Done ctx
        end ;
  let ctx := upd_cell_mem (alter (set_ports (delete old_name)) c) ctx in
  let pi := set_name new_name pi in
  Done (upd_cell_mem (alter (set_ports <[new_name := pi]>) c) ctx).

(** [ctx->nets[k]] used as an lvalue: a missing slot is created holding a
    null pointer. *)
Definition nets_index (k : IdString) (ctx : Context) : Context :=
  upd_nets (λ m, if count m k then m else <[k := None]> m) ctx.

(** [ctx->nets.erase(k)]: the slot goes, and with it what it owns. *)
Definition nets_erase (k : IdString) (ctx : Context) : outcome Context :=
  let before := default None (nets ctx !! k) in
  destroy_unique before (upd_nets (delete k) ctx).

Definition rename_net (ctx : Context) (n : option ptr) (new_name : IdString)
    : outcome Context :=
  match n with
  | None => Done ctx
  | Some n =>
      NPNR_ASSERT (negb (count (nets ctx) new_name)) ;;
      ni ← deref_net ctx n ;
      let ctx := nets_index new_name (nets_index (net_name ni) ctx) in
      let a := default None (nets ctx !! net_name ni) in
      let b := default None (nets ctx !! new_name) in
      let ctx := upd_nets (λ m, <[new_name := a]> (<[net_name ni := b]> m)) ctx in
      ni ← deref_net ctx n ;
      ctx ← nets_erase (net_name ni) ctx ;
      deref_net ctx n ;;
      Done (write_net n (set_net_name new_name) ctx)
  end.

(** Signed [int] arithmetic: 32 bits, overflow has no defined behaviour. *)
Definition INT_MIN : Z := -2147483648.
Definition INT_MAX : Z := 2147483647.
Definition is_int (z : Z) : Prop := (INT_MIN ≤ z ≤ INT_MAX)%Z.

Global Instance is_int_dec z : Decision (is_int z).
Proof. unfold is_int. apply _. Defined.

Definition int_add (a b : Z) : outcome Z :=
  if bool_decide (is_int (a + b)) then Done (a + b)%Z else Undef.

(** What [%s] reads of [name.c_str(ctx)]: the characters of the name that
    come before its first NUL. *)
Fixpoint c_str (name : IdString) : string :=
  match name with
  | EmptyString => EmptyString
  | String a name =>
      if Ascii.eqb a Ascii.zero then EmptyString else String a (c_str name)
  end.

(** [stringf(brackets ? "%s[%d]" : "%s%d", name.c_str(ctx), k)] *)
Definition stringf_bus (brackets : bool) (base : IdString) (k : Z) : IdString :=
  if brackets then c_str base +:+ "[" +:+ pretty k +:+ "]"
  else c_str base +:+ pretty k.

(** [for (int i = 0; i < width; i++) body], run from a given [i] for
    [todo] more rounds. *)
Fixpoint for_loop (body : Z → Context → outcome Context) (todo : nat) (i : Z)
    (ctx : Context) : outcome Context :=
  match todo with
  | O => Done ctx
  | S todo =>
      ctx ← body i ctx ;
      for_loop body todo (i + 1)%Z ctx
  end.

Definition replace_bus (ctx : Context) (old_cell : ptr) (old_name : IdString)
    (old_offset : Z) (old_brackets : bool) (new_cell : ptr) (new_name : IdString)
    (new_offset : Z) (new_brackets : bool) (width : Z) : outcome Context :=
  for_loop
    (λ i ctx,
       ko ← int_add i old_offset ;
       let old_port := stringf_bus old_brackets old_name ko in
       kn ← int_add i new_offset ;
       let new_port := stringf_bus new_brackets new_name kn in
       replace_port ctx old_cell old_port new_cell new_port)
    (Z.to_nat width) 0%Z ctx.

Definition copy_port (ctx : Context) (old_cell : ptr) (old_name : IdString)
    (new_cell : ptr) (new_name : IdString) : outcome Context :=
  oc ← deref_cell ctx old_cell ;
  if negb (count (ports oc) old_name) then Done ctx else
  deref_cell ctx new_cell ;;
  let ctx :=
    write_port new_cell new_name (set_name new_name)
      (ports_index new_cell new_name ctx) in
  old ← ports_at ctx old_cell old_name ;
  let ctx :=
    write_port new_cell new_name (set_type (type old))
      (ports_index new_cell new_name ctx) in
  old ← ports_at ctx old_cell old_name ;
  connect_port ctx (net old) new_cell new_name.

Definition copy_bus (ctx : Context) (old_cell : ptr) (old_name : IdString)
    (old_offset : Z) (old_brackets : bool) (new_cell : ptr) (new_name : IdString)
    (new_offset : Z) (new_brackets : bool) (width : Z) : outcome Context :=
  for_loop
    (λ i ctx,
       ko ← int_add i old_offset ;
       let old_port := stringf_bus old_brackets old_name ko in
       kn ← int_add i new_offset ;
       let new_port := stringf_bus new_brackets new_name kn in
       copy_port ctx old_cell old_port new_cell new_port)
    (Z.to_nat width) 0%Z ctx.

(** The two lvalue writes at the head of [copy_port]: port [p] of the cell
    at [c] takes the name [p] and the direction [t]; it is created when
    missing and keeps its net reference otherwise. *)
Definition declared (c : ptr) (p : IdString) (t : PortType) (ctx : Context)
    : Context :=
  write_port c p (set_type t)
    (ports_index c p (write_port c p (set_name p) (ports_index c p ctx))).

(** ** Reading the graph *)

(** The port record of port [p] of the cell at [c], if both exist. *)
Definition port_of (ctx : Context) (c : ptr) (p : IdString) : option PortInfo :=
  cell_mem ctx !! c ≫= λ ci, ports ci !! p.

(** The identifier and type tag of the cell at [c]. *)
Definition cell_head (ctx : Context) (c : ptr) : option (IdString * IdString) :=
  (λ ci, (cell_name ci, cell_type ci)) <$> cell_mem ctx !! c.

(** ** The invariants of the data model

    A net has one [driver] field, so it has at most one driver by
    construction; the other invariants relate the two directions of the
    pointer graph. *)

(** A user entry of the net at [a] names an IN or INOUT port whose net
    reference points back to [a]. *)
Definition user_ok (ctx : Context) (a : ptr) (r : PortRef) : Prop :=
  ∃ c pi, cell r = Some c ∧ port_of ctx c (port r) = Some pi ∧
          type pi ≠ PORT_OUT ∧ net pi = Some a.

(** The driver of the net at [a], if there is one, names an OUT or INOUT
    port whose net reference points back to [a]. *)
Definition driver_ok (ctx : Context) (a : ptr) (r : PortRef) : Prop :=
  cell r = None ∨
  ∃ c pi, cell r = Some c ∧ port_of ctx c (port r) = Some pi ∧
          type pi ≠ PORT_IN ∧ net pi = Some a.

(** A connected port is listed by its net: as the driver when it is OUT,
    among the users when it is IN or INOUT. *)
Definition listed (ctx : Context) (c : ptr) (p : IdString) (pi : PortInfo) : Prop :=
  ∀ a, net pi = Some a →
  ∃ ni, net_mem ctx !! a = Some ni ∧
        if decide (type pi = PORT_OUT)
        then driver ni = mkPortRef (Some c) p
        else mkPortRef (Some c) p ∈ users ni.

Record wf (ctx : Context) : Prop := mk_wf {
  wf_users : ∀ a ni r, net_mem ctx !! a = Some ni → r ∈ users ni → user_ok ctx a r;
  wf_driver : ∀ a ni, net_mem ctx !! a = Some ni → driver_ok ctx a (driver ni);
  wf_ports : ∀ c p pi, port_of ctx c p = Some pi → listed ctx c p pi
}.

Global Instance user_ok_dec ctx a r : Decision (user_ok ctx a r).
Proof.
  unfold user_ok. destruct (cell r) as [c|].
  - destruct (port_of ctx c (port r)) as [pi|] eqn:Hp.
    + destruct (decide (type pi ≠ PORT_OUT ∧ net pi = Some a)) as [Hok|Hno].
      * left. abstract (exists c, pi; tauto).
      * right. abstract (intros (? & ? & [= <-] & Hp' & ?);
                         rewrite Hp in Hp'; injection Hp' as <-; tauto).
    + right. abstract (intros (? & ? & [= <-] & Hp' & _); congruence).
  - right. abstract (by intros (? & ? & ? & _)).
Defined.

Global Instance driver_ok_dec ctx a r : Decision (driver_ok ctx a r).
Proof.
  unfold driver_ok. destruct (cell r) as [c|].
  - destruct (port_of ctx c (port r)) as [pi|] eqn:Hp.
    + destruct (decide (type pi ≠ PORT_IN ∧ net pi = Some a)) as [Hok|Hno].
      * left. abstract (right; exists c, pi; tauto).
      * right. abstract (intros [|(? & ? & [= <-] & Hp' & ?)]; [done|];
                         rewrite Hp in Hp'; injection Hp' as <-; tauto).
    + right. abstract (intros [|(? & ? & [= <-] & Hp' & _)]; congruence).
  - left. abstract (by left).
Defined.

Global Instance listed_dec ctx c p pi : Decision (listed ctx c p pi).
Proof.
  unfold listed. destruct (net pi) as [a|].
  - destruct (net_mem ctx !! a) as [ni|] eqn:Hn.
    + destruct (decide (type pi = PORT_OUT)) as [Hout|Hin].
      * destruct (decide (driver ni = mkPortRef (Some c) p)) as [Hd|Hd].
        -- left. abstract (intros ? [= <-]; by exists ni).
        -- right. abstract (intros H; destruct (H a eq_refl) as (ni' & Hn' & H');
                            rewrite Hn in Hn'; by injection Hn' as <-).
      * destruct (decide (mkPortRef (Some c) p ∈ users ni)) as [Hu|Hu].
        -- left. abstract (intros ? [= <-]; by exists ni).
        -- right. abstract (intros H; destruct (H a eq_refl) as (ni' & Hn' & H');
                            rewrite Hn in Hn'; by injection Hn' as <-).
    + right. abstract (intros H; destruct (H a eq_refl) as (? & ? & _);
                       congruence).
  - left. abstract done.
Defined.

Global Instance wf_dec ctx : Decision (wf ctx).
Proof.
  refine (cast_if (decide (
    map_Forall (λ a ni, Forall (user_ok ctx a) (users ni) ∧
                        driver_ok ctx a (driver ni)) (net_mem ctx) ∧
    map_Forall (λ c ci, map_Forall (λ p pi, listed ctx c p pi) (ports ci))
      (cell_mem ctx)))).
  - abstract (
      match goal with H : _ ∧ _ |- _ => destruct H as [Hn Hc] end; split;
      [ intros a ni r Ha Hr; destruct (Hn a ni Ha) as [Hu _];
        rewrite Forall_forall in Hu; by apply Hu
      | intros a ni Ha; by destruct (Hn a ni Ha)
      | intros c p pi (ci & Hci & Hp)%bind_Some; by eapply Hc ]).
  - abstract (
      match goal with H : ¬ _ |- _ => rename H into Hno end;
      intros [Hu Hd Hp]; apply Hno; split;
      [ intros a ni Ha; split; [apply Forall_forall; intros r Hr; by eapply Hu
                                | by apply Hd]
      | intros c ci Hci p pi Hpi; apply Hp; unfold port_of; by rewrite Hci ]).
Defined.

(** Every net that the table of nets owns is stored under its own name. *)
Definition store_ok (ctx : Context) : Prop :=
  ∀ k a, nets ctx !! k = Some (Some a) →
         ∃ ni, net_mem ctx !! a = Some ni ∧ net_name ni = k.

(** What [replace_port] does to the net of a moved port of direction [t]. *)
Definition rewired (t : PortType) (old_cell : ptr) (old_name : IdString)
    (rep_cell : ptr) (rep_name : IdString) (ni : NetInfo) : NetInfo :=
  match t with
  | PORT_OUT => set_driver (mkPortRef (Some rep_cell) rep_name) ni
  | _ => set_users (retarget old_cell old_name rep_cell rep_name <$> users ni) ni
  end.

(** What is said of a call of [replace_port] on valid cells: nothing
    happens when the old port is missing; directions that differ, and a
    direction other than OUT and IN, are fatal; otherwise the old port ends
    unconnected, the replacement port (created with the old direction when
    missing) ends on the old port's net, and that net is rewired. *)
Definition replace_port_moves (ctx : Context) (old_cell : ptr) (old_name : IdString)
    (rep_cell : ptr) (rep_name : IdString) : Prop :=
  ∀ oci, cell_mem ctx !! old_cell = Some oci →
  match ports oci !! old_name with
  | None => replace_port ctx old_cell old_name rep_cell rep_name = Done ctx
  | Some old =>
      ∀ rci, cell_mem ctx !! rep_cell = Some rci →
      let rep0 :=
        default (mkPortInfo rep_name None (type old)) (ports rci !! rep_name) in
      if decide (type rep0 = type old ∧ type old ≠ PORT_INOUT) then
        (∀ a, net old = Some a → is_Some (net_mem ctx !! a)) →
        ∃ ctx',
          replace_port ctx old_cell old_name rep_cell rep_name = Done ctx' ∧
          port_of ctx' old_cell old_name = Some (set_net None old) ∧
          port_of ctx' rep_cell rep_name = Some (set_net (net old) rep0) ∧
          ∀ a ni, net old = Some a → net_mem ctx !! a = Some ni →
            net_mem ctx' !! a =
            Some (rewired (type old) old_cell old_name rep_cell rep_name ni)
      else is_fatal (replace_port ctx old_cell old_name rep_cell rep_name)
  end.

(** ** Renaming a port, as the specification words it *)

(** A port is identified by its cell and its name; renaming port [old] of
    the cell at [c] to [new] relabels that one identity. *)
Definition relabel (c : ptr) (old new : IdString) (q : ptr * IdString)
    : ptr * IdString :=
  if decide (q = (c, old)) then (c, new) else q.

(** A net with every reference to port [old] of the cell at [c] replaced,
    in place, by a reference to port [new]. *)
Definition renamed_net (c : ptr) (old new : IdString) (ni : NetInfo) : NetInfo :=
  mkNetInfo (net_name ni)
    (rename_user c old new (driver ni))
    (rename_user c old new <$> users ni).

Definition is_port (ctx : Context) (q : ptr * IdString) : Prop :=
  is_Some (port_of ctx q.1 q.2).

(** [ctx'] is [ctx] up to the substitution of [new] for [old] on the cell
    at [c]: the relabelling is a one-to-one correspondence between the
    ports of the two graphs that keeps the port records (the renamed one
    takes the new name), every net of [ctx'] is the net of [ctx] with its
    references relabelled, and nothing else differs. *)
Record isomorphic_by_renaming (c : ptr) (old new : IdString)
    (ctx ctx' : Context) : Prop := mk_iso {
  iso_inj : ∀ q1 q2, is_port ctx q1 → is_port ctx q2 →
                     relabel c old new q1 = relabel c old new q2 → q1 = q2;
  iso_ports : ∀ q, is_port ctx q →
                   port_of ctx' (relabel c old new q).1 (relabel c old new q).2 =
                   (if decide (q = (c, old)) then set_name new else id) <$>
                     port_of ctx q.1 q.2;
  iso_surj : ∀ q', is_port ctx' q' → ∃ q, is_port ctx q ∧ q' = relabel c old new q;
  iso_nets : ∀ a, net_mem ctx' !! a = renamed_net c old new <$> net_mem ctx !! a;
  iso_cells : ∀ c', cell_head ctx' c' = cell_head ctx c';
  iso_tables : cells ctx' = cells ctx ∧ nets ctx' = nets ctx
}.

(** What is said of a call of [rename_port] on a valid cell of a
    well-formed graph: nothing happens when the port is missing; a
    connected port leaves its entry, its record enters under the new name,
    and the graph is the same up to the substitution. *)
Definition rename_port_relabels (ctx : Context) (c : ptr)
    (old_name new_name : IdString) : Prop :=
  wf ctx →
  ∀ ci, cell_mem ctx !! c = Some ci →
  match ports ci !! old_name with
  | None => rename_port ctx c old_name new_name = Done ctx
  | Some pi =>
      is_Some (net pi) →
      ∃ ctx' ci',
        rename_port ctx c old_name new_name = Done ctx' ∧
        cell_mem ctx' !! c = Some ci' ∧
        ports ci' = <[new_name := set_name new_name pi]> (delete old_name (ports ci)) ∧
        isomorphic_by_renaming c old_name new_name ctx ctx'
  end.

(** What [connect_port] does to the net for a port of direction [t]. *)
Definition attached (c : ptr) (p : IdString) (t : PortType) (ni : NetInfo) : NetInfo :=
  match t with
  | PORT_OUT => set_driver (mkPortRef (Some c) p) ni
  | _ => set_users (users ni ++ [mkPortRef (Some c) p]) ni
  end.

(** [connect_port] on each port of a list, in order, to the same net. *)
Fixpoint connect_each (ctx : Context) (n : option ptr) (l : list (ptr * IdString))
    : outcome Context :=
  match l with
  | [] => Done ctx
  | (c, p) :: l =>
      ctx ← connect_port ctx n c p ;
      connect_each ctx n l
  end.

(** The reference to port [p] of the cell at [c]. *)
Definition ref_to (cp : ptr * IdString) : PortRef := mkPortRef (Some cp.1) cp.2.

(** ** Bus replacement, as the specification words it

    [replace_bus] is said to be [width] sequential [replace_port] calls on
    the expanded names, for the indices [0 .. width - 1] in ascending
    order. *)

(** The name of index [k] of a bus: [name[k]] in bracketed style, the name
    followed by [k] otherwise. *)
Definition expand (base : IdString) (k : Z) (bracketed : bool) : IdString :=
  if bracketed then base +:+ "[" +:+ pretty k +:+ "]" else base +:+ pretty k.

(** A name that holds no NUL character. *)
Fixpoint nul_free (name : IdString) : bool :=
  match name with
  | EmptyString => true
  | String a name => negb (Ascii.eqb a Ascii.zero) && nul_free name
  end.

(** Calls of [replace_port], each on the graph the one before returned. *)
Fixpoint replace_port_calls (ctx : Context)
    (calls : list (ptr * IdString * ptr * IdString)) : outcome Context :=
  match calls with
  | [] => Done ctx
  | (old_cell, old_port, new_cell, new_port) :: calls =>
      ctx ← replace_port ctx old_cell old_port new_cell new_port ;
      replace_port_calls ctx calls
  end.

Definition replace_bus_calls (old_cell : ptr) (old_base : IdString) (old_offset : Z)
    (old_style : bool) (new_cell : ptr) (new_base : IdString) (new_offset : Z)
    (new_style : bool) (width : Z) : list (ptr * IdString * ptr * IdString) :=
  (λ i, (old_cell, expand old_base (old_offset + i) old_style,
         new_cell, expand new_base (new_offset + i) new_style)) <$> seqZ 0 width.

(** The graph [c] after the rounds [0 .. j - 1] of moving the ports
    [olds i] of the cell at [oc] to the ports [news i] of the cell at [nc],
    started on [ctx]: moved ports have given their net to their new port,
    the rest of the graph's ports are as in [ctx]. *)
Definition bus_moved (ctx : Context) (oc : ptr) (olds : Z → IdString)
    (nc : ptr) (news : Z → IdString) (width j : Z) (c : Context) : Prop :=
  wf c ∧
  (∀ c0, cell_head c c0 = cell_head ctx c0) ∧
  (∀ i old, (0 ≤ i < j)%Z → port_of ctx oc (olds i) = Some old →
     port_of c oc (olds i) = Some (set_net None old) ∧
     port_of c nc (news i) = Some (mkPortInfo (news i) (net old) (type old))) ∧
  (∀ i, (j ≤ i < width)%Z →
     port_of c oc (olds i) = port_of ctx oc (olds i) ∧
     port_of c nc (news i) = None) ∧
  (∀ c0 p, (∀ i, (0 ≤ i < width)%Z →
              ¬ (oc = c0 ∧ olds i = p) ∧ ¬ (nc = c0 ∧ news i = p)) →
     port_of c c0 p = port_of ctx c0 p).

(** ** Small graphs to run the primitives on *)

Module Examples.

Definition A : ptr := 1%positive.
Definition B : ptr := 2%positive.
Definition C : ptr := 3%positive.
Definition N : ptr := 1%positive.
Definition M : ptr := 2%positive.

(** Cell [A] with an unconnected OUT port [Q], cell [B] with an
    unconnected IN port [D], cell [C] without ports, no nets. *)
Definition unwired : Context :=
  mkContext
    {[ A := mkCellInfo "A" "LUT" {[ "Q" := mkPortInfo "Q" None PORT_OUT ]};
       B := mkCellInfo "B" "FF" {[ "D" := mkPortInfo "D" None PORT_IN ]};
       C := mkCellInfo "C" "FF" ∅ ]}
    ∅
    {[ "A" := Some A; "B" := Some B; "C" := Some C ]}
    ∅.

(** The same cells, [A.Q] driving the net [n] that [B.D] uses. *)
Definition wired : Context :=
  mkContext
    {[ A := mkCellInfo "A" "LUT" {[ "Q" := mkPortInfo "Q" (Some N) PORT_OUT ]};
       B := mkCellInfo "B" "FF" {[ "D" := mkPortInfo "D" (Some N) PORT_IN ]};
       C := mkCellInfo "C" "FF" ∅ ]}
    {[ N := mkNetInfo "n" (mkPortRef (Some A) "Q") [mkPortRef (Some B) "D"] ]}
    {[ "A" := Some A; "B" := Some B; "C" := Some C ]}
    {[ "n" := Some N ]}.

(** One cell [A] whose IN ports [I] and [J] use the nets [n] and [m]. *)
Definition two_nets : Context :=
  mkContext
    {[ A := mkCellInfo "A" "LUT"
              {[ "I" := mkPortInfo "I" (Some N) PORT_IN;
                 "J" := mkPortInfo "J" (Some M) PORT_IN ]} ]}
    {[ N := mkNetInfo "n" (mkPortRef None "") [mkPortRef (Some A) "I"];
       M := mkNetInfo "m" (mkPortRef None "") [mkPortRef (Some A) "J"] ]}
    {[ "A" := Some A ]}
    {[ "n" := Some N; "m" := Some M ]}.

(** Cells [A] and [B] as in [unwired], and a cell [C] whose OUT port [O]
    drives a net that is stored under the name [A$conn$Q]. *)
Definition name_taken : Context :=
  mkContext
    {[ A := mkCellInfo "A" "LUT" {[ "Q" := mkPortInfo "Q" None PORT_OUT ]};
       B := mkCellInfo "B" "FF" {[ "D" := mkPortInfo "D" None PORT_IN ]};
       C := mkCellInfo "C" "LUT" {[ "O" := mkPortInfo "O" (Some N) PORT_OUT ]} ]}
    {[ N := mkNetInfo "A$conn$Q" (mkPortRef (Some C) "O") [] ]}
    {[ "A" := Some A; "B" := Some B; "C" := Some C ]}
    {[ "A$conn$Q" := Some N ]}.

(** The cells of [unwired] and a net [n] without driver and users. *)
Definition orphan_net : Context :=
  mkContext (cell_mem unwired)
    {[ N := mkNetInfo "n" (mkPortRef None "") [] ]}
    (cells unwired)
    {[ "n" := Some N ]}.

(** Cell [A] with a two-bit bus [a0], [a1] of unconnected IN ports, and
    cell [B] without ports. *)
Definition bus : Context :=
  mkContext
    {[ A := mkCellInfo "A" "LUT"
              {[ "a0" := mkPortInfo "a0" None PORT_IN;
                 "a1" := mkPortInfo "a1" None PORT_IN ]};
       B := mkCellInfo "B" "LUT" ∅ ]}
    ∅
    {[ "A" := Some A; "B" := Some B ]}
    ∅.

(** Cell [A] with a two-bit bus [a0], [a1] of IN ports on the nets [n] and
    [m], and cell [B] without ports. *)
Definition wired_bus : Context :=
  mkContext
    {[ A := mkCellInfo "A" "LUT"
              {[ "a0" := mkPortInfo "a0" (Some N) PORT_IN;
                 "a1" := mkPortInfo "a1" (Some M) PORT_IN ]};
       B := mkCellInfo "B" "LUT" ∅ ]}
    {[ N := mkNetInfo "n" (mkPortRef None "") [mkPortRef (Some A) "a0"];
       M := mkNetInfo "m" (mkPortRef None "") [mkPortRef (Some A) "a1"] ]}
    {[ "A" := Some A; "B" := Some B ]}
    {[ "n" := Some N; "m" := Some M ]}.

(** The name made of [a], a NUL and [x]. *)
Definition nul_name : IdString := "a" +:+ String Ascii.zero "x".

(** The cells of [unwired], the third one registered under the name
    [A$conn$Q]. *)
Definition cell_name_taken : Context :=
  mkContext
    {[ A := mkCellInfo "A" "LUT" {[ "Q" := mkPortInfo "Q" None PORT_OUT ]};
       B := mkCellInfo "B" "FF" {[ "D" := mkPortInfo "D" None PORT_IN ]};
       C := mkCellInfo "A$conn$Q" "FF" ∅ ]}
    ∅
    {[ "A" := Some A; "B" := Some B; "A$conn$Q" := Some C ]}
    ∅.

End Examples.

(** * Properties *)

Import Examples.

(** ** Basic facts about the stores *)

Lemma count_Some {A} (m : gmap IdString A) k x : m !! k = Some x → count m k = true.
Proof. intros Hk. unfold count. rewrite Hk. by apply bool_decide_eq_true_2. Qed.

Lemma count_None {A} (m : gmap IdString A) k : m !! k = None → count m k = false.
Proof.
  intros Hk. unfold count. rewrite Hk. apply bool_decide_eq_false_2.
  by intros [x Hx].
Qed.

Lemma alter_lookup_insert {K} `{Countable K} {V} (f : V → V) (m : gmap K V) k x :
  m !! k = Some x → alter f k m = <[k := f x]> m.
Proof.
  intros Hk. rewrite <- (insert_id m k x) at 1 by done. apply alter_insert_eq.
Qed.

(** Lookups through inserts and deletes whose keys are known to be equal
    or different. *)
Ltac map_lookups :=
  repeat first
    [ rewrite lookup_insert_eq
    | rewrite lookup_delete_eq
    | rewrite lookup_alter_eq
    | rewrite lookup_insert_ne by done
    | rewrite lookup_delete_ne by done
    | rewrite lookup_alter_ne by done ].

Lemma is_fatal_Fatal {A} e : is_fatal (A := A) (Fatal e).
Proof. by exists e. Qed.

Lemma cell_mem_write_port c p f ctx c' :
  cell_mem (write_port c p f ctx) !! c' =
  if decide (c = c') then set_ports (alter f p) <$> cell_mem ctx !! c
  else cell_mem ctx !! c'.
Proof.
  unfold write_port. simpl. rewrite lookup_alter.
  by destruct (decide (c = c')) as [->|].
Qed.

Lemma port_of_write_port c p f ctx c' p' :
  port_of (write_port c p f ctx) c' p' =
  if decide (c = c' ∧ p = p') then f <$> port_of ctx c p else port_of ctx c' p'.
Proof.
  unfold port_of. rewrite cell_mem_write_port.
  destruct (decide (c = c')) as [<-|Hc].
  - destruct (cell_mem ctx !! c) as [ci|]; simpl.
    + rewrite lookup_alter.
      destruct (decide (p = p')) as [<-|Hp].
      * by rewrite decide_True.
      * rewrite decide_False; [done | by intros [_ ?]].
    + by destruct (decide _).
  - rewrite decide_False; [done | by intros [? _]].
Qed.

Lemma port_of_write_net n f ctx c p :
  port_of (write_net n f ctx) c p = port_of ctx c p.
Proof. reflexivity. Qed.

Lemma net_mem_write_net n f ctx n' :
  net_mem (write_net n f ctx) !! n' =
  if decide (n = n') then f <$> net_mem ctx !! n else net_mem ctx !! n'.
Proof.
  unfold write_net. simpl. rewrite lookup_alter.
  by destruct (decide (n = n')) as [->|].
Qed.

Lemma net_mem_write_port c p f ctx : net_mem (write_port c p f ctx) = net_mem ctx.
Proof. reflexivity. Qed.

Lemma ports_at_Some ctx c p ci pi :
  cell_mem ctx !! c = Some ci → ports ci !! p = Some pi → ports_at ctx c p = Done pi.
Proof. intros Hc Hp. unfold ports_at, deref_cell. rewrite Hc. simpl. by rewrite Hp. Qed.

Lemma ports_at_port_of ctx c p pi :
  port_of ctx c p = Some pi → ports_at ctx c p = Done pi.
Proof.
  unfold port_of. destruct (cell_mem ctx !! c) as [ci|] eqn:Hc; [|done].
  simpl. intros Hp. by eapply ports_at_Some.
Qed.

Lemma deref_net_Some ctx n ni : net_mem ctx !! n = Some ni → deref_net ctx n = Done ni.
Proof. intros Hn. unfold deref_net. by rewrite Hn. Qed.

Lemma deref_cell_Some ctx c ci : cell_mem ctx !! c = Some ci → deref_cell ctx c = Done ci.
Proof. intros Hc. unfold deref_cell. by rewrite Hc. Qed.

(** ** connect *)

(** The cases of [connect_port] on a net, for a valid cell. *)
Lemma connect_port_cases ctx a c p ci ni :
  cell_mem ctx !! c = Some ci →
  net_mem ctx !! a = Some ni →
  match ports ci !! p with
  | None => connect_port ctx (Some a) c p = Fatal out_of_range
  | Some pi =>
      match net pi, type pi with
      | Some _, _ => connect_port ctx (Some a) c p = Fatal assertion_failure
      | None, PORT_OUT =>
          match cell (driver ni) with
          | Some _ => connect_port ctx (Some a) c p = Fatal assertion_failure
          | None =>
              connect_port ctx (Some a) c p =
              Done (write_net a (set_driver (mkPortRef (Some c) p))
                      (write_port c p (set_net (Some a)) ctx))
          end
      | None, (PORT_IN | PORT_INOUT) =>
          connect_port ctx (Some a) c p =
          Done (write_net a
                  (λ ni, set_users (users ni ++ [mkPortRef (Some c) p]) ni)
                  (write_port c p (set_net (Some a)) ctx))
      end
  end.
Proof.
  intros Hc Hn. unfold connect_port, ports_at.
  rewrite (deref_cell_Some _ _ _ Hc). simpl.
  destruct (ports ci !! p) as [pi|]; [|done]. simpl.
  destruct (net pi) as [m|]; [done|]. simpl.
  rewrite (deref_net_Some _ _ ni) by done.
  destruct (type pi); simpl; try done.
  by destruct (cell (driver ni)).
Qed.

(** C5. [connect_port] with a null net returns the graph as it is.  With a
    net, on a valid cell: a missing port and a port that is already
    connected are fatal; an unconnected OUT port is fatal when the net has a
    driver and otherwise becomes the driver; an unconnected IN or INOUT port
    is appended to the users. *)
Theorem connect_port_spec :
  (∀ ctx c p, connect_port ctx None c p = Done ctx) ∧
  (∀ ctx a c p ci ni,
     cell_mem ctx !! c = Some ci →
     net_mem ctx !! a = Some ni →
     match ports ci !! p with
     | None => is_fatal (connect_port ctx (Some a) c p)
     | Some pi =>
         match net pi, type pi with
         | Some _, _ => is_fatal (connect_port ctx (Some a) c p)
         | None, PORT_OUT =>
             match cell (driver ni) with
             | Some _ => is_fatal (connect_port ctx (Some a) c p)
             | None =>
                 connect_port ctx (Some a) c p =
                 Done (write_net a (set_driver (mkPortRef (Some c) p))
                         (write_port c p (set_net (Some a)) ctx))
             end
         | None, (PORT_IN | PORT_INOUT) =>
             connect_port ctx (Some a) c p =
             Done (write_net a
                     (λ ni, set_users (users ni ++ [mkPortRef (Some c) p]) ni)
                     (write_port c p (set_net (Some a)) ctx))
         end
     end).
Proof.
  split; [done|].
  intros ctx a c p ci ni Hc Hn.
  pose proof (connect_port_cases ctx a c p ci ni Hc Hn) as Hcases.
  destruct (ports ci !! p) as [pi|]; [|rewrite Hcases; apply is_fatal_Fatal].
  destruct (net pi); [rewrite Hcases; apply is_fatal_Fatal|].
  destruct (type pi); [done| |done].
  destruct (cell (driver ni)); [rewrite Hcases; apply is_fatal_Fatal|done].
Qed.

Lemma connect_port_spec_witness :
  connect_port name_taken (Some N) B "D" =
  Done (write_net N (λ ni, set_users (users ni ++ [mkPortRef (Some B) "D"]) ni)
          (write_port B "D" (set_net (Some N)) name_taken)).
Proof.
  exact (proj2 connect_port_spec name_taken N B "D" _ _ eq_refl eq_refl).
Defined.

(** ** disconnect *)

Lemma disconnect_port_absent ctx c p ci :
  cell_mem ctx !! c = Some ci → ports ci !! p = None →
  disconnect_port ctx c p = Done ctx.
Proof.
  intros Hc Hp. unfold disconnect_port. rewrite (deref_cell_Some _ _ _ Hc). simpl.
  by rewrite (count_None _ _ Hp).
Qed.

Lemma disconnect_port_unconnected ctx c p pi :
  port_of ctx c p = Some pi → net pi = None → disconnect_port ctx c p = Done ctx.
Proof.
  intros Hp Hnet. unfold disconnect_port. rewrite (ports_at_port_of _ _ _ _ Hp).
  unfold port_of in Hp. unfold deref_cell.
  destruct (cell_mem ctx !! c) as [ci|]; [|done]. simpl in *.
  rewrite (count_Some _ _ _ Hp). simpl. by rewrite Hnet.
Qed.

(** What [disconnect_port] leaves behind for a connected port. *)
Definition detached (c : ptr) (p : IdString) (ni : NetInfo) : NetInfo :=
  mkNetInfo (net_name ni)
    (if bool_decide (refers c p (driver ni))
     then mkPortRef None (port (driver ni)) else driver ni)
    (filter (λ user, ¬ refers c p user) (users ni)).

Lemma disconnect_port_connected ctx c p pi a ni :
  port_of ctx c p = Some pi → net pi = Some a → net_mem ctx !! a = Some ni →
  ∃ ctx', disconnect_port ctx c p = Done ctx' ∧
    port_of ctx' c p = Some (set_net None pi) ∧
    net_mem ctx' !! a = Some (detached c p ni) ∧
    (∀ c' p', ¬ (c = c' ∧ p = p') → port_of ctx' c' p' = port_of ctx c' p') ∧
    (∀ a', a ≠ a' → net_mem ctx' !! a' = net_mem ctx !! a') ∧
    cells ctx' = cells ctx ∧ nets ctx' = nets ctx.
Proof.
  intros Hp Hnet Hn. unfold disconnect_port.
  rewrite (ports_at_port_of _ _ _ _ Hp).
  assert (∃ ci, cell_mem ctx !! c = Some ci ∧ ports ci !! p = Some pi) as (ci & Hc & Hpi).
  { unfold port_of in Hp. destruct (cell_mem ctx !! c) as [ci|]; [|done]. by exists ci. }
  rewrite (deref_cell_Some _ _ _ Hc). simpl.
  rewrite (count_Some _ _ _ Hpi). simpl. rewrite Hnet.
  rewrite (deref_net_Some _ _ _ Hn). simpl.
  unfold deref_net. rewrite net_mem_write_net, decide_True, Hn by done. simpl.
  eexists. split; [done|].
  split; [|split; [|split; [|split]]].
  - rewrite port_of_write_port, decide_True by done.
    destruct (bool_decide _); by rewrite ?port_of_write_net, Hp.
  - rewrite net_mem_write_port. unfold detached.
    destruct (bool_decide _);
      rewrite ?net_mem_write_net, ?decide_True, ?Hn by done; done.
  - intros c' p' Hne. rewrite port_of_write_port, decide_False by done.
    by destruct (bool_decide _).
  - intros a' Hne. rewrite net_mem_write_port.
    destruct (bool_decide _); by rewrite ?net_mem_write_net, ?decide_False.
  - by destruct (bool_decide _).
Qed.

(** C10. [disconnect_port] returns for every port name; it leaves the graph
    as it is when the cell has no such port, and a second call on the same
    port changes nothing any more. *)
Theorem disconnect_port_idempotent ctx c p ci :
  cell_mem ctx !! c = Some ci →
  (∀ pi a, ports ci !! p = Some pi → net pi = Some a → is_Some (net_mem ctx !! a)) →
  (ports ci !! p = None → disconnect_port ctx c p = Done ctx) ∧
  ∃ ctx1, disconnect_port ctx c p = Done ctx1 ∧ disconnect_port ctx1 c p = Done ctx1.
Proof.
  intros Hc Hvalid. split; [by apply disconnect_port_absent|].
  destruct (ports ci !! p) as [pi|] eqn:Hp.
  - assert (port_of ctx c p = Some pi) as Hpo.
    { unfold port_of. rewrite Hc. done. }
    destruct (net pi) as [a|] eqn:Hnet.
    + destruct (Hvalid pi a) as [ni Hn]; [done..|].
      destruct (disconnect_port_connected _ _ _ _ _ _ Hpo Hnet Hn)
        as (ctx1 & Hrun & Hp1 & _).
      exists ctx1. split; [done|].
      by eapply disconnect_port_unconnected.
    + exists ctx. split; by eapply disconnect_port_unconnected.
  - exists ctx. split; by eapply disconnect_port_absent.
Qed.

Lemma disconnect_port_idempotent_witness :
  ∃ ctx1, disconnect_port wired B "D" = Done ctx1 ∧ disconnect_port ctx1 B "D" = Done ctx1.
Proof.
  refine (proj2 (disconnect_port_idempotent wired B "D" _ eq_refl _)).
  intros pi a Hp Hnet. vm_compute in Hp. injection Hp as <-.
  injection Hnet as <-. eexists. reflexivity.
Defined.

(** C6. Connecting an unconnected port to a net and disconnecting it again
    leaves the port unconnected, and neither the driver nor any user of the
    net refers to the port. *)
Theorem connect_disconnect_round_trip ctx a c p pi ni :
  port_of ctx c p = Some pi →
  net pi = None →
  net_mem ctx !! a = Some ni →
  (type pi = PORT_OUT → cell (driver ni) = None) →
  ∃ ctx1 ctx2 ni2,
    connect_port ctx (Some a) c p = Done ctx1 ∧
    disconnect_port ctx1 c p = Done ctx2 ∧
    port_of ctx2 c p = Some pi ∧
    net_mem ctx2 !! a = Some ni2 ∧
    ¬ refers c p (driver ni2) ∧
    Forall (λ user, ¬ refers c p user) (users ni2).
Proof.
  intros Hp Hnet Hn Hdrv.
  assert (∃ ci, cell_mem ctx !! c = Some ci ∧ ports ci !! p = Some pi) as (ci & Hc & Hpi).
  { unfold port_of in Hp. destruct (cell_mem ctx !! c) as [ci|]; [|done]. by exists ci. }
  pose proof (connect_port_cases ctx a c p ci ni Hc Hn) as Hspec. rewrite Hpi, Hnet in Hspec.
  assert (∃ f, connect_port ctx (Some a) c p =
               Done (write_net a f (write_port c p (set_net (Some a)) ctx)))
    as [f Hrun].
  { destruct (type pi); [by eexists| |by eexists].
    rewrite Hdrv in Hspec by done. by eexists. }
  set (ctx1 := write_net a f (write_port c p (set_net (Some a)) ctx)) in *.
  assert (port_of ctx1 c p = Some (set_net (Some a) pi)) as Hp1.
  { unfold ctx1. by rewrite port_of_write_net, port_of_write_port, decide_True, Hp. }
  assert (net_mem ctx1 !! a = Some (f ni)) as Hn1.
  { unfold ctx1. by rewrite net_mem_write_net, decide_True, net_mem_write_port, Hn. }
  destruct (disconnect_port_connected _ _ _ _ _ _ Hp1 eq_refl Hn1)
    as (ctx2 & Hrun2 & Hp2 & Hn2 & _).
  exists ctx1, ctx2, (detached c p (f ni)).
  split; [done|]. split; [done|]. split; [|split; [done|split]].
  - rewrite Hp2. destruct pi; simpl in *. by subst.
  - unfold detached. simpl. case_bool_decide as Hd; [|done].
    unfold refers. simpl. by intros [? _].
  - unfold detached. simpl. apply Forall_forall. intros r Hr.
    by apply list_elem_of_filter in Hr as [? _].
Qed.

Lemma connect_disconnect_round_trip_witness :
  ∃ ctx1 ctx2 ni2,
    connect_port orphan_net (Some N) B "D" = Done ctx1 ∧
    disconnect_port ctx1 B "D" = Done ctx2 ∧
    port_of ctx2 B "D" = Some (mkPortInfo "D" None PORT_IN) ∧
    net_mem ctx2 !! N = Some ni2 ∧
    ¬ refers B "D" (driver ni2) ∧
    Forall (λ user, ¬ refers B "D" user) (users ni2).
Proof.
  apply (connect_disconnect_round_trip orphan_net N B "D"
           (mkPortInfo "D" None PORT_IN) (mkNetInfo "n" (mkPortRef None "") []));
    [reflexivity..|discriminate].
Defined.

(** ** The single-driver rule *)

Lemma port_of_cell ctx c p pi :
  port_of ctx c p = Some pi ↔
  ∃ ci, cell_mem ctx !! c = Some ci ∧ ports ci !! p = Some pi.
Proof.
  unfold port_of. destruct (cell_mem ctx !! c) as [ci|]; simpl.
  - split; [by exists ci | by intros (? & [= ->] & ?)].
  - split; [done | by intros (? & ? & ?)].
Qed.

Lemma port_of_ports_index c p ctx c' p' :
  port_of (ports_index c p ctx) c' p' =
  if decide (c = c' ∧ p = p')
  then cell_mem ctx !! c ≫= λ ci, Some (default default_port (ports ci !! p))
  else port_of ctx c' p'.
Proof.
  unfold port_of, ports_index. simpl. rewrite lookup_alter.
  destruct (decide (c = c')) as [<-|Hc].
  - destruct (cell_mem ctx !! c) as [ci|]; simpl; [|by destruct (decide _)].
    destruct (ports ci !! p) as [pi|] eqn:Hp.
    + rewrite (count_Some _ _ _ Hp).
      destruct (decide (c = c ∧ p = p')) as [[_ <-]|Hne]; [by rewrite Hp|done].
    + rewrite (count_None _ _ Hp).
      destruct (decide (p = p')) as [<-|Hne].
      * by rewrite lookup_insert_eq, decide_True.
      * rewrite lookup_insert_ne, decide_False by (done || by intros [_ ?]). done.
  - rewrite decide_False; [done | by intros [? _]].
Qed.

Lemma connect_port_driver ctx a c p pi ni :
  port_of ctx c p = Some pi → net pi = None → type pi = PORT_OUT →
  net_mem ctx !! a = Some ni → cell (driver ni) = None →
  connect_port ctx (Some a) c p =
  Done (write_net a (set_driver (mkPortRef (Some c) p))
          (write_port c p (set_net (Some a)) ctx)).
Proof.
  intros (ci & Hc & Hp)%port_of_cell Hnet Hty Hn Hdrv.
  pose proof (connect_port_cases ctx a c p ci ni Hc Hn) as Hspec.
  by rewrite Hp, Hnet, Hty, Hdrv in Hspec.
Qed.

Lemma connect_port_user ctx a c p pi ni :
  port_of ctx c p = Some pi → net pi = None → type pi ≠ PORT_OUT →
  net_mem ctx !! a = Some ni →
  connect_port ctx (Some a) c p =
  Done (write_net a (λ ni, set_users (users ni ++ [mkPortRef (Some c) p]) ni)
          (write_port c p (set_net (Some a)) ctx)).
Proof.
  intros (ci & Hc & Hp)%port_of_cell Hnet Hty Hn.
  pose proof (connect_port_cases ctx a c p ci ni Hc Hn) as Hspec.
  rewrite Hp, Hnet in Hspec. by destruct (type pi).
Qed.

Lemma connect_port_second_driver ctx a c p pi ni :
  port_of ctx c p = Some pi → type pi = PORT_OUT →
  net_mem ctx !! a = Some ni → is_Some (cell (driver ni)) →
  connect_port ctx (Some a) c p = Fatal assertion_failure.
Proof.
  intros (ci & Hc & Hp)%port_of_cell Hty Hn [d Hdrv].
  pose proof (connect_port_cases ctx a c p ci ni Hc Hn) as Hspec.
  rewrite Hp, Hty, Hdrv in Hspec. by destruct (net pi).
Qed.

Lemma connect_each_users a l : ∀ ctx ni,
  net_mem ctx !! a = Some ni →
  NoDup l →
  Forall (λ cp, ∃ pi, port_of ctx cp.1 cp.2 = Some pi ∧ net pi = None ∧
                      type pi ≠ PORT_OUT) l →
  ∃ ctx', connect_each ctx (Some a) l = Done ctx' ∧
    net_mem ctx' !! a = Some (set_users (users ni ++ (ref_to <$> l)) ni).
Proof.
  induction l as [|[c p] l IH]; intros ctx ni Hn Hnd Hall.
  - exists ctx. split; [done|]. simpl. rewrite app_nil_r. by destruct ni.
  - apply NoDup_cons in Hnd as [Hnotin Hnd].
    apply Forall_cons in Hall as [(pi & Hp & Hnet & Hty) Hall].
    cbn [connect_each fst snd] in *.
    rewrite (connect_port_user _ _ _ _ _ _ Hp Hnet Hty Hn).
    cbn [mbind outcome_bind].
    match goal with |- context [connect_each ?c1 _ _] => set (ctx1 := c1) end.
    destruct (IH ctx1 (set_users (users ni ++ [mkPortRef (Some c) p]) ni))
      as (ctx' & Hrun & Hn'); [| done | | ].
    + unfold ctx1.
      by rewrite net_mem_write_net, decide_True, net_mem_write_port, Hn.
    + apply Forall_forall. intros [c' p'] Hin.
      rewrite Forall_forall in Hall. destruct (Hall _ Hin) as (pi' & Hp' & ?).
      exists pi'. split; [|done]. simpl in *. unfold ctx1.
      rewrite port_of_write_net, port_of_write_port, decide_False; [done|].
      intros [-> ->]. done.
    + exists ctx'. split; [done|]. rewrite Hn'. simpl.
      unfold set_users. simpl. by rewrite <- app_assoc.
Qed.

(** C2. A net that has a driver refuses a second one: connecting an OUT
    port to it is fatal, directly and through [copy_port] of an OUT port
    attached to it.  One OUT port followed by any number of distinct IN or
    INOUT ports connects, and the OUT port is the driver at the end. *)
Theorem single_driver :
  (∀ ctx a c p pi ni,
     port_of ctx c p = Some pi → type pi = PORT_OUT →
     net_mem ctx !! a = Some ni → is_Some (cell (driver ni)) →
     is_fatal (connect_port ctx (Some a) c p)) ∧
  (∀ ctx old_cell old_name new_cell new_name old a ni,
     port_of ctx old_cell old_name = Some old → type old = PORT_OUT →
     net old = Some a →
     net_mem ctx !! a = Some ni → is_Some (cell (driver ni)) →
     is_Some (cell_mem ctx !! new_cell) →
     is_fatal (copy_port ctx old_cell old_name new_cell new_name)) ∧
  (∀ ctx a ni c0 p0 pi0 l,
     net_mem ctx !! a = Some ni → cell (driver ni) = None →
     port_of ctx c0 p0 = Some pi0 → type pi0 = PORT_OUT → net pi0 = None →
     NoDup l →
     Forall (λ cp, ∃ pi, port_of ctx cp.1 cp.2 = Some pi ∧ net pi = None ∧
                         (type pi = PORT_IN ∨ type pi = PORT_INOUT)) l →
     ∃ ctx' ni',
       connect_each ctx (Some a) ((c0, p0) :: l) = Done ctx' ∧
       net_mem ctx' !! a = Some ni' ∧
       driver ni' = mkPortRef (Some c0) p0 ∧
       users ni' = users ni ++ (ref_to <$> l)).
Proof.
  split; [|split].
  - intros ctx a c p pi ni Hp Hty Hn Hdrv.
    rewrite (connect_port_second_driver _ _ _ _ _ _ Hp Hty Hn Hdrv).
    apply is_fatal_Fatal.
  - intros ctx oc on nc nn old a ni Hold Hty Hnet Hn Hdrv [nci Hnc].
    pose proof Hold as (oci & Hoc & Hop)%port_of_cell.
    unfold copy_port. rewrite (deref_cell_Some _ _ _ Hoc). simpl.
    rewrite (count_Some _ _ _ Hop), (deref_cell_Some _ _ _ Hnc). simpl.
    set (ctx1 := write_port nc nn (set_name nn) (ports_index nc nn ctx)).
    assert (∃ old1, port_of ctx1 oc on = Some old1 ∧ type old1 = PORT_OUT ∧
                    net old1 = Some a) as (old1 & Hold1 & Hty1 & Hnet1).
    { unfold ctx1. destruct (decide (nc = oc ∧ nn = on)) as [[-> ->]|Hne].
      - rewrite port_of_write_port, decide_True, port_of_ports_index,
          decide_True, Hoc by done.
        simpl. rewrite Hop. simpl. eexists. split; [reflexivity | by simpl].
      - rewrite port_of_write_port, decide_False, port_of_ports_index,
          decide_False by done.
        by exists old. }
    rewrite (ports_at_port_of _ _ _ _ Hold1). simpl.
    set (ctx2 := write_port nc nn (set_type (type old1)) (ports_index nc nn ctx1)).
    assert (∃ nci1, cell_mem ctx1 !! nc = Some nci1) as [nci1 Hnc1].
    { unfold ctx1. rewrite cell_mem_write_port, decide_True by done.
      unfold ports_index. simpl. rewrite lookup_alter_eq, Hnc. by eexists. }
    assert (∃ old2, port_of ctx2 oc on = Some old2 ∧ net old2 = Some a)
      as (old2 & Hold2 & Hnet2).
    { unfold ctx2. destruct (decide (nc = oc ∧ nn = on)) as [[-> ->]|Hne].
      - apply port_of_cell in Hold1 as (? & Hc1 & Hp1).
        rewrite port_of_write_port, decide_True, port_of_ports_index,
          decide_True, Hc1 by done.
        simpl. rewrite Hp1. simpl. eexists. split; [reflexivity | by simpl].
      - rewrite port_of_write_port, decide_False, port_of_ports_index,
          decide_False by done.
        by exists old1. }
    rewrite (ports_at_port_of _ _ _ _ Hold2). simpl. rewrite Hnet2.
    assert (∃ new2, port_of ctx2 nc nn = Some new2 ∧ type new2 = PORT_OUT)
      as (new2 & Hnew2 & Htn).
    { unfold ctx2. rewrite port_of_write_port, decide_True by done.
      rewrite port_of_ports_index, decide_True, Hnc1 by done. simpl.
      eexists. split; [reflexivity | by simpl]. }
    rewrite (connect_port_second_driver _ _ _ _ _ ni Hnew2 Htn); [|done..].
    apply is_fatal_Fatal.
  - intros ctx a ni c0 p0 pi0 l Hn Hdrv Hp0 Hty0 Hnet0 Hnd Hall.
    cbn [connect_each].
    rewrite (connect_port_driver _ _ _ _ _ _ Hp0 Hnet0 Hty0 Hn Hdrv).
    cbn [mbind outcome_bind].
    match goal with |- context [connect_each ?c1 _ _] => set (ctx1 := c1) end.
    destruct (connect_each_users a l ctx1 (set_driver (mkPortRef (Some c0) p0) ni))
      as (ctx' & Hrun & Hn'); [| done | |].
    + unfold ctx1.
      by rewrite net_mem_write_net, decide_True, net_mem_write_port, Hn.
    + apply Forall_forall. intros [c' p'] Hin.
      rewrite Forall_forall in Hall.
      destruct (Hall _ Hin) as (pi' & Hp' & Hnet' & Hty'). simpl in *.
      exists pi'. split; [|split; [done|]].
      * unfold ctx1. rewrite port_of_write_net, port_of_write_port, decide_False; [done|].
        intros [-> ->]. rewrite Hp0 in Hp'. injection Hp' as ->.
        rewrite Hty0 in Hty'. by destruct Hty'.
      * by destruct Hty' as [-> | ->].
    + eexists ctx', _. split; [done|]. split; [done|]. done.
Qed.

Lemma single_driver_witness :
  ∃ ctx' ni',
    connect_each orphan_net (Some N) [(A, "Q"); (B, "D")] = Done ctx' ∧
    net_mem ctx' !! N = Some ni' ∧
    driver ni' = mkPortRef (Some A) "Q" ∧
    users ni' = [mkPortRef (Some B) "D"].
Proof.
  apply (proj2 (proj2 single_driver) orphan_net N
           (mkNetInfo "n" (mkPortRef None "") []) A "Q"
           (mkPortInfo "Q" None PORT_OUT) [(B, "D")]);
    [reflexivity..|apply NoDup_singleton|].
  apply Forall_singleton. exists (mkPortInfo "D" None PORT_IN).
  split; [reflexivity|]. split; [reflexivity|]. by left.
Defined.

(** ** rename-net *)

(** C9. [rename_net] with a null net returns the graph as it is; a new name
    that is already a key of [nets] is fatal; otherwise the slot of a net
    stored under its own name moves to the new name, the net takes the new
    name, and nothing else changes. *)
Theorem rename_net_spec :
  (∀ ctx new_name, rename_net ctx None new_name = Done ctx) ∧
  (∀ ctx n new_name,
     is_Some (nets ctx !! new_name) →
     rename_net ctx (Some n) new_name = Fatal assertion_failure) ∧
  (∀ ctx n ni new_name,
     net_mem ctx !! n = Some ni →
     nets ctx !! net_name ni = Some (Some n) →
     nets ctx !! new_name = None →
     rename_net ctx (Some n) new_name =
     Done (mkContext (cell_mem ctx)
             (<[n := mkNetInfo new_name (driver ni) (users ni)]> (net_mem ctx))
             (cells ctx)
             (<[new_name := Some n]> (delete (net_name ni) (nets ctx))))).
Proof.
  split; [done|split].
  - intros ctx n new_name [u Hu]. unfold rename_net.
    by rewrite (count_Some _ _ _ Hu).
  - intros ctx n ni new_name Hn Hslot Hnew. unfold rename_net.
    assert (net_name ni ≠ new_name) as Hne by (intros Heq; congruence).
    rewrite (count_None _ _ Hnew). unfold deref_net, nets_erase, nets_index.
    simpl. rewrite Hn. simpl.
    rewrite (count_Some _ _ _ Hslot), (count_None _ _ Hnew).
    map_lookups. rewrite Hslot. simpl. rewrite Hn. simpl.
    unfold write_net, upd_net_mem. simpl.
    rewrite (alter_lookup_insert _ _ _ _ Hn). unfold set_net_name.
    do 2 f_equal.
    rewrite (count_Some _ _ _ Hslot), (count_None _ _ Hnew).
    apply map_eq. intros k.
    destruct (decide (k = new_name)) as [Hk1|Hk1];
      destruct (decide (k = net_name ni)) as [Hk2|Hk2]; subst;
      by map_lookups.
Qed.

Lemma rename_net_spec_witness :
  rename_net wired (Some N) "n2" =
  Done (mkContext (cell_mem wired)
          {[ N := mkNetInfo "n2" (mkPortRef (Some A) "Q") [mkPortRef (Some B) "D"] ]}
          (cells wired)
          {[ "n2" := Some N ]}).
Proof.
  exact (proj2 (proj2 rename_net_spec) wired N
           (mkNetInfo "n" (mkPortRef (Some A) "Q") [mkPortRef (Some B) "D"]) "n2"
           eq_refl eq_refl eq_refl).
Defined.

(** ** replace-bus *)

Lemma int_add_Done a b : is_int (a + b) → int_add a b = Done (a + b)%Z.
Proof. intros Hab. unfold int_add. by rewrite bool_decide_eq_true_2. Qed.

Lemma c_str_nul_free name : nul_free name → c_str name = name.
Proof.
  induction name as [|a name IH]; [done|]. simpl.
  destruct (Ascii.eqb a Ascii.zero); [done|]. simpl.
  intros Hfree. by rewrite IH.
Qed.

Lemma stringf_bus_expand brackets base k :
  nul_free base → stringf_bus brackets base k = expand base k brackets.
Proof. intros Hfree. unfold stringf_bus, expand. by rewrite c_str_nul_free. Qed.

Lemma bus_loop_calls old_cell old_name old_offset old_brackets
    new_cell new_name new_offset new_brackets (todo : nat) :
  nul_free old_name → nul_free new_name → ∀ (i : Z) ctx,
  (∀ j, i ≤ j < i + Z.of_nat todo → is_int (j + old_offset) ∧ is_int (j + new_offset))%Z →
  for_loop
    (λ i ctx,
       ko ← int_add i old_offset ;
       let old_port := stringf_bus old_brackets old_name ko in
       kn ← int_add i new_offset ;
       let new_port := stringf_bus new_brackets new_name kn in
       replace_port ctx old_cell old_port new_cell new_port)
    todo i ctx =
  replace_port_calls ctx
    ((λ j, (old_cell, expand old_name (old_offset + j) old_brackets,
            new_cell, expand new_name (new_offset + j) new_brackets))
       <$> seqZ i (Z.of_nat todo)).
Proof.
  intros Hfo Hfn.
  induction todo as [|todo IH]; intros i ctx Hint; [done|].
  rewrite seqZ_cons by lia.
  replace (Z.succ i) with (i + 1)%Z by lia.
  replace (Z.pred (Z.of_nat (S todo))) with (Z.of_nat todo) by lia.
  cbn [for_loop fmap list_fmap replace_port_calls].
  destruct (Hint i) as [Ho Hn]; [lia|].
  rewrite (int_add_Done _ _ Ho). cbn [mbind outcome_bind].
  rewrite (int_add_Done _ _ Hn). cbn [mbind outcome_bind].
  rewrite !stringf_bus_expand by done.
  rewrite (Z.add_comm i old_offset), (Z.add_comm i new_offset).
  destruct (replace_port _ _ _ _ _) as [ctx1| |]; [|done..].
  cbn [mbind outcome_bind].
  by rewrite IH by (intros j Hj; apply Hint; lia).
Qed.

(** C7, amended.  For base names that hold no NUL character, and as long
    as no index leaves the range of [int], [replace_bus] returns what the
    [width] calls of [replace_port] on the expanded names return, made in
    ascending order of the index, for every pair of bracket styles. *)
Theorem replace_bus_refines ctx old_cell old_name old_offset old_brackets
    new_cell new_name new_offset new_brackets width :
  nul_free old_name → nul_free new_name →
  (∀ i, 0 ≤ i < width → is_int (i + old_offset) ∧ is_int (i + new_offset))%Z →
  replace_bus ctx old_cell old_name old_offset old_brackets
    new_cell new_name new_offset new_brackets width =
  replace_port_calls ctx
    (replace_bus_calls old_cell old_name old_offset old_brackets
       new_cell new_name new_offset new_brackets width).
Proof.
  intros Hfo Hfn Hint. unfold replace_bus, replace_bus_calls.
  rewrite bus_loop_calls; [|done|done|].
  - destruct (decide (0 ≤ width)%Z).
    + by rewrite Z2Nat.id.
    + rewrite (Z2Nat.nonpos width) by lia. unfold seqZ.
      by rewrite (Z2Nat.nonpos width) by lia.
  - intros j Hj. apply Hint. lia.
Qed.

Lemma replace_bus_refines_witness :
  replace_bus bus A "a" 0 false B "b" 0 true 2 =
  replace_port_calls bus [(A, "a0", B, "b[0]"); (A, "a1", B, "b[1]")].
Proof.
  apply (replace_bus_refines bus A "a" 0 false B "b" 0 true 2).
  - exact I.
  - exact I.
  - intros i Hi. unfold is_int, INT_MIN, INT_MAX. lia.
Defined.

(** C7 as stated fails for a base name that holds a NUL: [%s] reads the
    name up to the NUL only, so the loop moves the ports [a0] and [a1],
    where the calls on the expanded names find no port to move. *)
Lemma replace_bus_nul_name_counterexample :
  (∀ i, 0 ≤ i < 2 → is_int (i + 0) ∧ is_int (i + 0))%Z ∧
  replace_port_calls wired_bus
    (replace_bus_calls A nul_name 0 false B "b" 0 true 2) = Done wired_bus ∧
  (∃ ctx',
     replace_bus wired_bus A nul_name 0 false B "b" 0 true 2 = Done ctx' ∧
     port_of ctx' A "a0" = Some (mkPortInfo "a0" None PORT_IN) ∧
     port_of ctx' B "b[0]" = Some (mkPortInfo "b[0]" (Some N) PORT_IN)) ∧
  replace_bus wired_bus A nul_name 0 false B "b" 0 true 2 ≠
  replace_port_calls wired_bus
    (replace_bus_calls A nul_name 0 false B "b" 0 true 2).
Proof.
  assert (replace_port_calls wired_bus
            (replace_bus_calls A nul_name 0 false B "b" 0 true 2) =
          Done wired_bus) as Hcalls by (by vm_compute).
  split; [intros i Hi; unfold is_int, INT_MIN, INT_MAX; lia|].
  split; [done|]. split.
  - eexists. split; [vm_compute; reflexivity|]. split; by vm_compute.
  - rewrite Hcalls. intros Hrun.
    assert (∀ o, o = Done wired_bus →
                 (ctx ← o ; Done (port_of ctx A "a0")) =
                 Done (port_of wired_bus A "a0")) as Hobs by (by intros ? ->).
    specialize (Hobs _ Hrun). vm_compute in Hobs. discriminate Hobs.
Qed.

(** ** Reading through writes *)

Lemma cell_head_write_port c p f ctx c' :
  cell_head (write_port c p f ctx) c' = cell_head ctx c'.
Proof.
  unfold cell_head. rewrite cell_mem_write_port.
  destruct (decide (c = c')) as [<-|]; [|done].
  by destruct (cell_mem ctx !! c).
Qed.

Lemma cell_head_ports_index c p ctx c' :
  cell_head (ports_index c p ctx) c' = cell_head ctx c'.
Proof.
  unfold cell_head, ports_index. simpl. rewrite lookup_alter.
  destruct (decide (c = c')) as [<-|]; [|done].
  by destruct (cell_mem ctx !! c).
Qed.

Lemma port_of_Some ctx c p ci pi :
  cell_mem ctx !! c = Some ci → ports ci !! p = Some pi → port_of ctx c p = Some pi.
Proof. intros Hc Hp. unfold port_of. by rewrite Hc. Qed.

(** ** replace-port *)

(** The port [replace_port] writes to: the one on the replacement cell, or
    a new one of the direction of the old port. *)
Lemma replace_port_target ctx rc rn rci t :
  cell_mem ctx !! rc = Some rci →
  let ctx1 :=
    if negb (count (ports rci) rn)
    then write_port rc rn (set_type t)
           (write_port rc rn (set_name rn) (ports_index rc rn ctx))
    else ctx in
  port_of ctx1 rc rn = Some (default (mkPortInfo rn None t) (ports rci !! rn)) ∧
  (∀ c p, ¬ (rc = c ∧ rn = p) → port_of ctx1 c p = port_of ctx c p) ∧
  (∀ c, cell_head ctx1 c = cell_head ctx c) ∧
  net_mem ctx1 = net_mem ctx ∧ cells ctx1 = cells ctx ∧ nets ctx1 = nets ctx.
Proof.
  intros Hrc. destruct (ports rci !! rn) as [rep|] eqn:Hrep; simpl.
  - rewrite (count_Some _ _ _ Hrep). simpl.
    split; [by eapply port_of_Some|done].
  - rewrite (count_None _ _ Hrep). simpl. split; [|split; [|split]].
    + rewrite !port_of_write_port, !decide_True, port_of_ports_index,
        decide_True, Hrc by done.
      simpl. by rewrite Hrep.
    + intros c p Hne.
      by rewrite !port_of_write_port, !decide_False, port_of_ports_index,
        decide_False.
    + intros c. by rewrite !cell_head_write_port, cell_head_ports_index.
    + done.
Qed.

Lemma NPNR_ASSERT_true b : b = true → NPNR_ASSERT b = Done tt.
Proof. by intros ->. Qed.

(** The effect of [replace_port] between two different ports. *)
Lemma replace_port_effect ctx oc on rc rn oci rci old :
  cell_mem ctx !! oc = Some oci →
  cell_mem ctx !! rc = Some rci →
  ports oci !! on = Some old →
  ¬ (oc = rc ∧ on = rn) →
  let rep0 := default (mkPortInfo rn None (type old)) (ports rci !! rn) in
  type rep0 = type old →
  type old ≠ PORT_INOUT →
  (∀ a, net old = Some a → is_Some (net_mem ctx !! a)) →
  ∃ ctx',
    replace_port ctx oc on rc rn = Done ctx' ∧
    port_of ctx' oc on = Some (set_net None old) ∧
    port_of ctx' rc rn = Some (set_net (net old) rep0) ∧
    (∀ c p, ¬ (oc = c ∧ on = p) → ¬ (rc = c ∧ rn = p) →
            port_of ctx' c p = port_of ctx c p) ∧
    (∀ c, cell_head ctx' c = cell_head ctx c) ∧
    (∀ a, net_mem ctx' !! a =
          if decide (net old = Some a)
          then rewired (type old) oc on rc rn <$> net_mem ctx !! a
          else net_mem ctx !! a) ∧
    cells ctx' = cells ctx ∧ nets ctx' = nets ctx.
Proof.
  intros Hoc Hrc Hold Hne rep0 Hty Hdir Hvalid. unfold replace_port.
  assert (¬ (rc = oc ∧ rn = on)) as Hne' by (intros [-> ->]; by apply Hne).
  rewrite (deref_cell_Some _ _ _ Hoc). cbn [mbind outcome_bind].
  rewrite (count_Some _ _ _ Hold). cbn [negb].
  rewrite (ports_at_Some _ _ _ _ _ Hoc Hold). cbn [mbind outcome_bind].
  rewrite (deref_cell_Some _ _ _ Hrc). cbn [mbind outcome_bind].
  destruct (replace_port_target ctx rc rn rci (type old) Hrc)
    as (T1 & T2 & T3 & T4 & T5 & T6).
  match type of T1 with port_of ?c _ _ = _ => set (ctx1 := c) in * end.
  fold rep0 in T1.
  rewrite (ports_at_port_of _ _ _ _ T1). cbn [mbind outcome_bind].
  rewrite NPNR_ASSERT_true by (by apply bool_decide_eq_true_2).
  cbn [mbind outcome_bind].
  set (ctx2 := write_port oc on (set_net None)
                 (write_port rc rn (set_net (net old)) ctx1)).
  assert (port_of ctx2 rc rn = Some (set_net (net old) rep0)) as R2.
  { unfold ctx2. rewrite port_of_write_port, decide_False by done.
    by rewrite port_of_write_port, decide_True, T1. }
  assert (port_of ctx2 oc on = Some (set_net None old)) as O2.
  { unfold ctx2. rewrite port_of_write_port, decide_True by done.
    rewrite port_of_write_port, decide_False, T2 by done.
    by rewrite (port_of_Some _ _ _ _ _ Hoc Hold). }
  assert (∀ c p, ¬ (oc = c ∧ on = p) → ¬ (rc = c ∧ rn = p) →
                 port_of ctx2 c p = port_of ctx c p) as F2.
  { intros c p H1 H2. unfold ctx2.
    by rewrite !port_of_write_port, !decide_False, T2. }
  assert (∀ c, cell_head ctx2 c = cell_head ctx c) as C2.
  { intros c. unfold ctx2. by rewrite !cell_head_write_port. }
  assert (net_mem ctx2 = net_mem ctx) as N2 by done.
  rewrite (ports_at_port_of _ _ _ _ R2). cbn [mbind outcome_bind].
  cbn [type net set_net]. rewrite Hty.
  destruct (net old) as [a|] eqn:Hnet.
  - destruct (Hvalid a eq_refl) as [ni Hn].
    assert (deref_net ctx2 a = Done ni) as ->.
    { apply deref_net_Some. by rewrite N2. }
    destruct (type old) eqn:Hto; [| |done]; cbn [mbind outcome_bind];
      (eexists; split; [done|]);
      (split; [by rewrite port_of_write_net|]);
      (split; [by rewrite port_of_write_net|]);
      (split; [done|]); (split; [done|]);
      (split; [|done]); intros a';
      rewrite net_mem_write_net, N2;
      (destruct (decide (a = a')) as [<-|Haa];
        [by rewrite decide_True | rewrite decide_False by congruence; done]).
  - destruct (type old) eqn:Hto; [| |done];
      (eexists; split; [done|]);
      (split; [done|]); (split; [done|]); (split; [done|]); (split; [done|]);
      (split; [|done]); intros a'; by rewrite N2.
Qed.

Lemma replace_port_absent ctx oc on rc rn oci :
  cell_mem ctx !! oc = Some oci → ports oci !! on = None →
  replace_port ctx oc on rc rn = Done ctx.
Proof.
  intros Hoc Hold. unfold replace_port.
  rewrite (deref_cell_Some _ _ _ Hoc). cbn [mbind outcome_bind].
  by rewrite (count_None _ _ Hold).
Qed.

(** Directions that differ, and a direction that is neither OUT nor IN, are
    fatal, whether or not the two ports are the same. *)
Lemma replace_port_fatal ctx oc on rc rn oci rci old :
  cell_mem ctx !! oc = Some oci →
  cell_mem ctx !! rc = Some rci →
  ports oci !! on = Some old →
  let rep0 := default (mkPortInfo rn None (type old)) (ports rci !! rn) in
  ¬ (type rep0 = type old ∧ type old ≠ PORT_INOUT) →
  replace_port ctx oc on rc rn = Fatal assertion_failure.
Proof.
  intros Hoc Hrc Hold rep0 Hbad. unfold replace_port.
  rewrite (deref_cell_Some _ _ _ Hoc). cbn [mbind outcome_bind].
  rewrite (count_Some _ _ _ Hold). cbn [negb].
  rewrite (ports_at_Some _ _ _ _ _ Hoc Hold). cbn [mbind outcome_bind].
  rewrite (deref_cell_Some _ _ _ Hrc). cbn [mbind outcome_bind].
  destruct (replace_port_target ctx rc rn rci (type old) Hrc)
    as (T1 & T2 & T3 & T4 & T5 & T6).
  match type of T1 with port_of ?c _ _ = _ => set (ctx1 := c) in * end.
  fold rep0 in T1.
  rewrite (ports_at_port_of _ _ _ _ T1). cbn [mbind outcome_bind].
  destruct (decide (type old = type rep0)) as [Hty|Hty].
  - rewrite NPNR_ASSERT_true by (by apply bool_decide_eq_true_2).
    cbn [mbind outcome_bind].
    assert (type old = PORT_INOUT) as Hio.
    { destruct (decide (type old = PORT_INOUT)); [done|]. destruct Hbad. done. }
    set (ctx2 := write_port oc on (set_net None)
                   (write_port rc rn (set_net (net old)) ctx1)).
    assert (∃ rep, port_of ctx2 rc rn = Some rep ∧ type rep = PORT_INOUT)
      as (rep & R2 & Htr).
    { unfold ctx2. destruct (decide (oc = rc ∧ on = rn)) as [[-> ->]|Hne].
      - rewrite !port_of_write_port, !decide_True, T1 by done. simpl.
        eexists. split; [done|]. simpl. congruence.
      - rewrite port_of_write_port, decide_False by done.
        rewrite port_of_write_port, decide_True, T1 by done. simpl.
        eexists. split; [done|]. simpl. congruence. }
    rewrite (ports_at_port_of _ _ _ _ R2). cbn [mbind outcome_bind].
    by rewrite Htr.
  - unfold NPNR_ASSERT. by rewrite bool_decide_eq_false_2.
Qed.

(** The call on one and the same port: the port ends unconnected and its
    net is not touched. *)
Lemma replace_port_same ctx c p ci old :
  cell_mem ctx !! c = Some ci →
  ports ci !! p = Some old →
  type old ≠ PORT_INOUT →
  ∃ ctx',
    replace_port ctx c p c p = Done ctx' ∧
    port_of ctx' c p = Some (set_net None old) ∧
    (∀ c' p', ¬ (c = c' ∧ p = p') → port_of ctx' c' p' = port_of ctx c' p') ∧
    (∀ c', cell_head ctx' c' = cell_head ctx c') ∧
    net_mem ctx' = net_mem ctx ∧ cells ctx' = cells ctx ∧ nets ctx' = nets ctx.
Proof.
  intros Hc Hold Hdir. unfold replace_port.
  rewrite (deref_cell_Some _ _ _ Hc). cbn [mbind outcome_bind].
  rewrite (count_Some _ _ _ Hold). cbn [negb].
  rewrite (ports_at_Some _ _ _ _ _ Hc Hold). cbn [mbind outcome_bind negb].
  rewrite NPNR_ASSERT_true by (by apply bool_decide_eq_true_2).
  cbn [mbind outcome_bind].
  set (ctx2 := write_port c p (set_net None) (write_port c p (set_net (net old)) ctx)).
  assert (port_of ctx2 c p = Some (set_net None old)) as R2.
  { unfold ctx2. rewrite !port_of_write_port, !decide_True by done.
    by rewrite (port_of_Some _ _ _ _ _ Hc Hold). }
  rewrite (ports_at_port_of _ _ _ _ R2). cbn [mbind outcome_bind type net set_net].
  exists ctx2. split; [by destruct (type old)|]. split; [done|].
  split; [|split; [|done]].
  - intros c' p' Hne. unfold ctx2. by rewrite !port_of_write_port, !decide_False.
  - intros c'. unfold ctx2. by rewrite !cell_head_write_port.
Qed.

(** C3, amended.  Between two different ports [replace_port] does what
    [replace_port_moves] says. *)
Theorem replace_port_spec ctx old_cell old_name rep_cell rep_name :
  ¬ (old_cell = rep_cell ∧ old_name = rep_name) →
  replace_port_moves ctx old_cell old_name rep_cell rep_name.
Proof.
  intros Hne oci Hoc.
  destruct (ports oci !! old_name) as [old|] eqn:Hold;
    [|by eapply replace_port_absent].
  intros rci Hrc rep0. destruct (decide _) as [[Hty Hdir]|Hbad].
  - intros Hvalid.
    destruct (replace_port_effect _ _ _ _ _ _ _ _ Hoc Hrc Hold Hne Hty Hdir Hvalid)
      as (ctx' & Hrun & Ho & Hr & _ & _ & Hnets & _).
    exists ctx'. split; [done|]. split; [done|]. split; [done|].
    intros a ni Hnet Hn. by rewrite Hnets, decide_True, Hn.
  - rewrite (replace_port_fatal _ _ _ _ _ _ _ _ Hoc Hrc Hold Hbad).
    apply is_fatal_Fatal.
Qed.

(** C3 as stated fails when the old and the replacement port are one port:
    the port loses its net, which keeps naming it as its driver. *)
Lemma replace_port_same_port_counterexample :
  wf wired ∧
  replace_port wired A "Q" A "Q" =
    Done (write_port A "Q" (set_net None) wired) ∧
  ¬ replace_port_moves wired A "Q" A "Q".
Proof.
  split; [apply (bool_decide_unpack _); by vm_compute|].
  split; [by vm_compute|].
  intros Hclaim.
  specialize (Hclaim _ eq_refl _ eq_refl). simpl in Hclaim.
  destruct Hclaim as (ctx' & _ & Hold & Hrep & _).
  - intros a [= <-]. by eexists.
  - rewrite Hold in Hrep. discriminate.
Qed.

Lemma replace_port_spec_witness :
  ∃ ctx',
    replace_port wired B "D" C "D3" = Done ctx' ∧
    port_of ctx' B "D" = Some (mkPortInfo "D" None PORT_IN) ∧
    port_of ctx' C "D3" = Some (mkPortInfo "D3" (Some N) PORT_IN) ∧
    net_mem ctx' !! N =
      Some (mkNetInfo "n" (mkPortRef (Some A) "Q") [mkPortRef (Some C) "D3"]).
Proof.
  assert (¬ (B = C ∧ "D" = "D3")) as Hne by (intros [? _]; discriminate).
  pose proof (replace_port_spec wired B "D" C "D3" Hne _ eq_refl _ eq_refl) as H.
  simpl in H. destruct H as (ctx' & Hrun & Ho & Hr & Hn).
  - intros a [= <-]. by eexists.
  - exists ctx'. split; [done|]. split; [done|]. split; [done|].
    exact (Hn N (mkNetInfo "n" (mkPortRef (Some A) "Q") [mkPortRef (Some B) "D"])
             eq_refl eq_refl).
Defined.

(** ** replace-port and the invariants *)

Lemma retarget_refers oc on rc rn r :
  refers oc on r → retarget oc on rc rn r = mkPortRef (Some rc) rn.
Proof.
  intros [Hc Hp]. unfold retarget.
  by rewrite !bool_decide_eq_true_2.
Qed.

Lemma retarget_other oc on rc rn r :
  ¬ refers oc on r → retarget oc on rc rn r = r.
Proof.
  intros Hno. unfold retarget.
  destruct (bool_decide (cell r = Some oc)) eqn:Hc; [|done].
  destruct (bool_decide (port r = on)) eqn:Hp; [|done].
  apply bool_decide_eq_true in Hc. apply bool_decide_eq_true in Hp.
  by destruct Hno.
Qed.

(** A graph that differs from a well-formed one by the move of the
    connection of one port to another, unconnected, port of the same
    direction is well-formed. *)
Lemma wf_after_move ctx ctx' oc on rc rn old rep0 :
  wf ctx →
  port_of ctx oc on = Some old →
  ¬ (oc = rc ∧ on = rn) →
  type rep0 = type old →
  type old ≠ PORT_INOUT →
  (∀ x, port_of ctx rc rn = Some x → net x = None) →
  port_of ctx' oc on = Some (set_net None old) →
  port_of ctx' rc rn = Some (set_net (net old) rep0) →
  (∀ c p, ¬ (oc = c ∧ on = p) → ¬ (rc = c ∧ rn = p) →
          port_of ctx' c p = port_of ctx c p) →
  (∀ a, net_mem ctx' !! a =
        if decide (net old = Some a)
        then rewired (type old) oc on rc rn <$> net_mem ctx !! a
        else net_mem ctx !! a) →
  wf ctx'.
Proof.
  intros [Hu Hd Hp] Hold Hne Hty Hdir Hun E1 E2 E3 E4.
  assert (∀ c p pi b, port_of ctx c p = Some pi → net pi = Some b →
                      ¬ (oc = c ∧ on = p) → port_of ctx' c p = Some pi) as K.
  { intros c p pi b Hpi Hb Hno. rewrite E3; [done..|].
    intros [<- <-]. apply Hun in Hpi. congruence. }
  split.
  - intros a ni' r Ha Hr. rewrite E4 in Ha.
    destruct (decide (net old = Some a)) as [Hnet|Hnet].
    + apply fmap_Some in Ha as (ni & Hni & ->).
      destruct (type old) eqn:Hto; [| |done]; cbn [rewired set_users set_driver users] in Hr.
      * apply list_elem_of_fmap in Hr as (r0 & -> & Hr0).
        destruct (decide (refers oc on r0)) as [Href|Href].
        -- rewrite (retarget_refers _ _ _ _ _ Href).
           exists rc, (set_net (net old) rep0). simpl.
           split; [done|]. split; [done|]. split; [congruence|done].
        -- rewrite (retarget_other _ _ _ _ _ Href).
           destruct (Hu a ni r0 Hni Hr0) as (c & pi & Hc & Hpi & Htp & Hnp).
           exists c, pi. split; [done|]. split; [|done].
           eapply K; [done..|]. intros [? ?]; subst. apply Href. by split.
      * destruct (Hu a ni r Hni Hr) as (c & pi & Hc & Hpi & Htp & Hnp).
        exists c, pi. split; [done|]. split; [|done].
        eapply K; [done..|]. intros [? ?]; subst. congruence.
    + destruct (Hu a ni' r Ha Hr) as (c & pi & Hc & Hpi & Htp & Hnp).
      exists c, pi. split; [done|]. split; [|done].
      eapply K; [done..|]. intros [? ?]; subst. congruence.
  - intros a ni' Ha. rewrite E4 in Ha.
    destruct (decide (net old = Some a)) as [Hnet|Hnet].
    + apply fmap_Some in Ha as (ni & Hni & ->).
      destruct (type old) eqn:Hto; [| |done]; cbn [rewired set_users set_driver driver].
      * destruct (Hd a ni Hni) as [Hnone|(c & pi & Hc & Hpi & Htp & Hnp)];
          [by left|right].
        exists c, pi. split; [done|]. split; [|done].
        eapply K; [done..|]. intros [? ?]; subst. congruence.
      * right. exists rc, (set_net (net old) rep0). simpl.
        split; [done|]. split; [done|]. split; [congruence|done].
    + destruct (Hd a ni' Ha) as [Hnone|(c & pi & Hc & Hpi & Htp & Hnp)];
        [by left|right].
      exists c, pi. split; [done|]. split; [|done].
      eapply K; [done..|]. intros [? ?]; subst. congruence.
  - intros c p pi' Hpi' a Hnp.
    destruct (decide (oc = c ∧ on = p)) as [[<- <-]|Hno].
    { rewrite E1 in Hpi'. injection Hpi' as <-. done. }
    destruct (decide (rc = c ∧ rn = p)) as [[<- <-]|Hnr].
    { rewrite E2 in Hpi'. injection Hpi' as <-. simpl in *.
      destruct (Hp oc on old Hold a Hnp) as (ni & Hni & Hl).
      exists (rewired (type old) oc on rc rn ni).
      split; [by rewrite E4, decide_True, Hni|].
      rewrite Hty. destruct (type old) eqn:Hto; [| |done]; simpl in *.
      - rewrite <- (retarget_refers oc on rc rn (mkPortRef (Some oc) on)) by done.
        by apply list_elem_of_fmap_2.
      - done. }
    rewrite E3 in Hpi' by done.
    destruct (Hp c p pi' Hpi' a Hnp) as (ni & Hni & Hl).
    rewrite E4. destruct (decide (net old = Some a)) as [Hnet|Hnet]; [|by exists ni].
    exists (rewired (type old) oc on rc rn ni). rewrite Hni. split; [done|].
    destruct (Hp oc on old Hold a Hnet) as (ni0 & Hni0 & Hl0).
    rewrite Hni in Hni0. injection Hni0 as <-.
    destruct (type old) eqn:Hto; [| |done]; simpl in *.
    + destruct (decide (type pi' = PORT_OUT)); [done|].
      rewrite <- (retarget_other oc on rc rn (mkPortRef (Some c) p)).
      * by apply list_elem_of_fmap_2.
      * intros [[= ->] Hq]. simpl in Hq. by destruct Hno.
    + destruct (decide (type pi' = PORT_OUT)); [|done].
      rewrite Hl in Hl0. injection Hl0 as -> ->. by destruct Hno.
Qed.

Lemma wf_ext ctx ctx' :
  (∀ c p, port_of ctx' c p = port_of ctx c p) →
  net_mem ctx' = net_mem ctx →
  wf ctx → wf ctx'.
Proof.
  intros Hports Hnets [Hu Hd Hp]. split.
  - intros a ni r Ha Hr. rewrite Hnets in Ha.
    destruct (Hu a ni r Ha Hr) as (c & pi & ? & ? & ? & ?).
    exists c, pi. by rewrite Hports.
  - intros a ni Ha. rewrite Hnets in Ha.
    destruct (Hd a ni Ha) as [?|(c & pi & ? & ? & ? & ?)]; [by left|right].
    exists c, pi. by rewrite Hports.
  - intros c p pi Hpi a Hnet. rewrite Hports in Hpi. rewrite Hnets.
    by apply (Hp c p pi Hpi a Hnet).
Qed.

Lemma replace_port_bad_old_cell ctx oc on rc rn :
  cell_mem ctx !! oc = None → replace_port ctx oc on rc rn = Undef.
Proof. intros Hoc. unfold replace_port, deref_cell. by rewrite Hoc. Qed.

Lemma replace_port_bad_rep_cell ctx oc on rc rn oci old :
  cell_mem ctx !! oc = Some oci → ports oci !! on = Some old →
  cell_mem ctx !! rc = None → replace_port ctx oc on rc rn = Undef.
Proof.
  intros Hoc Hold Hrc. unfold replace_port.
  rewrite (deref_cell_Some _ _ _ Hoc). cbn [mbind outcome_bind].
  rewrite (count_Some _ _ _ Hold). cbn [negb].
  rewrite (ports_at_Some _ _ _ _ _ Hoc Hold). cbn [mbind outcome_bind].
  unfold deref_cell. by rewrite Hrc.
Qed.

(** In a well-formed graph, what a net lists points back to the net. *)
Lemma listed_points_back ctx c p (t : PortType) a ni :
  wf ctx →
  net_mem ctx !! a = Some ni →
  (if decide (t = PORT_OUT) then driver ni = mkPortRef (Some c) p
   else mkPortRef (Some c) p ∈ users ni) →
  ∃ pi, port_of ctx c p = Some pi ∧ net pi = Some a.
Proof.
  intros [Hu Hd _] Hn Hl. destruct (decide (t = PORT_OUT)).
  - destruct (Hd a ni Hn) as [Hnone|(c0 & pi & Hc & Hp & _ & Hnet)];
      rewrite Hl in *; simpl in *; [done|].
    injection Hc as <-. by exists pi.
  - destruct (Hu a ni _ Hn Hl) as (c0 & pi & Hc & Hp & _ & Hnet). simpl in *.
    injection Hc as <-. by exists pi.
Qed.

(** A replacement port that is connected, to another net than the old port
    or because it is the old port itself, breaks the invariants: its former
    net goes on listing it. *)
Lemma replace_port_breaks_wf ctx oc on rc rn old rep ctx' :
  wf ctx →
  port_of ctx oc on = Some old →
  port_of ctx rc rn = Some rep →
  is_Some (net rep) →
  (oc = rc ∧ on = rn) ∨ net old ≠ net rep →
  replace_port ctx oc on rc rn = Done ctx' →
  ¬ wf ctx'.
Proof.
  intros Hwf Hold Hrep [m Hm] Hcase Hrun Hwf'.
  pose proof Hold as (oci & Hoc & Hop)%port_of_cell.
  pose proof Hrep as (rci & Hrc & Hrp)%port_of_cell.
  destruct (wf_ports _ Hwf _ _ _ Hrep m Hm) as (nm & Hnm & Hl).
  destruct (decide (type (default (mkPortInfo rn None (type old))
                                  (ports rci !! rn)) = type old ∧
                    type old ≠ PORT_INOUT))
    as [[Hty Hdir]|Hbad]; cycle 1.
  { by rewrite (replace_port_fatal _ _ _ _ _ _ _ _ Hoc Hrc Hop Hbad) in Hrun. }
  assert (∃ pi, port_of ctx' rc rn = Some pi ∧ net pi ≠ Some m ∧
                net_mem ctx' !! m = Some nm) as (pi & Hpi & Hnet & Hnm').
  { destruct (decide (oc = rc ∧ on = rn)) as [[<- <-]|Hne].
    - destruct (replace_port_same _ _ _ _ _ Hoc Hop Hdir)
        as (ctx1 & Hrun1 & E1 & _ & _ & E4 & _).
      rewrite Hrun1 in Hrun. injection Hrun as <-.
      exists (set_net None old). by rewrite E4.
    - destruct Hcase as [?|Hnets]; [done|].
      assert (∀ a, net old = Some a → is_Some (net_mem ctx !! a)) as Hvalid.
      { intros a Ha. destruct (wf_ports _ Hwf _ _ _ Hold a Ha) as (ni & ? & _).
        by exists ni. }
      destruct (replace_port_effect _ _ _ _ _ _ _ _ Hoc Hrc Hop Hne Hty Hdir Hvalid)
        as (ctx1 & Hrun1 & _ & E2 & _ & _ & E4 & _).
      rewrite Hrun1 in Hrun. injection Hrun as <-.
      eexists. split; [exact E2|]. simpl. split; [congruence|].
      rewrite E4, decide_False; [done|congruence]. }
  destruct (listed_points_back ctx' rc rn (type rep) m nm Hwf' Hnm' Hl)
    as (pi' & Hpi' & Hnet').
  congruence.
Qed.

(** C4. On a well-formed graph, when the replacement port does not exist
    yet or is unconnected, every graph [replace_port] returns is
    well-formed, and on valid cells the call is defined.  The condition is
    needed: a replacement port that is connected, to another net than the
    old port or because it is the old port itself, makes every graph the
    call returns ill-formed, and there is a well-formed graph on which this
    happens. *)
Theorem replace_port_preserves_wf :
  (∀ ctx old_cell old_name rep_cell rep_name,
     wf ctx →
     (∀ rep, port_of ctx rep_cell rep_name = Some rep → net rep = None) →
     (∀ ctx', replace_port ctx old_cell old_name rep_cell rep_name = Done ctx' →
              wf ctx') ∧
     (is_Some (cell_mem ctx !! old_cell) → is_Some (cell_mem ctx !! rep_cell) →
      replace_port ctx old_cell old_name rep_cell rep_name ≠ Undef)) ∧
  (∀ ctx old_cell old_name rep_cell rep_name old rep ctx',
     wf ctx →
     port_of ctx old_cell old_name = Some old →
     port_of ctx rep_cell rep_name = Some rep →
     is_Some (net rep) →
     (old_cell = rep_cell ∧ old_name = rep_name) ∨ net old ≠ net rep →
     replace_port ctx old_cell old_name rep_cell rep_name = Done ctx' →
     ¬ wf ctx') ∧
  (∃ ctx old_cell old_name rep_cell rep_name rep ctx',
     wf ctx ∧
     port_of ctx rep_cell rep_name = Some rep ∧ is_Some (net rep) ∧
     replace_port ctx old_cell old_name rep_cell rep_name = Done ctx' ∧
     ¬ wf ctx').
Proof.
  split; [|split].
  - intros ctx oc on rc rn Hwf Hun.
    destruct (cell_mem ctx !! oc) as [oci|] eqn:Hoc; cycle 1.
    { rewrite (replace_port_bad_old_cell _ _ _ _ _ Hoc).
      split; [done|]. by intros [? ?]. }
    destruct (ports oci !! on) as [old|] eqn:Hold; cycle 1.
    { rewrite (replace_port_absent _ _ _ _ _ _ Hoc Hold).
      split; [by intros ctx' [= <-]|done]. }
    destruct (cell_mem ctx !! rc) as [rci|] eqn:Hrc; cycle 1.
    { rewrite (replace_port_bad_rep_cell _ _ _ _ _ _ _ Hoc Hold Hrc).
      split; [done|]. by intros _ [? ?]. }
    destruct (decide (type (default (mkPortInfo rn None (type old))
                                    (ports rci !! rn)) = type old ∧
                      type old ≠ PORT_INOUT))
      as [[Hty Hdir]|Hbad]; cycle 1.
    { by rewrite (replace_port_fatal _ _ _ _ _ _ _ _ Hoc Hrc Hold Hbad). }
    pose proof (port_of_Some _ _ _ _ _ Hoc Hold) as Hpo.
    destruct (decide (oc = rc ∧ on = rn)) as [[<- <-]|Hne].
    + destruct (replace_port_same _ _ _ _ _ Hoc Hold Hdir)
        as (ctx1 & -> & E1 & E3 & _ & E4 & _).
      split; [|done]. intros ctx' [= <-].
      apply (wf_ext ctx); [|done..].
      intros c p. destruct (decide (oc = c ∧ on = p)) as [[<- <-]|Hcp].
      * rewrite E1, Hpo. f_equal. apply Hun in Hpo.
        destruct old; simpl in *. by subst.
      * by apply E3.
    + assert (∀ a, net old = Some a → is_Some (net_mem ctx !! a)) as Hvalid.
      { intros a Ha. destruct (wf_ports _ Hwf oc on old Hpo a Ha) as (ni & ? & _).
        by exists ni. }
      destruct (replace_port_effect _ _ _ _ _ _ _ _ Hoc Hrc Hold Hne Hty Hdir Hvalid)
        as (ctx1 & -> & E1 & E2 & E3 & _ & E4 & _).
      split; [|done]. intros ctx' [= <-].
      by eapply (wf_after_move ctx ctx1 oc on rc rn old).
  - intros ctx oc on rc rn old rep ctx'. apply replace_port_breaks_wf.
  - exists two_nets, A, "I", A, "J". eexists. eexists.
    split; [apply (bool_decide_unpack _); by vm_compute|].
    split; [by vm_compute|]. split; [by eexists|].
    split; [vm_compute; reflexivity|].
    apply (bool_decide_eq_false_1 (wf _)). by vm_compute.
Qed.

Lemma replace_port_preserves_wf_witness :
  ∃ ctx', replace_port wired B "D" C "D3" = Done ctx' ∧ wf ctx'.
Proof.
  eexists. split; [vm_compute; reflexivity|].
  refine (proj1 (proj1 replace_port_preserves_wf wired B "D" C "D3" _ _) _ _).
  - apply (bool_decide_unpack _). by vm_compute.
  - intros rep Hrep. vm_compute in Hrep. discriminate.
  - vm_compute. reflexivity.
Defined.

(** ** rename-port *)

Lemma rename_port_absent ctx c old new ci :
  cell_mem ctx !! c = Some ci → ports ci !! old = None →
  rename_port ctx c old new = Done ctx.
Proof.
  intros Hc Hp. unfold rename_port.
  rewrite (deref_cell_Some _ _ _ Hc). cbn [mbind outcome_bind].
  by rewrite (count_None _ _ Hp).
Qed.

(** The graph [rename_port] returns for a connected port. *)
Lemma rename_port_effect ctx c old new ci pi a ni :
  cell_mem ctx !! c = Some ci →
  ports ci !! old = Some pi →
  net pi = Some a →
  net_mem ctx !! a = Some ni →
  rename_port ctx c old new =
  Done (mkContext
          (<[c := mkCellInfo (cell_name ci) (cell_type ci)
                    (<[new := set_name new pi]> (delete old (ports ci)))]>
             (cell_mem ctx))
          (<[a := renamed_net c old new ni]> (net_mem ctx))
          (cells ctx) (nets ctx)).
Proof.
  intros Hc Hp Hnet Hn. unfold rename_port.
  rewrite (deref_cell_Some _ _ _ Hc). cbn [mbind outcome_bind].
  rewrite (count_Some _ _ _ Hp). cbn [negb].
  rewrite (ports_at_Some _ _ _ _ _ Hc Hp). cbn [mbind outcome_bind].
  rewrite Hnet, (deref_net_Some _ _ _ Hn). cbn [mbind outcome_bind].
  f_equal. unfold upd_cell_mem, write_net, upd_net_mem, renamed_net, rename_user.
  destruct (bool_decide (refers c old (driver ni))); simpl; f_equal.
  - apply map_eq. intros c'.
    destruct (decide (c = c')) as [<-|]; map_lookups; [by rewrite Hc|done].
  - apply map_eq. intros a'.
    destruct (decide (a = a')) as [<-|]; map_lookups; [by rewrite Hn|done].
  - apply map_eq. intros c'.
    destruct (decide (c = c')) as [<-|]; map_lookups; [by rewrite Hc|done].
  - apply map_eq. intros a'.
    destruct (decide (a = a')) as [<-|]; map_lookups; [|done].
    rewrite Hn. simpl. by destruct ni as [? [] ?].
Qed.

Lemma fmap_fixed {X} (f : X → X) (l : list X) :
  (∀ x, x ∈ l → f x = x) → f <$> l = l.
Proof.
  induction l as [|x l IH]; intros Hf; [done|]. simpl. f_equal.
  - apply Hf. by left.
  - apply IH. intros y Hy. apply Hf. by right.
Qed.

(** On a well-formed graph only the net of a port refers to it. *)
Lemma renamed_net_elsewhere ctx c old new pi a b nb :
  wf ctx →
  port_of ctx c old = Some pi → net pi = Some a →
  net_mem ctx !! b = Some nb → a ≠ b →
  renamed_net c old new nb = nb.
Proof.
  intros [Hu Hd _] Hpo Hnet Hb Hab.
  assert (∀ r, user_ok ctx b r ∨ driver_ok ctx b r →
               rename_user c old new r = r) as Hsame.
  { intros r Hok. unfold rename_user. case_bool_decide as Href; [|done].
    destruct Href as [Hc Hp]. exfalso.
    destruct Hok as [(c0 & pi0 & ? & Hp0 & _ & ?)|[?|(c0 & pi0 & ? & Hp0 & _ & ?)]];
      congruence. }
  unfold renamed_net. rewrite Hsame by (right; by eapply Hd).
  rewrite fmap_fixed; [by destruct nb|].
  intros r Hr. apply Hsame. left. by eapply Hu.
Qed.

(** C8, amended.  When the new name is the old one or is not yet a port of
    the cell, [rename_port] does what [rename_port_relabels] says. *)
Theorem rename_port_spec ctx c old_name new_name :
  new_name = old_name ∨ port_of ctx c new_name = None →
  rename_port_relabels ctx c old_name new_name.
Proof.
  intros Hfresh Hwf ci Hc.
  destruct (ports ci !! old_name) as [pi|] eqn:Hp;
    [|by eapply rename_port_absent].
  intros [a Hnet].
  pose proof (port_of_Some _ _ _ _ _ Hc Hp) as Hpo.
  destruct (wf_ports _ Hwf _ _ _ Hpo a Hnet) as (ni & Hn & _).
  rewrite (rename_port_effect _ _ _ _ _ _ _ _ Hc Hp Hnet Hn).
  eexists _, _. split; [done|]. simpl. split; [by rewrite lookup_insert_eq|].
  split; [done|].
  match goal with |- isomorphic_by_renaming _ _ _ _ ?x => set (ctx' := x) end.
  assert (∀ p, port_of ctx' c p =
               <[new_name := set_name new_name pi]> (delete old_name (ports ci)) !! p)
    as Hhere.
  { intros p. unfold port_of, ctx'. simpl. by rewrite lookup_insert_eq. }
  assert (∀ c' p, c ≠ c' → port_of ctx' c' p = port_of ctx c' p) as Hother.
  { intros c' p Hne. unfold port_of, ctx'. simpl. by rewrite lookup_insert_ne. }
  assert (∀ p, is_Some (port_of ctx c p) → p ≠ old_name → p ≠ new_name) as Hnew.
  { intros p [x Hx] Hpo' ->. destruct Hfresh as [->|Hnone]; congruence. }
  split.
  - intros [c1 p1] [c2 p2] H1 H2 Heq. unfold relabel, is_port in *. simpl in *.
    destruct (decide ((c1, p1) = (c, old_name))) as [E1|E1];
      destruct (decide ((c2, p2) = (c, old_name))) as [E2|E2];
      [congruence| | |done].
    + injection Heq as <- <-. exfalso.
      apply (Hnew new_name H2); [|done]. intros ->. done.
    + injection Heq as -> ->. exfalso.
      apply (Hnew new_name H1); [|done]. intros ->. done.
  - intros [c1 p1] Hq. unfold relabel, is_port in *. simpl in *.
    case_decide as Hold; simplify_eq; simpl.
    + by rewrite Hhere, lookup_insert_eq, Hpo.
    + rewrite option_fmap_id.
      destruct (decide (c = c1)) as [<-|Hne]; [|by rewrite Hother].
      assert (p1 ≠ old_name) as Hpne by congruence.
      rewrite Hhere, lookup_insert_ne, lookup_delete_ne; [|done|].
      * unfold port_of. by rewrite Hc.
      * intros <-. by eapply Hnew.
  - intros [c1 p1] [x Hx]. unfold relabel, is_port in *. simpl in *.
    destruct (decide (c = c1)) as [<-|Hne].
    + rewrite Hhere in Hx.
      destruct (decide (p1 = new_name)) as [->|Hpn].
      * exists (c, old_name). simpl. rewrite Hpo, decide_True by done. by split.
      * rewrite lookup_insert_ne in Hx by done.
        apply lookup_delete_Some in Hx as [Hpo' Hx].
        exists (c, p1). simpl. rewrite decide_False by congruence.
        split; [|done]. unfold port_of. rewrite Hc. by eexists.
    + rewrite Hother in Hx by done.
      exists (c1, p1). simpl. rewrite decide_False by congruence.
      split; [by eexists|done].
  - intros b. unfold ctx'. simpl.
    destruct (decide (a = b)) as [<-|Hab]; [by rewrite lookup_insert_eq, Hn|].
    rewrite lookup_insert_ne by done.
    destruct (net_mem ctx !! b) as [nb|] eqn:Hb; [|done]. simpl. f_equal.
    symmetry. by eapply renamed_net_elsewhere.
  - intros c'. unfold cell_head, ctx'. simpl.
    destruct (decide (c = c')) as [<-|Hne]; [|by rewrite lookup_insert_ne].
    by rewrite lookup_insert_eq, Hc.
  - done.
Qed.

(** C8 as stated fails when the new name is already another port of the
    cell: that port is overwritten, and the graph has a port less. *)
Lemma rename_port_taken_name_counterexample :
  wf two_nets ∧
  rename_port two_nets A "I" "J" =
    Done (mkContext
            {[ A := mkCellInfo "A" "LUT" {[ "J" := mkPortInfo "J" (Some N) PORT_IN ]} ]}
            {[ N := mkNetInfo "n" (mkPortRef None "") [mkPortRef (Some A) "J"];
               M := mkNetInfo "m" (mkPortRef None "") [mkPortRef (Some A) "J"] ]}
            {[ "A" := Some A ]}
            {[ "n" := Some N; "m" := Some M ]}) ∧
  ¬ rename_port_relabels two_nets A "I" "J".
Proof.
  split; [apply (bool_decide_unpack _); by vm_compute|].
  split; [by vm_compute|].
  intros Hclaim.
  assert (wf two_nets) as Hwf by (apply (bool_decide_unpack _); by vm_compute).
  specialize (Hclaim Hwf _ eq_refl). simpl in Hclaim.
  destruct Hclaim as (ctx' & ci' & _ & _ & _ & [Hinj _ _ _ _ _]); [by eexists|].
  specialize (Hinj (A, "I") (A, "J")).
  assert ((A, "I") = (A, "J")) as Heq; [|discriminate].
  apply Hinj; [by eexists | by eexists | by vm_compute].
Qed.

Lemma rename_port_spec_witness :
  ∃ ctx' ci',
    rename_port wired B "D" "D2" = Done ctx' ∧
    cell_mem ctx' !! B = Some ci' ∧
    ports ci' = {[ "D2" := mkPortInfo "D2" (Some N) PORT_IN ]} ∧
    isomorphic_by_renaming B "D" "D2" wired ctx'.
Proof.
  assert ("D2" = "D" ∨ port_of wired B "D2" = None) as Hfresh
    by (right; reflexivity).
  assert (wf wired) as Hwf by (apply (bool_decide_unpack _); by vm_compute).
  destruct (rename_port_spec wired B "D" "D2" Hfresh Hwf _ eq_refl)
    as (ctx' & ci' & Hrun & Hci & Hports & Hiso); [by eexists|].
  exists ctx', ci'. split; [done|]. split; [done|]. split; [|done].
  rewrite Hports. by vm_compute.
Defined.

(** ** connect-via-new-net *)

Lemma connect_ports_connected ctx cell1 port1_name cell2 port2_name port1 a :
  port_of ctx cell1 port1_name = Some port1 → net port1 = Some a →
  connect_ports ctx cell1 port1_name cell2 port2_name =
  connect_port ctx (Some a) cell2 port2_name.
Proof.
  intros Hp Hnet. unfold connect_ports.
  rewrite (ports_at_port_of _ _ _ _ Hp). cbn [mbind outcome_bind].
  rewrite Hnet. cbn [mbind outcome_bind].
  rewrite (ports_at_port_of _ _ _ _ Hp). cbn [mbind outcome_bind].
  by rewrite Hnet.
Qed.

(** X5.  [connect_ports] from an unconnected port1 is fatal when the name
    derived for the new net is the name of a cell. *)
Lemma connect_ports_cell_name_taken ctx cell1 port1_name cell2 port2_name c1 port1 :
  cell_mem ctx !! cell1 = Some c1 →
  ports c1 !! port1_name = Some port1 → net port1 = None →
  is_Some (cells ctx !! (cell_name c1 +:+ "$conn$" +:+ port1_name)) →
  connect_ports ctx cell1 port1_name cell2 port2_name = Fatal assertion_failure.
Proof.
  intros Hc Hp Hnet [u Hu]. unfold connect_ports.
  rewrite (ports_at_Some _ _ _ _ _ Hc Hp). cbn [mbind outcome_bind].
  rewrite Hnet. unfold new_NetInfo.
  set (a := fresh (dom (net_mem ctx))).
  set (name := cell_name c1 +:+ "$conn$" +:+ port1_name) in *.
  assert (deref_cell (upd_net_mem <[a := mkNetInfo "" (mkPortRef None "") []]> ctx)
            cell1 = Done c1) as -> by (by apply deref_cell_Some).
  cbn [mbind outcome_bind]. fold name.
  match goal with |- context [connect_port ?c _ _ _] => set (ctx1 := c) end.
  assert (net_mem ctx1 !! a = Some (mkNetInfo name (mkPortRef None "") [])) as Hn1.
  { unfold ctx1, write_net. simpl. by rewrite lookup_alter_eq, lookup_insert_eq. }
  pose proof (connect_port_cases ctx1 a cell1 port1_name c1 _ Hc Hn1) as Hspec.
  rewrite Hp, Hnet in Hspec.
  assert (∃ f, connect_port ctx1 (Some a) cell1 port1_name =
               Done (write_net a f (write_port cell1 port1_name (set_net (Some a)) ctx1))
               ∧ ∀ ni, net_name (f ni) = net_name ni)
    as (f & -> & Hname).
  { destruct (type port1); eexists; (split; [exact Hspec|done]). }
  cbn [mbind outcome_bind].
  unfold deref_net.
  rewrite net_mem_write_net, decide_True, net_mem_write_port, Hn1 by done.
  simpl. rewrite Hname. simpl. by rewrite (count_Some _ _ _ Hu).
Qed.

Lemma connect_port_attach ctx a c p pi ni :
  port_of ctx c p = Some pi → net pi = None →
  net_mem ctx !! a = Some ni →
  (type pi = PORT_OUT → cell (driver ni) = None) →
  connect_port ctx (Some a) c p =
  Done (write_net a (attached c p (type pi)) (write_port c p (set_net (Some a)) ctx)).
Proof.
  intros Hp Hnet Hn Hdrv. destruct (type pi) eqn:Hty.
  - rewrite (connect_port_user _ _ _ _ _ _ Hp Hnet) by (done || congruence). done.
  - by rewrite (connect_port_driver _ _ _ _ _ _ Hp Hnet Hty Hn (Hdrv eq_refl)).
  - rewrite (connect_port_user _ _ _ _ _ _ Hp Hnet) by (done || congruence). done.
Qed.

(** X4.  With the derived name free among the cells and among the nets, two
    unconnected ports that are not both OUT end on a new net of that name,
    stored under that name. *)
Lemma connect_ports_new_net ctx cell1 port1_name cell2 port2_name c1 port1 port2 :
  cell_mem ctx !! cell1 = Some c1 →
  ports c1 !! port1_name = Some port1 → net port1 = None →
  port_of ctx cell2 port2_name = Some port2 → net port2 = None →
  ¬ (cell1 = cell2 ∧ port1_name = port2_name) →
  ¬ (type port1 = PORT_OUT ∧ type port2 = PORT_OUT) →
  let name := cell_name c1 +:+ "$conn$" +:+ port1_name in
  let a := fresh (dom (net_mem ctx)) in
  cells ctx !! name = None →
  nets ctx !! name = None →
  ∃ ctx',
    connect_ports ctx cell1 port1_name cell2 port2_name = Done ctx' ∧
    nets ctx' = <[name := Some a]> (nets ctx) ∧
    net_mem ctx' =
      <[a := attached cell2 port2_name (type port2)
               (attached cell1 port1_name (type port1)
                  (mkNetInfo name (mkPortRef None "") []))]> (net_mem ctx) ∧
    port_of ctx' cell1 port1_name = Some (set_net (Some a) port1) ∧
    port_of ctx' cell2 port2_name = Some (set_net (Some a) port2) ∧
    (∀ c p, ¬ (cell1 = c ∧ port1_name = p) → ¬ (cell2 = c ∧ port2_name = p) →
            port_of ctx' c p = port_of ctx c p) ∧
    cells ctx' = cells ctx.
Proof.
  intros Hc Hp Hnet Hp2 Hnet2 Hne Hdir name a Hcells Hnets.
  pose proof (port_of_Some _ _ _ _ _ Hc Hp) as Hp1.
  assert (net_mem ctx !! a = None) as Hfresh.
  { apply not_elem_of_dom. apply is_fresh. }
  unfold connect_ports.
  rewrite (ports_at_Some _ _ _ _ _ Hc Hp). cbn [mbind outcome_bind].
  rewrite Hnet. unfold new_NetInfo. fold a.
  assert (deref_cell (upd_net_mem <[a := mkNetInfo "" (mkPortRef None "") []]> ctx)
            cell1 = Done c1) as -> by (by apply deref_cell_Some).
  cbn [mbind outcome_bind]. fold name.
  match goal with |- context [connect_port ?c _ _ _] => set (ctx1 := c) end.
  set (n0 := mkNetInfo name (mkPortRef None "") []).
  assert (net_mem ctx1 = <[a := n0]> (net_mem ctx)) as Hmem1.
  { unfold ctx1, write_net. simpl.
    rewrite (alter_lookup_insert _ _ _ _ (lookup_insert_eq _ _ _)).
    by rewrite insert_insert_eq. }
  assert (net_mem ctx1 !! a = Some n0) as Hn1 by (by rewrite Hmem1, lookup_insert_eq).
  assert (∀ c p, port_of ctx1 c p = port_of ctx c p) as Hports1 by done.
  rewrite (connect_port_attach ctx1 a cell1 port1_name port1 n0)
    by (done || by rewrite Hports1).
  cbn [mbind outcome_bind].
  set (n1 := attached cell1 port1_name (type port1) n0).
  match goal with |- context [deref_net ?c a] => set (ctx2 := c) end.
  assert (net_mem ctx2 = <[a := n1]> (net_mem ctx)) as Hmem2.
  { unfold ctx2, write_net. simpl. fold (net_mem ctx1).
    rewrite (alter_lookup_insert _ _ _ _ Hn1), Hmem1. by rewrite insert_insert_eq. }
  assert (net_name n1 = name) as Hname by (unfold n1; by destruct (type port1)).
  rewrite (deref_net_Some ctx2 a n1) by (by rewrite Hmem2, lookup_insert_eq).
  cbn [mbind outcome_bind]. rewrite Hname.
  rewrite (count_None (cells ctx2) name) by done.
  cbn [negb NPNR_ASSERT mbind outcome_bind].
  unfold nets_assign. replace (nets ctx2 !! name) with (@None (option positive)) by done.
  cbn [default destroy_unique mbind outcome_bind].
  set (ctx3 := upd_nets <[name := Some a]> ctx2).
  assert (port_of ctx3 cell1 port1_name = Some (set_net (Some a) port1)) as H31.
  { unfold ctx3, ctx2.
    change (port_of (write_port cell1 port1_name (set_net (Some a)) ctx1)
              cell1 port1_name = Some (set_net (Some a) port1)).
    by rewrite port_of_write_port, decide_True, Hports1, Hp1. }
  assert (∀ c p, ¬ (cell1 = c ∧ port1_name = p) →
                 port_of ctx3 c p = port_of ctx c p) as H3o.
  { intros c p Hcp.
    change (port_of (write_port cell1 port1_name (set_net (Some a)) ctx1) c p =
            port_of ctx c p).
    by rewrite port_of_write_port, decide_False, Hports1. }
  rewrite (ports_at_port_of _ _ _ _ H31). cbn [mbind outcome_bind net set_net].
  rewrite (connect_port_attach ctx3 a cell2 port2_name port2 n1).
  - eexists. split; [done|]. split; [done|]. split; [|split; [|split; [|split]]].
    + change (alter (attached cell2 port2_name (type port2)) a (net_mem ctx2) =
              <[a := attached cell2 port2_name (type port2) n1]> (net_mem ctx)).
      rewrite Hmem2, (alter_lookup_insert _ _ _ _ (lookup_insert_eq _ _ _)).
      by rewrite insert_insert_eq.
    + rewrite port_of_write_net, port_of_write_port, decide_False, H31; [done|].
      intros [-> ->]. by apply Hne.
    + by rewrite port_of_write_net, port_of_write_port, decide_True, H3o, Hp2.
    + intros c p H1 H2.
      by rewrite port_of_write_net, port_of_write_port, decide_False, H3o.
    + done.
  - by rewrite H3o.
  - done.
  - change (net_mem ctx2 !! a = Some n1). by rewrite Hmem2, lookup_insert_eq.
  - intros Hout. unfold n1. destruct (type port1) eqn:Ht1; try done.
    by destruct Hdir.
Qed.

(** C1, at an input where the derived name is the name of a net of the
    store.  The call returns: the slot of the name takes the new net, the
    net that was stored there is deleted, and the port that drove it is
    left with a pointer to no net. *)
Theorem connect_ports_net_name_taken :
  wf name_taken ∧
  nets name_taken !! "A$conn$Q" = Some (Some N) ∧
  ∃ ctx',
    connect_ports name_taken A "Q" B "D" = Done ctx' ∧
    nets ctx' !! "A$conn$Q" = Some (Some 2%positive) ∧
    net_mem ctx' !! 2%positive =
      Some (mkNetInfo "A$conn$Q" (mkPortRef (Some A) "Q") [mkPortRef (Some B) "D"]) ∧
    net_mem ctx' !! N = None ∧
    port_of ctx' C "O" = Some (mkPortInfo "O" (Some N) PORT_OUT) ∧
    ¬ wf ctx'.
Proof.
  split; [apply (bool_decide_unpack _); by vm_compute|].
  split; [by vm_compute|].
  eexists. split; [vm_compute; reflexivity|].
  split; [by vm_compute|]. split; [by vm_compute|]. split; [by vm_compute|].
  split; [by vm_compute|].
  apply (bool_decide_eq_false_1 (wf _)). by vm_compute.
Qed.

(** ** A run through the three kinds of primitive

    Wiring [A.Q] to [B.D] creates the net [A$conn$Q]; renaming [B.D] to
    [D2] and moving [D2] to a new port [D3] of [C] each rewrite the one user
    entry in place.  The moved port stays on [B], unconnected. *)
Example wire_rename_move :
  ∃ ctx1 ctx2 ctx3,
    connect_ports unwired A "Q" B "D" = Done ctx1 ∧
    net_mem ctx1 !! N =
      Some (mkNetInfo "A$conn$Q" (mkPortRef (Some A) "Q") [mkPortRef (Some B) "D"]) ∧
    nets ctx1 !! "A$conn$Q" = Some (Some N) ∧
    rename_port ctx1 B "D" "D2" = Done ctx2 ∧
    net_mem ctx2 !! N =
      Some (mkNetInfo "A$conn$Q" (mkPortRef (Some A) "Q") [mkPortRef (Some B) "D2"]) ∧
    replace_port ctx2 B "D2" C "D3" = Done ctx3 ∧
    net_mem ctx3 !! N =
      Some (mkNetInfo "A$conn$Q" (mkPortRef (Some A) "Q") [mkPortRef (Some C) "D3"]) ∧
    port_of ctx3 C "D3" = Some (mkPortInfo "D3" (Some N) PORT_IN) ∧
    port_of ctx3 B "D2" = Some (mkPortInfo "D2" None PORT_IN) ∧
    wf ctx3.
Proof.
  do 3 eexists.
  split; [vm_compute; reflexivity|]. split; [by vm_compute|]. split; [by vm_compute|].
  split; [vm_compute; reflexivity|]. split; [by vm_compute|].
  split; [vm_compute; reflexivity|]. split; [by vm_compute|].
  split; [by vm_compute|]. split; [by vm_compute|].
  apply (bool_decide_unpack _). by vm_compute.
Qed.

(** * Further properties of the primitives *)

(** ** The invariants under connect and disconnect *)

(** What a returning call of [connect_port] on a net has met and done. *)
Lemma connect_port_Done ctx a c p ctx' :
  connect_port ctx (Some a) c p = Done ctx' →
  ∃ pi ni,
    port_of ctx c p = Some pi ∧ net pi = None ∧
    net_mem ctx !! a = Some ni ∧
    (type pi = PORT_OUT → cell (driver ni) = None) ∧
    ctx' = write_net a (attached c p (type pi))
             (write_port c p (set_net (Some a)) ctx).
Proof.
  intros Hrun.
  destruct (cell_mem ctx !! c) as [ci|] eqn:Hc; cycle 1.
  { unfold connect_port, ports_at, deref_cell in Hrun. by rewrite Hc in Hrun. }
  destruct (net_mem ctx !! a) as [ni|] eqn:Hn; cycle 1.
  { unfold connect_port, ports_at, deref_cell, deref_net in Hrun.
    rewrite Hc in Hrun. simpl in Hrun.
    destruct (ports ci !! p) as [pi|]; [|done]. simpl in Hrun.
    destruct (net pi); [done|]. simpl in Hrun. rewrite Hn in Hrun.
    by destruct (type pi). }
  generalize (connect_port_cases ctx a c p ci ni Hc Hn).
  destruct (ports ci !! p) as [pi|] eqn:Hp;
    [|intros H; rewrite H in Hrun; discriminate].
  exists pi, ni. split; [by eapply port_of_Some|].
  revert H. destruct (net pi) eqn:Hnet;
    [destruct (type pi); intros H; rewrite H in Hrun; discriminate|].
  destruct (type pi) eqn:Hty.
  - intros H. rewrite H in Hrun. by injection Hrun as <-.
  - destruct (cell (driver ni));
      [intros H; rewrite H in Hrun; discriminate|].
    intros H. rewrite H in Hrun. by injection Hrun as <-.
  - intros H. rewrite H in Hrun. by injection Hrun as <-.
Qed.

(** Attaching an unconnected port to a net, as driver of a net without
    driver when it is OUT and as one more user otherwise, keeps a graph
    well-formed. *)
Lemma wf_after_attach ctx ctx' a c p pi ni :
  wf ctx →
  port_of ctx c p = Some pi → net pi = None →
  net_mem ctx !! a = Some ni →
  (type pi = PORT_OUT → cell (driver ni) = None) →
  port_of ctx' c p = Some (set_net (Some a) pi) →
  (∀ c' p', ¬ (c = c' ∧ p = p') → port_of ctx' c' p' = port_of ctx c' p') →
  (∀ b, net_mem ctx' !! b =
        if decide (a = b) then Some (attached c p (type pi) ni)
        else net_mem ctx !! b) →
  wf ctx'.
Proof.
  intros [Hu Hd Hp] Hpi Hnet Hn Hdrv E1 E3 E4.
  assert (∀ c' p' pi' b, port_of ctx c' p' = Some pi' → net pi' = Some b →
                         port_of ctx' c' p' = Some pi') as K.
  { intros c' p' pi' b Hpi' Hb. rewrite E3; [done|].
    intros [<- <-]. congruence. }
  split.
  - intros b nb r Hb Hr. rewrite E4 in Hb.
    destruct (decide (a = b)) as [<-|Hab].
    + injection Hb as <-.
      assert (r ∈ users ni ∨ (type pi ≠ PORT_OUT ∧ r = mkPortRef (Some c) p))
        as [Hr0|[Hty ->]].
      { destruct (type pi); simpl in Hr; [|by left|];
          (apply elem_of_app in Hr as [?|Hr'];
            [by left|apply list_elem_of_singleton in Hr' as ->; by right]). }
      * destruct (Hu a ni r Hn Hr0) as (c0 & pi0 & ? & ? & ? & ?).
        exists c0, pi0. split; [done|]. split; [by eapply K|done].
      * exists c, (set_net (Some a) pi). done.
    + destruct (Hu b nb r Hb Hr) as (c0 & pi0 & ? & ? & ? & ?).
      exists c0, pi0. split; [done|]. split; [by eapply K|done].
  - intros b nb Hb. rewrite E4 in Hb.
    destruct (decide (a = b)) as [<-|Hab].
    + injection Hb as <-.
      destruct (decide (type pi = PORT_OUT)) as [Hty|Hty].
      * right. rewrite Hty. simpl. exists c, (set_net (Some a) pi).
        split; [done|]. split; [done|]. simpl. split; [congruence|done].
      * assert (driver (attached c p (type pi) ni) = driver ni) as ->
          by (by destruct (type pi)).
        destruct (Hd a ni Hn) as [?|(c0 & pi0 & ? & ? & ? & ?)]; [by left|right].
        exists c0, pi0. split; [done|]. split; [by eapply K|done].
    + destruct (Hd b nb Hb) as [?|(c0 & pi0 & ? & ? & ? & ?)]; [by left|right].
      exists c0, pi0. split; [done|]. split; [by eapply K|done].
  - intros c' p' pi' Hpi' b Hb.
    destruct (decide (c = c' ∧ p = p')) as [[<- <-]|Hne].
    + rewrite E1 in Hpi'. injection Hpi' as <-. simpl in Hb. injection Hb as <-.
      exists (attached c p (type pi) ni). rewrite E4, decide_True by done.
      split; [done|]. simpl.
      destruct (type pi); simpl; [|done|]; apply elem_of_app; right;
        by apply list_elem_of_singleton.
    + rewrite E3 in Hpi' by done.
      destruct (Hp c' p' pi' Hpi' b Hb) as (nb & Hnb & Hl).
      rewrite E4. destruct (decide (a = b)) as [<-|Hab]; [|by exists nb].
      rewrite Hn in Hnb. injection Hnb as <-.
      eexists. split; [done|].
      destruct (decide (type pi' = PORT_OUT)) as [Hty'|Hty'].
      * destruct (type pi) eqn:Hty; simpl; [done| |done].
        rewrite Hl in Hdrv. by specialize (Hdrv eq_refl).
      * destruct (type pi); simpl; [|done|]; apply elem_of_app; by left.
Qed.

Lemma connect_port_wf_step ctx n c p ctx' :
  wf ctx → connect_port ctx n c p = Done ctx' → wf ctx'.
Proof.
  intros Hwf Hrun. destruct n as [a|]; [|by injection Hrun as <-].
  apply connect_port_Done in Hrun as (pi & ni & Hpi & Hnet & Hn & Hdrv & ->).
  eapply (wf_after_attach ctx _ a c p pi ni); try done.
  - by rewrite port_of_write_net, port_of_write_port, decide_True, Hpi.
  - intros c' p' Hne. by rewrite port_of_write_net, port_of_write_port, decide_False.
  - intros b. rewrite net_mem_write_net, net_mem_write_port.
    destruct (decide (a = b)); [by rewrite Hn|done].
Qed.

(** X1.  Every graph [connect_port] returns from a well-formed graph is
    well-formed. *)
Theorem connect_port_keeps_wf ctx n c p ctx' :
  wf ctx → connect_port ctx n c p = Done ctx' → wf ctx'.
Proof. apply connect_port_wf_step. Qed.

Lemma connect_port_keeps_wf_witness :
  ∃ ctx', connect_port orphan_net (Some N) A "Q" = Done ctx' ∧ wf ctx'.
Proof.
  eexists. split; [vm_compute; reflexivity|].
  refine (connect_port_keeps_wf orphan_net (Some N) A "Q" _ _ _).
  - apply (bool_decide_unpack _). by vm_compute.
  - vm_compute. reflexivity.
Defined.

(** Detaching a connected port from its net keeps a graph well-formed. *)
Lemma wf_after_detach ctx ctx' a c p pi ni :
  wf ctx →
  port_of ctx c p = Some pi → net pi = Some a →
  net_mem ctx !! a = Some ni →
  port_of ctx' c p = Some (set_net None pi) →
  net_mem ctx' !! a = Some (detached c p ni) →
  (∀ c' p', ¬ (c = c' ∧ p = p') → port_of ctx' c' p' = port_of ctx c' p') →
  (∀ b, a ≠ b → net_mem ctx' !! b = net_mem ctx !! b) →
  wf ctx'.
Proof.
  intros [Hu Hd Hp] Hpi Hnet Hn E1 E4 E3 E5.
  split.
  - intros b nb r Hb Hr. destruct (decide (a = b)) as [<-|Hab].
    + rewrite E4 in Hb. injection Hb as <-. simpl in Hr.
      apply list_elem_of_filter in Hr as [Href Hr].
      destruct (Hu a ni r Hn Hr) as (c0 & pi0 & Hc0 & ? & ? & ?).
      exists c0, pi0. split; [done|]. split; [|done].
      rewrite E3; [done|]. intros [? ?]; subst. by apply Href.
    + rewrite E5 in Hb by done.
      destruct (Hu b nb r Hb Hr) as (c0 & pi0 & Hc0 & ? & ? & ?).
      exists c0, pi0. split; [done|]. split; [|done].
      rewrite E3; [done|]. intros [? ?]; subst. congruence.
  - intros b nb Hb. destruct (decide (a = b)) as [<-|Hab].
    + rewrite E4 in Hb. injection Hb as <-. simpl.
      case_bool_decide as Href; [by left|].
      destruct (Hd a ni Hn) as [?|(c0 & pi0 & Hc0 & ? & ? & ?)]; [by left|right].
      exists c0, pi0. split; [done|]. split; [|done].
      rewrite E3; [done|]. intros [? ?]; subst. by apply Href.
    + rewrite E5 in Hb by done.
      destruct (Hd b nb Hb) as [?|(c0 & pi0 & Hc0 & ? & ? & ?)]; [by left|right].
      exists c0, pi0. split; [done|]. split; [|done].
      rewrite E3; [done|]. intros [? ?]; subst. congruence.
  - intros c' p' pi' Hpi' b Hb.
    destruct (decide (c = c' ∧ p = p')) as [[<- <-]|Hne].
    { rewrite E1 in Hpi'. by injection Hpi' as <-. }
    rewrite E3 in Hpi' by done.
    destruct (Hp c' p' pi' Hpi' b Hb) as (nb & Hnb & Hl).
    destruct (decide (a = b)) as [<-|Hab]; [|exists nb; by rewrite E5].
    rewrite Hn in Hnb. injection Hnb as <-.
    exists (detached c p ni). split; [done|]. simpl.
    destruct (decide (type pi' = PORT_OUT)).
    + rewrite Hl. rewrite bool_decide_eq_false_2; [done|].
      intros [[= ->] Hq]. simpl in Hq. by destruct Hne.
    + apply list_elem_of_filter. split; [|done].
      intros [[= ->] Hq]. simpl in Hq. by destruct Hne.
Qed.

(** X2.  Every graph [disconnect_port] returns from a well-formed graph is
    well-formed. *)
Theorem disconnect_port_keeps_wf ctx c p ctx' :
  wf ctx → disconnect_port ctx c p = Done ctx' → wf ctx'.
Proof.
  intros Hwf Hrun.
  destruct (cell_mem ctx !! c) as [ci|] eqn:Hc; cycle 1.
  { unfold disconnect_port, deref_cell in Hrun. by rewrite Hc in Hrun. }
  destruct (ports ci !! p) as [pi|] eqn:Hp; cycle 1.
  { rewrite (disconnect_port_absent _ _ _ _ Hc Hp) in Hrun. by injection Hrun as <-. }
  pose proof (port_of_Some _ _ _ _ _ Hc Hp) as Hpo.
  destruct (net pi) as [a|] eqn:Hnet; cycle 1.
  { rewrite (disconnect_port_unconnected _ _ _ _ Hpo Hnet) in Hrun.
    by injection Hrun as <-. }
  destruct (wf_ports _ Hwf _ _ _ Hpo a Hnet) as (ni & Hn & _).
  destruct (disconnect_port_connected _ _ _ _ _ _ Hpo Hnet Hn)
    as (ctx1 & Hrun1 & E1 & E4 & E3 & E5 & _).
  rewrite Hrun1 in Hrun. injection Hrun as <-.
  by eapply (wf_after_detach ctx ctx1 a c p pi ni).
Qed.

Lemma disconnect_port_keeps_wf_witness :
  ∃ ctx', disconnect_port wired A "Q" = Done ctx' ∧ wf ctx'.
Proof.
  eexists. split; [vm_compute; reflexivity|].
  refine (disconnect_port_keeps_wf wired A "Q" _ _ _).
  - apply (bool_decide_unpack _). by vm_compute.
  - vm_compute. reflexivity.
Defined.

(** ** Connect and disconnect undo each other *)

(** A graph is determined by what can be read from it. *)
Lemma ctx_ext ctx ctx' :
  (∀ c, cell_head ctx' c = cell_head ctx c) →
  (∀ c p, port_of ctx' c p = port_of ctx c p) →
  (∀ a, net_mem ctx' !! a = net_mem ctx !! a) →
  cells ctx' = cells ctx → nets ctx' = nets ctx →
  ctx' = ctx.
Proof.
  destruct ctx as [cm nm cs ns], ctx' as [cm' nm' cs' ns']. simpl.
  intros Hhead Hports Hnets -> ->.
  assert (cm' = cm) as ->; [|f_equal; by apply map_eq].
  apply map_eq. intros c. specialize (Hhead c). specialize (Hports c).
  unfold cell_head, port_of in *. simpl in *.
  destruct (cm' !! c) as [[n' t' ps']|], (cm !! c) as [[n t ps]|];
    simpl in *; try done.
  injection Hhead as -> ->. do 2 f_equal. by apply map_eq.
Qed.

Lemma filter_fixed {X} (P : X → Prop) `{∀ x, Decision (P x)} (l : list X) :
  (∀ x, x ∈ l → P x) → filter P l = l.
Proof.
  induction l as [|x l IH]; intros HP; [done|].
  rewrite filter_cons_True by (apply HP; by left).
  f_equal. apply IH. intros y Hy. apply HP. by right.
Qed.

Lemma disconnect_port_heads ctx c p pi a ni ctx' :
  port_of ctx c p = Some pi → net pi = Some a → net_mem ctx !! a = Some ni →
  disconnect_port ctx c p = Done ctx' →
  ∀ c', cell_head ctx' c' = cell_head ctx c'.
Proof.
  intros Hp Hnet Hn Hrun c'. revert Hrun. unfold disconnect_port.
  rewrite (ports_at_port_of _ _ _ _ Hp).
  apply port_of_cell in Hp as (ci & Hc & Hpi).
  rewrite (deref_cell_Some _ _ _ Hc). simpl.
  rewrite (count_Some _ _ _ Hpi). simpl. rewrite Hnet.
  rewrite (deref_net_Some _ _ _ Hn). simpl.
  unfold deref_net. rewrite net_mem_write_net, decide_True, Hn by done. simpl.
  intros [= <-]. rewrite cell_head_write_port. by destruct (bool_decide _).
Qed.

(** In a well-formed graph a net does not mention an unconnected port. *)
Lemma detached_attached ctx a c p pi ni :
  wf ctx →
  port_of ctx c p = Some pi → net pi = None →
  net_mem ctx !! a = Some ni →
  detached c p (attached c p (type pi) ni) =
  if decide (type pi = PORT_OUT) then set_driver (mkPortRef None p) ni else ni.
Proof.
  intros [Hu Hd _] Hpi Hnet Hn.
  assert (∀ r, r ∈ users ni → ¬ refers c p r) as Husers.
  { intros r Hr [Hc Hp]. destruct (Hu a ni r Hn Hr) as (c0 & pi0 & ? & ? & _ & ?).
    congruence. }
  assert (¬ refers c p (driver ni)) as Hdriver.
  { intros [Hc Hp]. destruct (Hd a ni Hn) as [?|(c0 & pi0 & ? & ? & _ & ?)];
      congruence. }
  unfold detached. destruct (decide (type pi = PORT_OUT)) as [->|Hty]; simpl.
  - rewrite bool_decide_eq_true_2 by done. simpl.
    by rewrite filter_fixed.
  - assert (attached c p (type pi) ni =
            set_users (users ni ++ [mkPortRef (Some c) p]) ni) as ->
      by (by destruct (type pi)).
    simpl. rewrite bool_decide_eq_false_2 by done.
    rewrite filter_app, filter_fixed by done.
    rewrite filter_cons_False, filter_nil by (by intros Hno; apply Hno).
    rewrite app_nil_r. by destruct ni.
Qed.

Lemma connect_then_disconnect ctx a c p pi ni :
  wf ctx →
  port_of ctx c p = Some pi → net pi = None →
  net_mem ctx !! a = Some ni →
  (type pi = PORT_OUT → cell (driver ni) = None) →
  ∃ ctx1,
    connect_port ctx (Some a) c p = Done ctx1 ∧
    disconnect_port ctx1 c p =
    Done (if decide (type pi = PORT_OUT)
          then write_net a (set_driver (mkPortRef None p)) ctx
          else ctx).
Proof.
  intros Hwf Hpi Hnet Hn Hdrv.
  rewrite (connect_port_attach _ _ _ _ _ _ Hpi Hnet Hn Hdrv).
  eexists. split; [done|].
  set (ctx1 := write_net a (attached c p (type pi))
                 (write_port c p (set_net (Some a)) ctx)).
  assert (port_of ctx1 c p = Some (set_net (Some a) pi)) as Hp1.
  { unfold ctx1. by rewrite port_of_write_net, port_of_write_port, decide_True, Hpi. }
  assert (net_mem ctx1 !! a = Some (attached c p (type pi) ni)) as Hn1.
  { unfold ctx1. by rewrite net_mem_write_net, decide_True, net_mem_write_port, Hn. }
  destruct (disconnect_port_connected _ _ _ _ _ _ Hp1 eq_refl Hn1)
    as (ctx2 & Hrun & E1 & E4 & E3 & E5 & Ec & En).
  pose proof (disconnect_port_heads _ _ _ _ _ _ _ Hp1 eq_refl Hn1 Hrun) as Eh.
  rewrite Hrun. f_equal.
  rewrite (detached_attached ctx a c p pi ni) in E4 by done.
  set (goal := if decide (type pi = PORT_OUT)
               then write_net a (set_driver (mkPortRef None p)) ctx else ctx).
  assert (∀ c' p', port_of goal c' p' = port_of ctx c' p') as Gp
    by (intros; unfold goal; by destruct (decide _)).
  assert (∀ c', cell_head goal c' = cell_head ctx c') as Gh
    by (intros; unfold goal; by destruct (decide _)).
  apply ctx_ext.
  - intros c'. rewrite Eh, Gh.
    change (cell_head (write_port c p (set_net (Some a)) ctx) c' = cell_head ctx c').
    by rewrite cell_head_write_port.
  - intros c' p'. rewrite Gp.
    destruct (decide (c = c' ∧ p = p')) as [[<- <-]|Hne].
    + rewrite E1, Hpi. f_equal. destruct pi; simpl in *. by subst.
    + rewrite E3 by done. unfold ctx1.
      by rewrite port_of_write_net, port_of_write_port, decide_False.
  - intros b. unfold goal. destruct (decide (a = b)) as [<-|Hab].
    + rewrite E4. destruct (decide _); [|done].
      by rewrite net_mem_write_net, decide_True, Hn.
    + rewrite E5 by done. unfold ctx1.
      rewrite net_mem_write_net, decide_False, net_mem_write_port by done.
      destruct (decide _); [|done]. by rewrite net_mem_write_net, decide_False.
  - rewrite Ec. unfold goal. by destruct (decide _).
  - rewrite En. unfold goal. by destruct (decide _).
Qed.

(** X3.  On a well-formed graph, connecting an unconnected port to a net and
    disconnecting it again gives the graph back; for an OUT port the empty
    driver reference of the net keeps the port's name. *)
Theorem connect_disconnect_restores ctx a c p pi ni :
  wf ctx →
  port_of ctx c p = Some pi → net pi = None →
  net_mem ctx !! a = Some ni →
  (type pi = PORT_OUT → cell (driver ni) = None) →
  ∃ ctx1,
    connect_port ctx (Some a) c p = Done ctx1 ∧
    disconnect_port ctx1 c p =
    Done (if decide (type pi = PORT_OUT)
          then write_net a (set_driver (mkPortRef None p)) ctx
          else ctx).
Proof. apply connect_then_disconnect. Qed.

Lemma connect_disconnect_restores_witness :
  ∃ ctx1,
    connect_port orphan_net (Some N) B "D" = Done ctx1 ∧
    disconnect_port ctx1 B "D" = Done orphan_net.
Proof.
  apply (connect_disconnect_restores orphan_net N B "D"
           (mkPortInfo "D" None PORT_IN) (mkNetInfo "n" (mkPortRef None "") []));
    [apply (bool_decide_unpack _); by vm_compute|reflexivity..|discriminate].
Defined.

(** ** copy-port *)

Lemma port_of_declared c p t ctx c' p' :
  port_of (declared c p t ctx) c' p' =
  if decide (c = c' ∧ p = p')
  then cell_mem ctx !! c ≫= λ ci,
         Some (mkPortInfo p (net (default default_port (ports ci !! p))) t)
  else port_of ctx c' p'.
Proof.
  unfold declared.
  destruct (decide (c = c' ∧ p = p')) as [[<- <-]|Hne].
  - rewrite port_of_write_port, decide_True, port_of_ports_index, decide_True
      by done.
    destruct (cell_mem ctx !! c) as [ci|] eqn:Hc.
    + assert (∃ x, port_of (write_port c p (set_name p) (ports_index c p ctx)) c p
                   = Some x ∧ name x = p ∧
                   net x = net (default default_port (ports ci !! p)))
        as (x & Hx & Hname & Hnet).
      { rewrite port_of_write_port, decide_True, port_of_ports_index,
          decide_True, Hc by done.
        simpl. eexists. split; [done|]. done. }
      apply port_of_cell in Hx as (ci1 & -> & Hx1). simpl. rewrite Hx1. simpl.
      rewrite <- Hnet. destruct x; simpl in *. by subst.
    + assert (cell_mem (write_port c p (set_name p) (ports_index c p ctx)) !! c
              = None) as ->; [|done].
      rewrite cell_mem_write_port, decide_True by done.
      unfold ports_index. simpl. by rewrite lookup_alter_eq, Hc.
  - by rewrite port_of_write_port, decide_False, port_of_ports_index,
      decide_False, port_of_write_port, decide_False, port_of_ports_index,
      decide_False.
Qed.

Lemma cell_head_declared c p t ctx c' :
  cell_head (declared c p t ctx) c' = cell_head ctx c'.
Proof.
  unfold declared.
  by rewrite cell_head_write_port, cell_head_ports_index, cell_head_write_port,
    cell_head_ports_index.
Qed.

(** [copy_port] declares the port and connects it to the net of the
    source. *)
Lemma copy_port_declared ctx oc on nc nn oci old :
  cell_mem ctx !! oc = Some oci →
  ports oci !! on = Some old →
  is_Some (cell_mem ctx !! nc) →
  copy_port ctx oc on nc nn =
  connect_port (declared nc nn (type old) ctx) (net old) nc nn.
Proof.
  intros Hoc Hold [nci Hnc]. unfold copy_port.
  rewrite (deref_cell_Some _ _ _ Hoc). cbn [mbind outcome_bind].
  rewrite (count_Some _ _ _ Hold), (deref_cell_Some _ _ _ Hnc).
  cbn [mbind outcome_bind negb].
  set (ctx1 := write_port nc nn (set_name nn) (ports_index nc nn ctx)).
  assert (∃ old1, port_of ctx1 oc on = Some old1 ∧ type old1 = type old ∧
                  net old1 = net old) as (old1 & Hold1 & Hty1 & Hnet1).
  { unfold ctx1. destruct (decide (nc = oc ∧ nn = on)) as [[-> ->]|Hne].
    - rewrite port_of_write_port, decide_True, port_of_ports_index,
        decide_True, Hoc by done.
      simpl. rewrite Hold. simpl. by eexists.
    - rewrite port_of_write_port, decide_False, port_of_ports_index,
        decide_False by done.
      exists old. split; [by eapply port_of_Some|done]. }
  rewrite (ports_at_port_of _ _ _ _ Hold1). cbn [mbind outcome_bind].
  rewrite Hty1. unfold ctx1. fold (declared nc nn (type old) ctx).
  assert (∃ old2, port_of (declared nc nn (type old) ctx) oc on = Some old2 ∧
                  net old2 = net old) as (old2 & Hold2 & Hnet2).
  { rewrite port_of_declared. destruct (decide (nc = oc ∧ nn = on)) as [[-> ->]|Hne].
    - rewrite Hoc. simpl. rewrite Hold. simpl. by eexists.
    - exists old. split; [by eapply port_of_Some|done]. }
  rewrite (ports_at_port_of _ _ _ _ Hold2). cbn [mbind outcome_bind].
  by rewrite Hnet2.
Qed.

(** A change to one port that is unconnected before and after keeps a
    graph well-formed. *)
Lemma wf_change_unconnected ctx ctx' c p :
  wf ctx →
  (∀ c' p', ¬ (c = c' ∧ p = p') → port_of ctx' c' p' = port_of ctx c' p') →
  (∀ x, port_of ctx c p = Some x → net x = None) →
  (∀ x, port_of ctx' c p = Some x → net x = None) →
  net_mem ctx' = net_mem ctx →
  wf ctx'.
Proof.
  intros [Hu Hd Hp] E3 Hbefore Hafter Hnets.
  assert (∀ c' p' pi' b, port_of ctx c' p' = Some pi' → net pi' = Some b →
                         port_of ctx' c' p' = Some pi') as K.
  { intros c' p' pi' b Hpi' Hb. rewrite E3; [done|].
    intros [<- <-]. apply Hbefore in Hpi'. congruence. }
  split.
  - intros b nb r Hb Hr. rewrite Hnets in Hb.
    destruct (Hu b nb r Hb Hr) as (c0 & pi0 & ? & ? & ? & ?).
    exists c0, pi0. split; [done|]. split; [by eapply K|done].
  - intros b nb Hb. rewrite Hnets in Hb.
    destruct (Hd b nb Hb) as [?|(c0 & pi0 & ? & ? & ? & ?)]; [by left|right].
    exists c0, pi0. split; [done|]. split; [by eapply K|done].
  - intros c' p' pi' Hpi' b Hb.
    destruct (decide (c = c' ∧ p = p')) as [[<- <-]|Hne].
    + apply Hafter in Hpi'. congruence.
    + rewrite E3 in Hpi' by done. rewrite Hnets. by eapply Hp.
Qed.

Lemma wf_declared ctx c p t :
  wf ctx →
  (∀ tgt, port_of ctx c p = Some tgt → net tgt = None) →
  wf (declared c p t ctx).
Proof.
  intros Hwf Hun. apply (wf_change_unconnected ctx _ c p); [done| |done| |done].
  - intros c' p' Hne. by rewrite port_of_declared, decide_False.
  - intros x. rewrite port_of_declared, decide_True by done.
    destruct (cell_mem ctx !! c) as [ci|] eqn:Hc; [|done]. simpl.
    intros [= <-]. simpl.
    destruct (ports ci !! p) as [tgt|] eqn:Hp; [|done]. simpl.
    apply Hun. by eapply port_of_Some.
Qed.

Lemma copy_port_bad_old_cell ctx oc on nc nn :
  cell_mem ctx !! oc = None → copy_port ctx oc on nc nn = Undef.
Proof. intros Hoc. unfold copy_port, deref_cell. by rewrite Hoc. Qed.

Lemma copy_port_absent ctx oc on nc nn oci :
  cell_mem ctx !! oc = Some oci → ports oci !! on = None →
  copy_port ctx oc on nc nn = Done ctx.
Proof.
  intros Hoc Hold. unfold copy_port.
  rewrite (deref_cell_Some _ _ _ Hoc). cbn [mbind outcome_bind].
  by rewrite (count_None _ _ Hold).
Qed.

Lemma copy_port_bad_new_cell ctx oc on nc nn oci old :
  cell_mem ctx !! oc = Some oci → ports oci !! on = Some old →
  cell_mem ctx !! nc = None → copy_port ctx oc on nc nn = Undef.
Proof.
  intros Hoc Hold Hnc. unfold copy_port.
  rewrite (deref_cell_Some _ _ _ Hoc). cbn [mbind outcome_bind].
  rewrite (count_Some _ _ _ Hold). cbn [negb].
  unfold deref_cell. by rewrite Hnc.
Qed.

Lemma copy_port_wf_step ctx oc on nc nn ctx' :
  wf ctx →
  (∀ tgt, port_of ctx nc nn = Some tgt → net tgt = None) →
  copy_port ctx oc on nc nn = Done ctx' →
  wf ctx'.
Proof.
  intros Hwf Hun Hrun.
  destruct (cell_mem ctx !! oc) as [oci|] eqn:Hoc; cycle 1.
  { by rewrite (copy_port_bad_old_cell _ _ _ _ _ Hoc) in Hrun. }
  destruct (ports oci !! on) as [old|] eqn:Hold; cycle 1.
  { rewrite (copy_port_absent _ _ _ _ _ _ Hoc Hold) in Hrun. by injection Hrun as <-. }
  destruct (cell_mem ctx !! nc) as [nci|] eqn:Hnc; cycle 1.
  { by rewrite (copy_port_bad_new_cell _ _ _ _ _ _ _ Hoc Hold Hnc) in Hrun. }
  rewrite (copy_port_declared _ _ _ _ _ _ _ Hoc Hold) in Hrun by (by eexists).
  eapply connect_port_wf_step; [|done]. by apply wf_declared.
Qed.

(** X17.  When the target port does not exist yet or is unconnected, every graph
    [copy_port] returns from a well-formed graph is well-formed. *)
Theorem copy_port_keeps_wf ctx old_cell old_name new_cell new_name ctx' :
  wf ctx →
  (∀ tgt, port_of ctx new_cell new_name = Some tgt → net tgt = None) →
  copy_port ctx old_cell old_name new_cell new_name = Done ctx' →
  wf ctx'.
Proof. apply copy_port_wf_step. Qed.

Lemma copy_port_keeps_wf_witness :
  ∃ ctx', copy_port wired B "D" C "D2" = Done ctx' ∧ wf ctx'.
Proof.
  eexists. split; [vm_compute; reflexivity|].
  refine (copy_port_keeps_wf wired B "D" C "D2" _ _ _ _).
  - apply (bool_decide_unpack _). by vm_compute.
  - intros tgt Htgt. vm_compute in Htgt. discriminate.
  - vm_compute. reflexivity.
Defined.

(** X18.  A copy of a connected IN or INOUT port is one more user of the net, at
    the end of the list; the source keeps its record, and disconnecting the
    copy leaves the graph as it was but for the declaration of the copy. *)
Theorem copy_port_independent ctx old_cell old_name new_cell new_name old a :
  wf ctx →
  port_of ctx old_cell old_name = Some old →
  net old = Some a → type old ≠ PORT_OUT →
  is_Some (cell_mem ctx !! new_cell) →
  (∀ tgt, port_of ctx new_cell new_name = Some tgt → net tgt = None) →
  ∃ ctx1 ni,
    copy_port ctx old_cell old_name new_cell new_name = Done ctx1 ∧
    net_mem ctx !! a = Some ni ∧
    net_mem ctx1 !! a =
      Some (set_users (users ni ++ [mkPortRef (Some new_cell) new_name]) ni) ∧
    port_of ctx1 old_cell old_name = Some old ∧
    port_of ctx1 new_cell new_name = Some (mkPortInfo new_name (Some a) (type old)) ∧
    disconnect_port ctx1 new_cell new_name =
      Done (declared new_cell new_name (type old) ctx).
Proof.
  intros Hwf Hold Hnet Hty [nci Hnc] Hun.
  pose proof Hold as (oci & Hoc & Hop)%port_of_cell.
  destruct (wf_ports _ Hwf _ _ _ Hold a Hnet) as (ni & Hn & _).
  rewrite (copy_port_declared _ _ _ _ _ _ _ Hoc Hop) by (by eexists).
  rewrite Hnet.
  set (D := declared new_cell new_name (type old) ctx).
  set (pd := mkPortInfo new_name None (type old)).
  assert (port_of D new_cell new_name = Some pd) as Hpd.
  { unfold D. rewrite port_of_declared, decide_True, Hnc by done. simpl.
    unfold pd. do 2 f_equal.
    destruct (ports nci !! new_name) as [tgt|] eqn:Htgt; [|done]. simpl.
    apply Hun. by eapply port_of_Some. }
  assert (¬ (new_cell = old_cell ∧ new_name = old_name)) as Hne.
  { intros [-> ->]. apply Hun in Hold. congruence. }
  assert (wf D) as HwfD by (by apply wf_declared).
  destruct (connect_then_disconnect D a new_cell new_name pd ni HwfD Hpd eq_refl Hn)
    as (ctx1 & Hrun & Hback); [done|].
  rewrite decide_False in Hback by done.
  rewrite (connect_port_attach D a new_cell new_name pd ni) in Hrun by done.
  injection Hrun as <-.
  eexists _, ni. split; [apply (connect_port_attach D a new_cell new_name pd ni);
                         done|].
  split; [done|]. split; [|split; [|split; [|done]]].
  - rewrite net_mem_write_net, decide_True by done.
    change (net_mem (write_port new_cell new_name (set_net (Some a)) D))
      with (net_mem ctx).
    rewrite Hn. simpl. by destruct (type old).
  - rewrite port_of_write_net, port_of_write_port, decide_False by done.
    unfold D. by rewrite port_of_declared, decide_False.
  - by rewrite port_of_write_net, port_of_write_port, decide_True, Hpd.
Qed.

Lemma copy_port_independent_witness :
  ∃ ctx1 ni,
    copy_port wired B "D" C "D2" = Done ctx1 ∧
    net_mem wired !! N = Some ni ∧
    net_mem ctx1 !! N = Some (set_users (users ni ++ [mkPortRef (Some C) "D2"]) ni) ∧
    port_of ctx1 B "D" = Some (mkPortInfo "D" (Some N) PORT_IN) ∧
    port_of ctx1 C "D2" = Some (mkPortInfo "D2" (Some N) PORT_IN) ∧
    disconnect_port ctx1 C "D2" = Done (declared C "D2" PORT_IN wired).
Proof.
  apply (copy_port_independent wired B "D" C "D2" (mkPortInfo "D" (Some N) PORT_IN) N).
  - apply (bool_decide_unpack _). by vm_compute.
  - reflexivity.
  - reflexivity.
  - discriminate.
  - eexists. reflexivity.
  - intros tgt Htgt. vm_compute in Htgt. discriminate.
Defined.

(** X19.  [copy_port] from an unconnected source onto an existing target
    returns, gives the target the direction of the source and leaves it on
    its net.  When the graph was well-formed, the target is connected and
    exactly one of the two directions is OUT, the graph it returns is not
    well-formed. *)
Theorem copy_port_retypes ctx old_cell old_name new_cell new_name old tgt :
  port_of ctx old_cell old_name = Some old → net old = None →
  port_of ctx new_cell new_name = Some tgt →
  ∃ ctx',
    copy_port ctx old_cell old_name new_cell new_name = Done ctx' ∧
    port_of ctx' new_cell new_name = Some (mkPortInfo new_name (net tgt) (type old)) ∧
    (∀ c p, ¬ (new_cell = c ∧ new_name = p) → port_of ctx' c p = port_of ctx c p) ∧
    net_mem ctx' = net_mem ctx ∧
    (wf ctx → is_Some (net tgt) →
     ¬ (type tgt = PORT_OUT ↔ type old = PORT_OUT) →
     ¬ wf ctx').
Proof.
  intros Hold Hnet Htgt.
  pose proof Hold as (oci & Hoc & Hop)%port_of_cell.
  pose proof Htgt as (nci & Hnc & Hnp)%port_of_cell.
  rewrite (copy_port_declared _ _ _ _ _ _ _ Hoc Hop) by (by eexists).
  rewrite Hnet. simpl.
  set (D := declared new_cell new_name (type old) ctx).
  assert (port_of D new_cell new_name =
          Some (mkPortInfo new_name (net tgt) (type old))) as Hpd.
  { unfold D. rewrite port_of_declared, decide_True, Hnc by done. simpl.
    by rewrite Hnp. }
  exists D. split; [done|]. split; [done|]. split.
  { intros c p Hcp. unfold D. by rewrite port_of_declared, decide_False. }
  split; [done|]. intros Hwf [m Hm] Hdiff HwfD.
  destruct (wf_ports _ Hwf _ _ _ Htgt m Hm) as (nm & Hnm & Hl).
  destruct (wf_ports _ HwfD _ _ _ Hpd m Hm) as (nm' & Hnm' & Hl').
  change (net_mem D) with (net_mem ctx) in Hnm'. rewrite Hnm in Hnm'.
  injection Hnm' as <-. simpl in Hl'.
  destruct (decide (type tgt = PORT_OUT)) as [Hto|Hto];
    destruct (decide (type old = PORT_OUT)) as [Hoo|Hoo]; try tauto.
  - destruct (wf_users _ Hwf m nm _ Hnm Hl') as (c0 & pi0 & [= <-] & Hpi0 & ? & _).
    simpl in Hpi0. congruence.
  - destruct (wf_users _ HwfD m nm _ Hnm Hl) as (c0 & pi0 & [= <-] & Hpi0 & Hno & _).
    simpl in Hpi0. rewrite Hpd in Hpi0. injection Hpi0 as <-. by simpl in Hno.
Qed.

Lemma copy_port_retypes_witness :
  ∃ ctx',
    copy_port name_taken B "D" C "O" = Done ctx' ∧
    port_of ctx' C "O" = Some (mkPortInfo "O" (Some N) PORT_IN) ∧
    ¬ wf ctx'.
Proof.
  destruct (copy_port_retypes name_taken B "D" C "O"
              (mkPortInfo "D" None PORT_IN) (mkPortInfo "O" (Some N) PORT_OUT))
    as (ctx' & Hrun & Hport & _ & _ & Hbad).
  - reflexivity.
  - reflexivity.
  - reflexivity.
  - exists ctx'. split; [done|]. split; [done|]. apply Hbad.
    + apply (bool_decide_unpack _). by vm_compute.
    + by eexists.
    + intros [H _]. by specialize (H eq_refl).
Defined.

(** ** rename-net, further *)

(** The graph [rename_net] returns for a new name that is free, wherever
    the net is stored. *)
Lemma rename_net_run ctx n ni new_name :
  net_mem ctx !! n = Some ni →
  nets ctx !! new_name = None →
  rename_net ctx (Some n) new_name =
  Done (mkContext (cell_mem ctx)
          (<[n := set_net_name new_name ni]> (net_mem ctx))
          (cells ctx)
          (if decide (net_name ni = new_name) then nets ctx
           else <[new_name := default None (nets ctx !! net_name ni)]>
                  (delete (net_name ni) (nets ctx)))).
Proof.
  intros Hn Hnew.
  assert (∀ m : gmap string (option positive), m !! new_name = None →
            count m new_name = false) as Hc0 by (intros; by apply count_None).
  assert (∀ (m : gmap string (option positive)) k,
            count (<[k := None]> m) k = true) as Hc1.
  { intros m k. apply (count_Some _ _ None). by rewrite lookup_insert_eq. }
  unfold rename_net, deref_net, nets_erase, nets_index, write_net, upd_net_mem,
    upd_nets.
  rewrite (Hc0 _ Hnew). simpl. rewrite Hn. simpl.
  destruct (decide (net_name ni = new_name)) as [Heq|Hne].
  - rewrite Heq, (Hc0 _ Hnew), Hc1. map_lookups. simpl. rewrite Hn. simpl.
    map_lookups. simpl. rewrite ?Hn. simpl.
    rewrite (alter_lookup_insert _ _ _ _ Hn). do 2 f_equal.
    rewrite !insert_insert_eq, delete_insert_eq. by apply delete_id.
  - destruct (nets ctx !! net_name ni) as [u|] eqn:Hslot.
    + rewrite (count_Some _ _ _ Hslot), (Hc0 _ Hnew).
      map_lookups. rewrite Hslot. simpl. rewrite Hn. simpl.
      map_lookups. simpl. rewrite ?Hn. simpl.
    rewrite (alter_lookup_insert _ _ _ _ Hn). do 2 f_equal.
      apply map_eq. intros k.
      destruct (decide (k = new_name)) as [Hk1|Hk1];
        destruct (decide (k = net_name ni)) as [Hk2|Hk2]; subst;
        by map_lookups.
    + rewrite (count_None _ _ Hslot).
      rewrite (Hc0 (<[net_name ni := None]> (nets ctx)))
        by (by rewrite lookup_insert_ne).
      map_lookups. simpl. rewrite Hn. simpl.
      map_lookups. simpl. rewrite ?Hn. simpl.
    rewrite (alter_lookup_insert _ _ _ _ Hn). do 2 f_equal.
      apply map_eq. intros k.
      destruct (decide (k = new_name)) as [Hk1|Hk1];
        destruct (decide (k = net_name ni)) as [Hk2|Hk2]; subst;
        by map_lookups.
Qed.

Lemma rename_net_Done ctx n new_name ctx' :
  rename_net ctx (Some n) new_name = Done ctx' →
  ∃ ni, net_mem ctx !! n = Some ni ∧ nets ctx !! new_name = None ∧
        rename_net ctx (Some n) new_name =
        Done (mkContext (cell_mem ctx)
                (<[n := set_net_name new_name ni]> (net_mem ctx))
                (cells ctx)
                (if decide (net_name ni = new_name) then nets ctx
                 else <[new_name := default None (nets ctx !! net_name ni)]>
                        (delete (net_name ni) (nets ctx)))).
Proof.
  intros Hrun.
  destruct (nets ctx !! new_name) as [u|] eqn:Hnew.
  { unfold rename_net in Hrun. by rewrite (count_Some _ _ _ Hnew) in Hrun. }
  destruct (net_mem ctx !! n) as [ni|] eqn:Hn; cycle 1.
  { unfold rename_net, deref_net in Hrun.
    rewrite (count_None _ _ Hnew) in Hrun. simpl in Hrun. by rewrite Hn in Hrun. }
  exists ni. split; [done|]. split; [done|]. by apply rename_net_run.
Qed.

(** The invariants read a net only through its driver and its users. *)
Lemma wf_same_links ctx ctx' :
  (∀ c p, port_of ctx' c p = port_of ctx c p) →
  (∀ a, (λ ni, (driver ni, users ni)) <$> net_mem ctx' !! a =
        (λ ni, (driver ni, users ni)) <$> net_mem ctx !! a) →
  wf ctx → wf ctx'.
Proof.
  intros Hports Hlinks [Hu Hd Hp].
  assert (∀ a ni', net_mem ctx' !! a = Some ni' →
            ∃ ni, net_mem ctx !! a = Some ni ∧ driver ni' = driver ni ∧
                  users ni' = users ni) as Hback.
  { intros a ni' Ha. specialize (Hlinks a). rewrite Ha in Hlinks.
    destruct (net_mem ctx !! a) as [ni|]; [|done].
    injection Hlinks as Hdr Hus. by exists ni. }
  split.
  - intros a ni' r Ha Hr. destruct (Hback a ni' Ha) as (ni & Hni & _ & Husers).
    rewrite Husers in Hr.
    destruct (Hu a ni r Hni Hr) as (c & pi & ? & ? & ? & ?).
    exists c, pi. by rewrite Hports.
  - intros a ni' Ha. destruct (Hback a ni' Ha) as (ni & Hni & -> & _).
    destruct (Hd a ni Hni) as [?|(c & pi & ? & ? & ? & ?)]; [by left|right].
    exists c, pi. by rewrite Hports.
  - intros c p pi Hpi a Hnet. rewrite Hports in Hpi.
    destruct (Hp c p pi Hpi a Hnet) as (ni & Hni & Hl).
    specialize (Hlinks a). rewrite Hni in Hlinks.
    destruct (net_mem ctx' !! a) as [ni'|]; [|done].
    injection Hlinks as Hdr Hus. exists ni'. split; [done|].
    by rewrite Hdr, Hus.
Qed.

(** X10.  [rename_net] deletes no net and creates none, and changes no cell, no
    driver and no user list; the graph it returns from a well-formed graph
    is well-formed. *)
Theorem rename_net_keeps_links ctx n new_name ctx' :
  rename_net ctx n new_name = Done ctx' →
  cell_mem ctx' = cell_mem ctx ∧
  cells ctx' = cells ctx ∧
  (∀ a, (λ ni, (driver ni, users ni)) <$> net_mem ctx' !! a =
        (λ ni, (driver ni, users ni)) <$> net_mem ctx !! a) ∧
  (wf ctx → wf ctx').
Proof.
  intros Hrun. destruct n as [n|]; cycle 1.
  { injection Hrun as <-. done. }
  destruct (rename_net_Done _ _ _ _ Hrun) as (ni & Hn & _ & Hrun').
  rewrite Hrun' in Hrun. injection Hrun as <-. simpl.
  assert (∀ a, (λ ni0, (driver ni0, users ni0)) <$>
                 <[n := set_net_name new_name ni]> (net_mem ctx) !! a =
               (λ ni0, (driver ni0, users ni0)) <$> net_mem ctx !! a) as Hlinks.
  { intros a. destruct (decide (n = a)) as [<-|Hne].
    - by rewrite lookup_insert_eq, Hn.
    - by rewrite lookup_insert_ne. }
  split; [done|]. split; [done|]. split; [done|].
  by apply wf_same_links.
Qed.

Lemma rename_net_keeps_links_witness :
  ∃ ctx', rename_net wired (Some N) "n2" = Done ctx' ∧ wf ctx'.
Proof.
  eexists. split; [vm_compute; reflexivity|].
  refine (proj2 (proj2 (proj2
            (rename_net_keeps_links wired (Some N) "n2" _ _))) _).
  - vm_compute. reflexivity.
  - apply (bool_decide_unpack _). by vm_compute.
Defined.

(** X11.  Renaming a net that the store holds under its name to a free name, and
    then back, gives the graph back. *)
Theorem rename_net_round_trip ctx n ni new_name :
  net_mem ctx !! n = Some ni →
  nets ctx !! net_name ni = Some (Some n) →
  nets ctx !! new_name = None →
  ∃ ctx1,
    rename_net ctx (Some n) new_name = Done ctx1 ∧
    rename_net ctx1 (Some n) (net_name ni) = Done ctx.
Proof.
  intros Hn Hslot Hnew.
  assert (net_name ni ≠ new_name) as Hne by congruence.
  rewrite (rename_net_run _ _ _ _ Hn Hnew), decide_False, Hslot by done.
  eexists. split; [done|].
  rewrite (rename_net_run _ _ (set_net_name new_name ni)); simpl.
  - rewrite decide_False by done. map_lookups. simpl.
    destruct ctx as [cm nm cs ns]. simpl in *. f_equal. f_equal.
    + rewrite insert_insert_eq. apply insert_id. rewrite Hn. by destruct ni.
    + apply map_eq. intros k.
      destruct (decide (k = new_name)) as [Hk1|Hk1];
        destruct (decide (k = net_name ni)) as [Hk2|Hk2]; subst;
        map_lookups; congruence.
  - by rewrite lookup_insert_eq.
  - by map_lookups.
Qed.

Lemma rename_net_round_trip_witness :
  ∃ ctx1,
    rename_net wired (Some N) "n2" = Done ctx1 ∧
    rename_net ctx1 (Some N) "n" = Done wired.
Proof.
  exact (rename_net_round_trip wired N
           (mkNetInfo "n" (mkPortRef (Some A) "Q") [mkPortRef (Some B) "D"]) "n2"
           eq_refl eq_refl eq_refl).
Defined.

(** X12.  When every owned net is stored under its own name, it is so again after
    [rename_net] of a net that the store owns. *)
Theorem rename_net_keeps_store ctx n ni new_name ctx' :
  store_ok ctx →
  net_mem ctx !! n = Some ni →
  nets ctx !! net_name ni = Some (Some n) →
  rename_net ctx (Some n) new_name = Done ctx' →
  store_ok ctx'.
Proof.
  intros Hok Hn Hslot Hrun.
  destruct (rename_net_Done _ _ _ _ Hrun) as (ni' & Hn' & Hnew & Hrun').
  rewrite Hn in Hn'. injection Hn' as <-.
  rewrite Hrun' in Hrun. injection Hrun as <-.
  assert (net_name ni ≠ new_name) as Hne by congruence.
  rewrite decide_False, Hslot by done. simpl.
  intros k a. simpl. intros Hk.
  destruct (decide (k = new_name)) as [->|Hk1].
  { rewrite lookup_insert_eq in Hk. injection Hk as <-.
    exists (set_net_name new_name ni). by rewrite lookup_insert_eq. }
  rewrite lookup_insert_ne in Hk by done.
  apply lookup_delete_Some in Hk as [Hk2 Hk].
  destruct (Hok k a Hk) as (na & Hna & Hname).
  exists na. split; [|done]. rewrite lookup_insert_ne; [done|].
  intros <-. congruence.
Qed.

Lemma rename_net_keeps_store_witness :
  ∃ ctx', rename_net wired (Some N) "n2" = Done ctx' ∧ store_ok ctx'.
Proof.
  eexists. split; [vm_compute; reflexivity|].
  refine (rename_net_keeps_store wired N
            (mkNetInfo "n" (mkPortRef (Some A) "Q") [mkPortRef (Some B) "D"])
            "n2" _ _ eq_refl eq_refl _).
  - intros k a Hk. unfold wired in Hk. simpl in Hk.
    apply lookup_singleton_Some in Hk as [<- Hk]. injection Hk as <-.
    by eexists.
  - vm_compute. reflexivity.
Defined.

(** ** rename-port, further *)

Lemma rename_port_effect_unconnected ctx c old new ci pi :
  cell_mem ctx !! c = Some ci →
  ports ci !! old = Some pi →
  net pi = None →
  rename_port ctx c old new =
  Done (mkContext
          (<[c := mkCellInfo (cell_name ci) (cell_type ci)
                    (<[new := set_name new pi]> (delete old (ports ci)))]>
             (cell_mem ctx))
          (net_mem ctx) (cells ctx) (nets ctx)).
Proof.
  intros Hc Hp Hnet. unfold rename_port.
  rewrite (deref_cell_Some _ _ _ Hc). cbn [mbind outcome_bind].
  rewrite (count_Some _ _ _ Hp). cbn [negb].
  rewrite (ports_at_Some _ _ _ _ _ Hc Hp). cbn [mbind outcome_bind].
  rewrite Hnet. cbn [mbind outcome_bind].
  f_equal. unfold upd_cell_mem. simpl. f_equal.
  apply map_eq. intros c'.
  destruct (decide (c = c')) as [<-|]; map_lookups; [by rewrite Hc|done].
Qed.

Lemma rename_user_refers c old new r :
  refers c old r → rename_user c old new r = mkPortRef (Some c) new.
Proof.
  intros Href. unfold rename_user. rewrite bool_decide_eq_true_2 by done.
  destruct Href as [-> _]. done.
Qed.

Lemma rename_user_other c old new r :
  ¬ refers c old r → rename_user c old new r = r.
Proof. intros Href. unfold rename_user. by rewrite bool_decide_eq_false_2. Qed.

(** A graph that differs from a well-formed one by a new name for one port,
    a name that no other port of the cell has, is well-formed. *)
Lemma wf_after_rename ctx ctx' c old new pi :
  wf ctx →
  port_of ctx c old = Some pi →
  new = old ∨ port_of ctx c new = None →
  port_of ctx' c new = Some (set_name new pi) →
  (new ≠ old → port_of ctx' c old = None) →
  (∀ c' p', ¬ (c = c' ∧ old = p') → ¬ (c = c' ∧ new = p') →
            port_of ctx' c' p' = port_of ctx c' p') →
  (∀ b, net_mem ctx' !! b =
        if decide (net pi = Some b)
        then renamed_net c old new <$> net_mem ctx !! b
        else net_mem ctx !! b) →
  wf ctx'.
Proof.
  intros [Hu Hd Hp] Hpi Hfresh F1 F3 F2 F4.
  assert (∀ c' p' pi', port_of ctx c' p' = Some pi' → ¬ (c = c' ∧ old = p') →
                       port_of ctx' c' p' = Some pi') as K.
  { intros c' p' pi' Hpi' Hne. rewrite F2; [done..|].
    intros [<- <-]. destruct Hfresh as [->|Hnone]; [by apply Hne|congruence]. }
  assert (∀ r b, user_ok ctx b r →
            user_ok ctx' b (if decide (net pi = Some b)
                            then rename_user c old new r else r)) as Husers.
  { intros r b Hok. pose proof Hok as (c0 & pi0 & Hc0 & Hp0 & Hty0 & Hn0).
    destruct (decide (refers c old r)) as [[Hc Hq]|Href].
    - assert (c0 = c) as -> by congruence. rewrite Hq, Hpi in Hp0.
      injection Hp0 as <-. rewrite decide_True by done.
      rewrite rename_user_refers by done.
      exists c, (set_name new pi). done.
    - rewrite rename_user_other by done.
      assert ((if decide (net pi = Some b) then r else r) = r) as ->
        by (by destruct (decide _)).
      exists c0, pi0. split; [done|]. split; [|done].
      apply K; [done|]. intros [? ?]; subst. by apply Href. }
  assert (∀ r b, driver_ok ctx b r →
            driver_ok ctx' b (if decide (net pi = Some b)
                              then rename_user c old new r else r)) as Hdrivers.
  { intros r b [Hnone|(c0 & pi0 & Hc0 & Hp0 & Hty0 & Hn0)].
    - left. rewrite rename_user_other by (intros [? _]; congruence).
      by destruct (decide _).
    - right. destruct (decide (refers c old r)) as [[Hc Hq]|Href].
      + assert (c0 = c) as -> by congruence. rewrite Hq, Hpi in Hp0.
        injection Hp0 as <-. rewrite decide_True by done.
        rewrite rename_user_refers by done.
        exists c, (set_name new pi). done.
      + rewrite rename_user_other by done.
        assert ((if decide (net pi = Some b) then r else r) = r) as ->
          by (by destruct (decide _)).
        exists c0, pi0. split; [done|]. split; [|done].
        apply K; [done|]. intros [? ?]; subst. by apply Href. }
  split.
  - intros b nb' r Hb Hr. rewrite F4 in Hb.
    destruct (decide (net pi = Some b)) as [Hnet|Hnet].
    + apply fmap_Some in Hb as (nb & Hnb & ->). simpl in Hr.
      apply list_elem_of_fmap in Hr as (r0 & -> & Hr0).
      specialize (Husers r0 b (Hu b nb r0 Hnb Hr0)).
      by rewrite decide_True in Husers.
    + specialize (Husers r b (Hu b nb' r Hb Hr)).
      by rewrite decide_False in Husers.
  - intros b nb' Hb. rewrite F4 in Hb.
    destruct (decide (net pi = Some b)) as [Hnet|Hnet].
    + apply fmap_Some in Hb as (nb & Hnb & ->). simpl.
      specialize (Hdrivers (driver nb) b (Hd b nb Hnb)).
      by rewrite decide_True in Hdrivers.
    + specialize (Hdrivers (driver nb') b (Hd b nb' Hb)).
      by rewrite decide_False in Hdrivers.
  - intros c' p' pi' Hpi' b Hb.
    destruct (decide (c = c' ∧ new = p')) as [[<- <-]|Hnn].
    { rewrite F1 in Hpi'. injection Hpi' as <-. simpl in *.
      destruct (Hp c old pi Hpi b Hb) as (nb & Hnb & Hl).
      exists (renamed_net c old new nb).
      rewrite F4, decide_True, Hnb by done. split; [done|]. simpl.
      destruct (decide (type pi = PORT_OUT)).
      - rewrite Hl. by rewrite rename_user_refers.
      - rewrite <- (rename_user_refers c old new (mkPortRef (Some c) old)) by done.
        by apply list_elem_of_fmap_2. }
    destruct (decide (c = c' ∧ old = p')) as [[<- <-]|Hno].
    { rewrite F3 in Hpi'; [done|]. intros ->. by apply Hnn. }
    rewrite F2 in Hpi' by done.
    destruct (Hp c' p' pi' Hpi' b Hb) as (nb & Hnb & Hl).
    rewrite F4, Hnb.
    destruct (decide (net pi = Some b)) as [Hnet|Hnet]; [|by exists nb].
    exists (renamed_net c old new nb). split; [done|]. simpl.
    assert (¬ refers c old (mkPortRef (Some c') p')) as Href.
    { intros [[= ->] Hq]. simpl in Hq. by apply Hno. }
    destruct (decide (type pi' = PORT_OUT)).
    + rewrite Hl. by rewrite rename_user_other.
    + rewrite <- (rename_user_other c old new (mkPortRef (Some c') p')) by done.
      by apply list_elem_of_fmap_2.
Qed.

Lemma rename_port_bad_cell ctx c old new :
  cell_mem ctx !! c = None → rename_port ctx c old new = Undef.
Proof. intros Hc. unfold rename_port, deref_cell. by rewrite Hc. Qed.

(** The ports of a graph whose cell at [c] has had its port [old] moved to
    the key [new]. *)
Lemma port_of_renamed cm nm cs ns c ci old new pi nm' c' p' :
  cm !! c = Some ci →
  ports ci !! old = Some pi →
  port_of (mkContext
             (<[c := mkCellInfo (cell_name ci) (cell_type ci)
                       (<[new := set_name new pi]> (delete old (ports ci)))]> cm)
             nm' cs ns) c' p' =
  if decide (c = c' ∧ new = p') then Some (set_name new pi)
  else if decide (c = c' ∧ old = p') then None
  else port_of (mkContext cm nm cs ns) c' p'.
Proof.
  intros Hc Hp. unfold port_of. simpl.
  destruct (decide (c = c')) as [<-|Hne].
  - rewrite lookup_insert_eq, Hc. simpl.
    destruct (decide (new = p')) as [<-|Hn].
    + by rewrite lookup_insert_eq, decide_True.
    + rewrite lookup_insert_ne, (decide_False (P := c = c ∧ new = p'))
        by (done || by intros [_ ?]).
      destruct (decide (old = p')) as [<-|Ho].
      * by rewrite lookup_delete_eq, decide_True.
      * rewrite lookup_delete_ne, decide_False by (done || by intros [_ ?]). done.
  - rewrite lookup_insert_ne, !decide_False by (done || by intros [? _]). done.
Qed.

(** X8.  When the new name is the old one or no port of the cell has it, every
    graph [rename_port] returns from a well-formed graph is well-formed. *)
Theorem rename_port_keeps_wf ctx c old new ctx' :
  wf ctx →
  new = old ∨ port_of ctx c new = None →
  rename_port ctx c old new = Done ctx' →
  wf ctx'.
Proof.
  intros Hwf Hfresh Hrun.
  destruct (cell_mem ctx !! c) as [ci|] eqn:Hc; cycle 1.
  { by rewrite (rename_port_bad_cell _ _ _ _ Hc) in Hrun. }
  destruct (ports ci !! old) as [pi|] eqn:Hp; cycle 1.
  { rewrite (rename_port_absent _ _ _ _ _ Hc Hp) in Hrun. by injection Hrun as <-. }
  pose proof (port_of_Some _ _ _ _ _ Hc Hp) as Hpo.
  assert (∀ nm' c' p',
            port_of (mkContext
                       (<[c := mkCellInfo (cell_name ci) (cell_type ci)
                                 (<[new := set_name new pi]> (delete old (ports ci)))]>
                          (cell_mem ctx))
                       nm' (cells ctx) (nets ctx)) c' p' =
            if decide (c = c' ∧ new = p') then Some (set_name new pi)
            else if decide (c = c' ∧ old = p') then None
            else port_of ctx c' p') as Hports.
  { intros nm' c' p'. destruct ctx as [cm nm cs ns].
    by apply (port_of_renamed cm nm cs ns). }
  destruct (net pi) as [a|] eqn:Hnet.
  - destruct (wf_ports _ Hwf _ _ _ Hpo a Hnet) as (ni & Hn & _).
    rewrite (rename_port_effect _ _ _ _ _ _ _ _ Hc Hp Hnet Hn) in Hrun.
    injection Hrun as <-.
    apply (wf_after_rename ctx _ c old new pi); [done..| | | |].
    + by rewrite Hports, decide_True.
    + intros Hne. rewrite Hports, decide_False, decide_True; [done..|].
      by intros [_ ?].
    + intros c' p' H1 H2. by rewrite Hports, !decide_False.
    + intros b. simpl. rewrite Hnet. destruct (decide (a = b)) as [<-|Hab].
      * by rewrite lookup_insert_eq, decide_True, Hn.
      * rewrite lookup_insert_ne, decide_False; [done|congruence|done].
  - rewrite (rename_port_effect_unconnected _ _ _ _ _ _ Hc Hp Hnet) in Hrun.
    injection Hrun as <-.
    apply (wf_after_rename ctx _ c old new pi); [done..| | | |].
    + by rewrite Hports, decide_True.
    + intros Hne. rewrite Hports, decide_False, decide_True; [done..|].
      by intros [_ ?].
    + intros c' p' H1 H2. by rewrite Hports, !decide_False.
    + intros b. simpl. by rewrite Hnet, decide_False.
Qed.

Lemma rename_port_keeps_wf_witness :
  ∃ ctx', rename_port wired A "Q" "Y" = Done ctx' ∧ wf ctx'.
Proof.
  eexists. split; [vm_compute; reflexivity|].
  refine (rename_port_keeps_wf wired A "Q" "Y" _ _ _ _).
  - apply (bool_decide_unpack _). by vm_compute.
  - right. reflexivity.
  - vm_compute. reflexivity.
Defined.

Lemma rename_user_back c old new r :
  ¬ refers c new r →
  rename_user c new old (rename_user c old new r) = r.
Proof.
  intros Hnew. destruct (decide (refers c old r)) as [Href|Href].
  - rewrite (rename_user_refers _ _ _ _ Href), rename_user_refers by done.
    destruct Href as [? ?]. destruct r; simpl in *. by subst.
  - rewrite (rename_user_other _ _ _ _ Href). by apply rename_user_other.
Qed.

Lemma renamed_net_back ctx c old new a ni :
  wf ctx →
  net_mem ctx !! a = Some ni →
  port_of ctx c new = None →
  renamed_net c new old (renamed_net c old new ni) = ni.
Proof.
  intros [Hu Hd _] Hn Hnone. unfold renamed_net. simpl.
  rewrite rename_user_back; cycle 1.
  { intros [Hc Hp]. destruct (Hd a ni Hn) as [?|(c0 & pi0 & ? & ? & _)];
      congruence. }
  rewrite <- list_fmap_compose, fmap_fixed; [by destruct ni|].
  intros r Hr. simpl. apply rename_user_back.
  intros [Hc Hp]. destruct (Hu a ni r Hn Hr) as (c0 & pi0 & ? & ? & _).
  congruence.
Qed.

Lemma ports_renamed_back (ps : gmap string PortInfo) old new pi :
  ps !! old = Some pi → ps !! new = None → name pi = old →
  <[old := set_name old (set_name new pi)]>
    (delete new (<[new := set_name new pi]> (delete old ps))) = ps.
Proof.
  intros Hold Hnew Hname. apply map_eq. intros k.
  assert (old ≠ new) as Hne by congruence.
  destruct (decide (k = old)) as [->|Hk1].
  { rewrite lookup_insert_eq, Hold. destruct pi; simpl in *. by subst. }
  destruct (decide (k = new)) as [->|Hk2]; by map_lookups.
Qed.

(** X9.  On a well-formed graph, renaming a port whose record carries its name
    to a name that no port of the cell has, and then back, gives the graph
    back. *)
Theorem rename_port_round_trip ctx c old_name new_name pi :
  wf ctx →
  port_of ctx c old_name = Some pi →
  name pi = old_name →
  port_of ctx c new_name = None →
  ∃ ctx1,
    rename_port ctx c old_name new_name = Done ctx1 ∧
    rename_port ctx1 c new_name old_name = Done ctx.
Proof.
  intros Hwf Hpo Hname Hnone.
  pose proof Hpo as (ci & Hc & Hp)%port_of_cell.
  assert (ports ci !! new_name = None) as Hpn.
  { unfold port_of in Hnone. by rewrite Hc in Hnone. }
  destruct (net pi) as [a|] eqn:Hnet.
  - destruct (wf_ports _ Hwf _ _ _ Hpo a Hnet) as (ni & Hn & _).
    rewrite (rename_port_effect _ _ _ _ _ _ _ _ Hc Hp Hnet Hn).
    eexists. split; [done|].
    erewrite rename_port_effect; simpl;
      [|by rewrite lookup_insert_eq|simpl; by rewrite lookup_insert_eq
       |done|by rewrite lookup_insert_eq].
    f_equal. destruct ctx as [cm nm cs ns]. simpl in *. f_equal.
    + rewrite insert_insert_eq. apply insert_id. rewrite Hc. f_equal.
      destruct ci as [cn ct ps]. simpl in *. f_equal.
      symmetry. by apply ports_renamed_back.
    + rewrite insert_insert_eq. apply insert_id. rewrite Hn. f_equal.
      symmetry. by eapply (renamed_net_back (mkContext cm nm cs ns)).
  - rewrite (rename_port_effect_unconnected _ _ _ _ _ _ Hc Hp Hnet).
    eexists. split; [done|].
    erewrite rename_port_effect_unconnected; simpl;
      [|by rewrite lookup_insert_eq|simpl; by rewrite lookup_insert_eq|done].
    f_equal. destruct ctx as [cm nm cs ns]. simpl in *. f_equal.
    rewrite insert_insert_eq. apply insert_id. rewrite Hc. f_equal.
    destruct ci as [cn ct ps]. simpl in *. f_equal.
    symmetry. by apply ports_renamed_back.
Qed.

Lemma rename_port_round_trip_witness :
  ∃ ctx1,
    rename_port wired B "D" "D2" = Done ctx1 ∧
    rename_port ctx1 B "D2" "D" = Done wired.
Proof.
  apply (rename_port_round_trip wired B "D" "D2" (mkPortInfo "D" (Some N) PORT_IN)).
  - apply (bool_decide_unpack _). by vm_compute.
  - reflexivity.
  - reflexivity.
  - reflexivity.
Defined.

(** ** connect-via-new-net, further *)

Lemma ports_at_Done ctx c p pi :
  ports_at ctx c p = Done pi → port_of ctx c p = Some pi.
Proof.
  unfold ports_at, deref_cell, port_of.
  destruct (cell_mem ctx !! c) as [ci|]; [|done]. simpl.
  by destruct (ports ci !! p); intros [= ->].
Qed.

(** A new net without driver and users, at an address not in use, keeps a
    graph well-formed. *)
Lemma wf_new_net ctx a ni :
  wf ctx →
  net_mem ctx !! a = None →
  cell (driver ni) = None → users ni = [] →
  wf (upd_net_mem <[a := ni]> ctx).
Proof.
  intros [Hu Hd Hp] Hfresh Hdrv Husers. split.
  - intros b nb r Hb Hr. simpl in Hb.
    destruct (decide (a = b)) as [<-|Hab].
    + rewrite lookup_insert_eq in Hb. injection Hb as <-.
      rewrite Husers in Hr. by apply not_elem_of_nil in Hr.
    + rewrite lookup_insert_ne in Hb by done.
      destruct (Hu b nb r Hb Hr) as (c & pi & ? & ? & ? & ?). by exists c, pi.
  - intros b nb Hb. simpl in Hb.
    destruct (decide (a = b)) as [<-|Hab].
    + rewrite lookup_insert_eq in Hb. injection Hb as <-. by left.
    + rewrite lookup_insert_ne in Hb by done.
      destruct (Hd b nb Hb) as [?|(c & pi & ? & ? & ? & ?)]; [by left|right].
      by exists c, pi.
  - intros c p pi Hpi b Hb.
    destruct (Hp c p pi Hpi b Hb) as (nb & Hnb & Hl).
    exists nb. split; [|done]. simpl.
    rewrite lookup_insert_ne; [done|]. intros <-. congruence.
Qed.

(** X7.  When the name derived for the new net is not the name under which the
    store owns a net, every graph [connect_ports] returns from a
    well-formed graph is well-formed. *)
Theorem connect_ports_keeps_wf ctx cell1 port1_name cell2 port2_name ctx' :
  wf ctx →
  (∀ c1 q, cell_mem ctx !! cell1 = Some c1 →
           nets ctx !! (cell_name c1 +:+ "$conn$" +:+ port1_name) ≠ Some (Some q)) →
  connect_ports ctx cell1 port1_name cell2 port2_name = Done ctx' →
  wf ctx'.
Proof.
  intros Hwf Hfree Hrun. unfold connect_ports in Hrun.
  destruct (ports_at ctx cell1 port1_name) as [port1| |] eqn:H1; [|done..].
  cbn [mbind outcome_bind] in Hrun.
  pose proof (ports_at_Done _ _ _ _ H1) as Hp1.
  pose proof Hp1 as (c1 & Hc1 & Hq1)%port_of_cell.
  destruct (net port1) as [a0|] eqn:Hnet.
  { cbn [mbind outcome_bind] in Hrun. rewrite H1 in Hrun.
    cbn [mbind outcome_bind] in Hrun. by eapply connect_port_wf_step. }
  unfold new_NetInfo in Hrun.
  set (a := fresh (dom (net_mem ctx))) in *.
  set (name := cell_name c1 +:+ "$conn$" +:+ port1_name) in *.
  assert (net_mem ctx !! a = None) as Hfresh.
  { apply not_elem_of_dom. apply is_fresh. }
  assert (deref_cell (upd_net_mem <[a := mkNetInfo "" (mkPortRef None "") []]> ctx)
            cell1 = Done c1) as Hd1 by (by apply deref_cell_Some).
  rewrite Hd1 in Hrun. cbn [mbind outcome_bind] in Hrun. fold name in Hrun.
  match type of Hrun with context [connect_port ?c _ _ _] => set (ctxB := c) in * end.
  assert (wf ctxB) as HwfB.
  { apply (wf_same_links
             (upd_net_mem <[a := mkNetInfo "" (mkPortRef None "") []]> ctx));
      [done| |by apply wf_new_net].
    intros b. unfold ctxB. rewrite net_mem_write_net.
    destruct (decide (a = b)) as [<-|]; [|done]. simpl.
    by rewrite lookup_insert_eq. }
  destruct (connect_port ctxB (Some a) cell1 port1_name) as [ctxC| |] eqn:HC;
    [|done..].
  cbn [mbind outcome_bind] in Hrun.
  pose proof (connect_port_wf_step _ _ _ _ _ HwfB HC) as HwfC.
  apply connect_port_Done in HC as (pi & ni & _ & _ & HnB & _ & ->).
  match type of Hrun with context [deref_net ?c a] => set (ctxC := c) in * end.
  assert (net_mem ctxB !! a = Some (mkNetInfo name (mkPortRef None "") [])) as HnB'.
  { unfold ctxB. rewrite net_mem_write_net, decide_True by done. simpl.
    by rewrite lookup_insert_eq. }
  rewrite HnB in HnB'. injection HnB' as ->.
  set (n1 := attached cell1 port1_name (type pi)
               (mkNetInfo name (mkPortRef None "") [])) in *.
  assert (deref_net ctxC a = Done n1) as Hd2.
  { apply deref_net_Some. unfold ctxC.
    by rewrite net_mem_write_net, decide_True, net_mem_write_port, HnB. }
  rewrite Hd2 in Hrun. cbn [mbind outcome_bind] in Hrun.
  assert (net_name n1 = name) as Hname by (unfold n1; by destruct (type pi)).
  rewrite Hname in Hrun.
  destruct (NPNR_ASSERT (negb (count (cells ctxC) name))); [|done..].
  cbn [mbind outcome_bind] in Hrun. unfold nets_assign in Hrun.
  assert (default None (nets ctxC !! name) = None) as Hslot.
  { change (nets ctxC) with (nets ctx).
    destruct (nets ctx !! name) as [[q|]|] eqn:Hs; [|done..].
    by destruct (Hfree c1 q Hc1). }
  rewrite Hslot in Hrun. cbn [destroy_unique mbind outcome_bind] in Hrun.
  set (ctxD := upd_nets <[name := Some a]> ctxC) in *.
  assert (wf ctxD) as HwfD by (by apply (wf_ext ctxC)).
  destruct (ports_at ctxD cell1 port1_name) as [port1'| |]; [|done..].
  cbn [mbind outcome_bind] in Hrun.
  by eapply connect_port_wf_step.
Qed.

Lemma connect_ports_keeps_wf_witness :
  ∃ ctx', connect_ports unwired A "Q" B "D" = Done ctx' ∧ wf ctx'.
Proof.
  eexists. split; [vm_compute; reflexivity|].
  refine (connect_ports_keeps_wf unwired A "Q" B "D" _ _ _ _).
  - apply (bool_decide_unpack _). by vm_compute.
  - intros c1 q _ Hq. unfold unwired in Hq. simpl in Hq.
    by rewrite lookup_empty in Hq.
  - vm_compute. reflexivity.
Defined.

Lemma connect_ports_new_net_witness :
  ∃ ctx',
    connect_ports unwired A "Q" B "D" = Done ctx' ∧
    nets ctx' = {[ "A$conn$Q" := Some N ]} ∧
    net_mem ctx' =
      {[ N := mkNetInfo "A$conn$Q" (mkPortRef (Some A) "Q") [mkPortRef (Some B) "D"] ]} ∧
    port_of ctx' A "Q" = Some (mkPortInfo "Q" (Some N) PORT_OUT) ∧
    port_of ctx' B "D" = Some (mkPortInfo "D" (Some N) PORT_IN).
Proof.
  destruct (connect_ports_new_net unwired A "Q" B "D"
              (mkCellInfo "A" "LUT" {[ "Q" := mkPortInfo "Q" None PORT_OUT ]})
              (mkPortInfo "Q" None PORT_OUT) (mkPortInfo "D" None PORT_IN))
    as (ctx' & Hrun & Hnets & Hmem & HA & HB & _).
  - reflexivity.
  - reflexivity.
  - reflexivity.
  - reflexivity.
  - reflexivity.
  - intros [? _]. discriminate.
  - intros [_ ?]. discriminate.
  - reflexivity.
  - reflexivity.
  - exists ctx'. split; [done|]. split; [by rewrite Hnets|].
    split; [by rewrite Hmem|]. split; [by rewrite HA|by rewrite HB].
Defined.

Lemma connect_ports_cell_name_taken_witness :
  connect_ports cell_name_taken A "Q" B "D" = Fatal assertion_failure.
Proof.
  apply (connect_ports_cell_name_taken cell_name_taken A "Q" B "D"
           (mkCellInfo "A" "LUT" {[ "Q" := mkPortInfo "Q" None PORT_OUT ]})
           (mkPortInfo "Q" None PORT_OUT)).
  - reflexivity.
  - reflexivity.
  - reflexivity.
  - eexists. reflexivity.
Defined.

(** With port1 unconnected and the derived name free, [connect_ports] is
    [connect_port] of port2 on the graph that holds the new net with port1
    on it. *)
Lemma connect_ports_second_call ctx cell1 port1_name cell2 port2_name c1 port1 :
  cell_mem ctx !! cell1 = Some c1 →
  ports c1 !! port1_name = Some port1 → net port1 = None →
  let name := cell_name c1 +:+ "$conn$" +:+ port1_name in
  let a := fresh (dom (net_mem ctx)) in
  cells ctx !! name = None →
  default None (nets ctx !! name) = None →
  ∃ ctx1,
    connect_ports ctx cell1 port1_name cell2 port2_name =
      connect_port ctx1 (Some a) cell2 port2_name ∧
    net_mem ctx1 !! a =
      Some (attached cell1 port1_name (type port1)
              (mkNetInfo name (mkPortRef None "") [])) ∧
    port_of ctx1 cell1 port1_name = Some (set_net (Some a) port1) ∧
    (∀ c p, ¬ (cell1 = c ∧ port1_name = p) → port_of ctx1 c p = port_of ctx c p) ∧
    (∀ c, cell_head ctx1 c = cell_head ctx c).
Proof.
  intros Hc Hp Hnet name a Hcells Hslot.
  pose proof (port_of_Some _ _ _ _ _ Hc Hp) as Hp1.
  assert (net_mem ctx !! a = None) as Hfresh.
  { apply not_elem_of_dom. apply is_fresh. }
  unfold connect_ports.
  rewrite (ports_at_Some _ _ _ _ _ Hc Hp). cbn [mbind outcome_bind].
  rewrite Hnet. unfold new_NetInfo. fold a.
  assert (deref_cell (upd_net_mem <[a := mkNetInfo "" (mkPortRef None "") []]> ctx)
            cell1 = Done c1) as -> by (by apply deref_cell_Some).
  cbn [mbind outcome_bind]. fold name.
  match goal with |- context [connect_port ?c _ _ _] => set (ctxB := c) end.
  set (n0 := mkNetInfo name (mkPortRef None "") []).
  assert (net_mem ctxB !! a = Some n0) as HnB.
  { unfold ctxB. rewrite net_mem_write_net, decide_True by done. simpl.
    by rewrite lookup_insert_eq. }
  assert (∀ c p, port_of ctxB c p = port_of ctx c p) as HportsB by done.
  rewrite (connect_port_attach ctxB a cell1 port1_name port1 n0)
    by (done || by rewrite HportsB).
  cbn [mbind outcome_bind].
  set (n1 := attached cell1 port1_name (type port1) n0).
  match goal with |- context [deref_net ?c a] => set (ctxC := c) end.
  assert (net_mem ctxC !! a = Some n1) as HnC.
  { unfold ctxC. by rewrite net_mem_write_net, decide_True, net_mem_write_port, HnB. }
  assert (net_name n1 = name) as Hname by (unfold n1; by destruct (type port1)).
  rewrite (deref_net_Some ctxC a n1) by done.
  cbn [mbind outcome_bind]. rewrite Hname.
  rewrite (count_None (cells ctxC) name) by done.
  cbn [negb NPNR_ASSERT mbind outcome_bind].
  unfold nets_assign. change (nets ctxC) with (nets ctx). rewrite Hslot.
  cbn [destroy_unique mbind outcome_bind].
  set (ctxD := upd_nets <[name := Some a]> ctxC).
  assert (port_of ctxD cell1 port1_name = Some (set_net (Some a) port1)) as HD1.
  { change (port_of (write_port cell1 port1_name (set_net (Some a)) ctxB)
              cell1 port1_name = Some (set_net (Some a) port1)).
    by rewrite port_of_write_port, decide_True, HportsB, Hp1. }
  rewrite (ports_at_port_of _ _ _ _ HD1). cbn [mbind outcome_bind net set_net].
  exists ctxD. split; [done|]. split; [done|]. split; [done|]. split.
  - intros c p Hcp.
    change (port_of (write_port cell1 port1_name (set_net (Some a)) ctxB) c p =
            port_of ctx c p).
    by rewrite port_of_write_port, decide_False, HportsB.
  - intros c.
    change (cell_head (write_port cell1 port1_name (set_net (Some a)) ctxB) c =
            cell_head ctx c).
    by rewrite cell_head_write_port.
Qed.

(** X6.  [connect_ports] is fatal when port2 cannot take the new net: it is
    port1 itself, it is already connected, it is missing on its cell, or
    both ports are OUT. *)
Theorem connect_ports_rejects ctx cell1 port1_name cell2 port2_name c1 c2 port1 :
  cell_mem ctx !! cell1 = Some c1 →
  ports c1 !! port1_name = Some port1 → net port1 = None →
  cell_mem ctx !! cell2 = Some c2 →
  cells ctx !! (cell_name c1 +:+ "$conn$" +:+ port1_name) = None →
  default None (nets ctx !! (cell_name c1 +:+ "$conn$" +:+ port1_name)) = None →
  (cell1 = cell2 ∧ port1_name = port2_name) ∨
  ports c2 !! port2_name = None ∨
  (∃ port2, ports c2 !! port2_name = Some port2 ∧
            (is_Some (net port2) ∨
             (type port1 = PORT_OUT ∧ type port2 = PORT_OUT))) →
  is_fatal (connect_ports ctx cell1 port1_name cell2 port2_name).
Proof.
  intros Hc1 Hp1 Hnet Hc2 Hcells Hslot Hbad.
  destruct (connect_ports_second_call ctx cell1 port1_name cell2 port2_name
              c1 port1 Hc1 Hp1 Hnet Hcells Hslot)
    as (ctx1 & -> & Hn1 & Hq1 & Hframe & Hheads).
  set (a := fresh (dom (net_mem ctx))) in *.
  destruct (decide (cell1 = cell2 ∧ port1_name = port2_name)) as [[<- <-]|Hne].
  { apply port_of_cell in Hq1 as (ci & Hci & Hpi).
    generalize (connect_port_cases ctx1 a cell1 port1_name ci _ Hci Hn1).
    rewrite Hpi. simpl. intros ->. apply is_fatal_Fatal. }
  destruct Hbad as [?|Hbad]; [done|].
  assert (port_of ctx1 cell2 port2_name = ports c2 !! port2_name) as Hq2.
  { rewrite Hframe by done. unfold port_of. by rewrite Hc2. }
  assert (∃ ci, cell_mem ctx1 !! cell2 = Some ci) as [ci Hci].
  { specialize (Hheads cell2). unfold cell_head in Hheads. rewrite Hc2 in Hheads.
    destruct (cell_mem ctx1 !! cell2); [by eexists | done]. }
  assert (ports ci !! port2_name = ports c2 !! port2_name) as Hpi.
  { unfold port_of in Hq2. by rewrite Hci in Hq2. }
  generalize (connect_port_cases ctx1 a cell2 port2_name ci _ Hci Hn1).
  rewrite Hpi.
  destruct Hbad as [->|(port2 & -> & [[m Hm]|[Ho1 Ho2]])].
  - intros ->. apply is_fatal_Fatal.
  - rewrite Hm. destruct (type port2); intros ->; apply is_fatal_Fatal.
  - destruct (net port2); [destruct (type port2); intros ->; apply is_fatal_Fatal|].
    rewrite Ho2, Ho1. simpl. intros ->. apply is_fatal_Fatal.
Qed.

Lemma connect_ports_rejects_witness :
  is_fatal (connect_ports unwired A "Q" A "Q").
Proof.
  apply (connect_ports_rejects unwired A "Q" A "Q"
           (mkCellInfo "A" "LUT" {[ "Q" := mkPortInfo "Q" None PORT_OUT ]})
           (mkCellInfo "A" "LUT" {[ "Q" := mkPortInfo "Q" None PORT_OUT ]})
           (mkPortInfo "Q" None PORT_OUT)).
  - reflexivity.
  - reflexivity.
  - reflexivity.
  - reflexivity.
  - reflexivity.
  - reflexivity.
  - left. split; reflexivity.
Defined.

(** ** Buses *)

Lemma append_bracket_inj (s1 s2 : string) : s1 +:+ "]" = s2 +:+ "]" → s1 = s2.
Proof.
  revert s2. induction s1 as [|a s1 IH]; intros [|b s2] Heq; simpl in Heq.
  - done.
  - injection Heq as _ Heq. by destruct s2.
  - injection Heq as _ Heq. by destruct s1.
  - injection Heq as -> Heq. f_equal. by apply IH.
Qed.

Lemma stringf_bus_inj brackets base : Inj (=) (=) (stringf_bus brackets base).
Proof.
  intros i j. unfold stringf_bus. destruct brackets; intros Heq.
  - apply String.app_inj, String.app_inj, append_bracket_inj in Heq.
    by apply (inj pretty).
  - apply String.app_inj in Heq. by apply (inj pretty).
Qed.

(** X14.  Two different indices of a bus name two different ports, in either
    bracket style and for every offset. *)
Theorem bus_ports_distinct brackets base offset i j :
  i ≠ j →
  stringf_bus brackets base (i + offset) ≠ stringf_bus brackets base (j + offset).
Proof.
  intros Hij Heq. apply stringf_bus_inj in Heq. lia.
Qed.

Lemma bus_ports_distinct_witness :
  stringf_bus true "a" (0 + 1) ≠ stringf_bus true "a" (1 + 1).
Proof.
  apply (bus_ports_distinct true "a" 1 0 1). lia.
Defined.

(** An invariant of the rounds of a loop holds when the loop is left. *)
Lemma for_loop_inv (I : Z → Context → Prop) body (todo : nat) : ∀ (i : Z) ctx ctx',
  (∀ j c c', (i ≤ j < i + Z.of_nat todo)%Z → I j c → body j c = Done c' →
             I (j + 1)%Z c') →
  I i ctx →
  for_loop body todo i ctx = Done ctx' →
  I (i + Z.of_nat todo)%Z ctx'.
Proof.
  induction todo as [|todo IH]; intros i ctx ctx' Hstep Hi Hrun.
  - injection Hrun as <-. by replace (i + Z.of_nat 0)%Z with i by lia.
  - cbn [for_loop] in Hrun.
    destruct (body i ctx) as [ctx1| |] eqn:Hbody; [|done..].
    cbn [mbind outcome_bind] in Hrun.
    replace (i + Z.of_nat (S todo))%Z with ((i + 1) + Z.of_nat todo)%Z by lia.
    apply (IH (i + 1)%Z ctx1); [|by apply (Hstep i ctx); [lia|..]|done].
    intros j c c' Hj. apply Hstep. lia.
Qed.

Lemma int_add_is_Done a b z : int_add a b = Done z → z = (a + b)%Z.
Proof. unfold int_add. by destruct (bool_decide _); intros [= <-]. Qed.

(** What one round of a bus loop runs. *)
Lemma bus_round (f : Context → ptr → IdString → ptr → IdString → outcome Context)
    old_cell old_name old_offset old_brackets
    new_cell new_name new_offset new_brackets i ctx ctx' :
  (ko ← int_add i old_offset ;
   let old_port := stringf_bus old_brackets old_name ko in
   kn ← int_add i new_offset ;
   let new_port := stringf_bus new_brackets new_name kn in
   f ctx old_cell old_port new_cell new_port) = Done ctx' →
  f ctx old_cell (stringf_bus old_brackets old_name (i + old_offset))
    new_cell (stringf_bus new_brackets new_name (i + new_offset)) = Done ctx'.
Proof.
  destruct (int_add i old_offset) as [ko| |] eqn:Ho; [|done..].
  destruct (int_add i new_offset) as [kn| |] eqn:Hn; [|done..].
  apply int_add_is_Done in Ho as ->. by apply int_add_is_Done in Hn as ->.
Qed.

(** A returning [replace_port] whose replacement port was absent or
    unconnected keeps the graph well-formed; a port other than the
    replacement port is as before or has lost its net. *)
Lemma replace_port_wf_step ctx oc on rc rn ctx' :
  wf ctx →
  (∀ rep, port_of ctx rc rn = Some rep → net rep = None) →
  replace_port ctx oc on rc rn = Done ctx' →
  wf ctx' ∧
  (∀ c p x, ¬ (rc = c ∧ rn = p) → port_of ctx' c p = Some x →
            net x = None ∨ port_of ctx c p = Some x).
Proof.
  intros Hwf Hun Hrun.
  destruct (cell_mem ctx !! oc) as [oci|] eqn:Hoc; cycle 1.
  { by rewrite (replace_port_bad_old_cell _ _ _ _ _ Hoc) in Hrun. }
  destruct (ports oci !! on) as [old|] eqn:Hold; cycle 1.
  { rewrite (replace_port_absent _ _ _ _ _ _ Hoc Hold) in Hrun.
    injection Hrun as <-. split; [done|]. intros; by right. }
  destruct (cell_mem ctx !! rc) as [rci|] eqn:Hrc; cycle 1.
  { by rewrite (replace_port_bad_rep_cell _ _ _ _ _ _ _ Hoc Hold Hrc) in Hrun. }
  destruct (decide (type (default (mkPortInfo rn None (type old))
                                  (ports rci !! rn)) = type old ∧
                    type old ≠ PORT_INOUT))
    as [[Hty Hdir]|Hbad]; cycle 1.
  { by rewrite (replace_port_fatal _ _ _ _ _ _ _ _ Hoc Hrc Hold Hbad) in Hrun. }
  pose proof (port_of_Some _ _ _ _ _ Hoc Hold) as Hpo.
  destruct (decide (oc = rc ∧ on = rn)) as [[<- <-]|Hne].
  - destruct (replace_port_same _ _ _ _ _ Hoc Hold Hdir)
      as (ctx1 & Hrun1 & E1 & E3 & _ & E4 & _).
    rewrite Hrun1 in Hrun. injection Hrun as <-. split.
    + apply (wf_ext ctx); [|done..].
      intros c p. destruct (decide (oc = c ∧ on = p)) as [[<- <-]|Hcp].
      * rewrite E1, Hpo. f_equal. apply Hun in Hpo.
        destruct old; simpl in *. by subst.
      * by apply E3.
    + intros c p x Hcp Hx. right. by rewrite <- E3.
  - assert (∀ a, net old = Some a → is_Some (net_mem ctx !! a)) as Hvalid.
    { intros a Ha. destruct (wf_ports _ Hwf oc on old Hpo a Ha) as (ni & ? & _).
      by exists ni. }
    destruct (replace_port_effect _ _ _ _ _ _ _ _ Hoc Hrc Hold Hne Hty Hdir Hvalid)
      as (ctx1 & Hrun1 & E1 & E2 & E3 & _ & E4 & _).
    rewrite Hrun1 in Hrun. injection Hrun as <-. split.
    + by eapply (wf_after_move ctx ctx1 oc on rc rn old).
    + intros c p x Hcp Hx.
      destruct (decide (oc = c ∧ on = p)) as [[<- <-]|Hop].
      * left. rewrite E1 in Hx. by injection Hx as <-.
      * right. by rewrite <- E3.
Qed.

(** X15.  On a well-formed graph, [replace_bus] onto a bus whose ports are absent
    or unconnected returns well-formed graphs only. *)
Theorem replace_bus_keeps_wf ctx old_cell old_name old_offset old_brackets
    new_cell new_name new_offset new_brackets width ctx' :
  wf ctx →
  (∀ i rep, (0 ≤ i < width)%Z →
     port_of ctx new_cell (stringf_bus new_brackets new_name (i + new_offset)) =
       Some rep →
     net rep = None) →
  replace_bus ctx old_cell old_name old_offset old_brackets
    new_cell new_name new_offset new_brackets width = Done ctx' →
  wf ctx'.
Proof.
  intros Hwf Hun Hrun. unfold replace_bus in Hrun.
  apply (for_loop_inv
           (λ j c, wf c ∧
                   ∀ i rep, (j ≤ i < width)%Z →
                     port_of c new_cell
                       (stringf_bus new_brackets new_name (i + new_offset)) =
                       Some rep →
                     net rep = None)) in Hrun as [? _]; [done| |done].
  intros j c c' Hj [Hwfc Hunc] Hbody.
  apply (bus_round replace_port) in Hbody.
  assert (j < width)%Z as Hjw by lia.
  apply replace_port_wf_step in Hbody as [Hwf' Hothers];
    [|done|intros rep; apply Hunc; lia].
  split; [done|]. intros i rep Hi Hrep.
  apply Hothers in Hrep as [?|Hold]; [done| |].
  - apply (Hunc i); [lia|done].
  - intros [_ Heq]. apply stringf_bus_inj in Heq. lia.
Qed.

Lemma replace_bus_keeps_wf_witness :
  ∃ ctx',
    replace_bus wired_bus A "a" 0 false B "b" 0 true 2 = Done ctx' ∧
    port_of ctx' B "b[1]" = Some (mkPortInfo "b[1]" (Some M) PORT_IN) ∧
    wf ctx'.
Proof.
  eexists. split; [vm_compute; reflexivity|]. split; [by vm_compute|].
  apply (replace_bus_keeps_wf wired_bus A "a" 0 false B "b" 0 true 2).
  - apply (bool_decide_unpack _). by vm_compute.
  - intros i rep Hi Hrep.
    assert (i = 0 ∨ i = 1)%Z as [-> | ->] by lia; vm_compute in Hrep; discriminate.
  - vm_compute. reflexivity.
Defined.

(** [copy_port] changes no port but the one it copies to. *)
Lemma copy_port_others ctx oc on nc nn ctx' c p :
  copy_port ctx oc on nc nn = Done ctx' →
  ¬ (nc = c ∧ nn = p) →
  port_of ctx' c p = port_of ctx c p.
Proof.
  intros Hrun Hne.
  destruct (cell_mem ctx !! oc) as [oci|] eqn:Hoc; cycle 1.
  { by rewrite (copy_port_bad_old_cell _ _ _ _ _ Hoc) in Hrun. }
  destruct (ports oci !! on) as [old|] eqn:Hold; cycle 1.
  { rewrite (copy_port_absent _ _ _ _ _ _ Hoc Hold) in Hrun. by injection Hrun as <-. }
  destruct (cell_mem ctx !! nc) as [nci|] eqn:Hnc; cycle 1.
  { by rewrite (copy_port_bad_new_cell _ _ _ _ _ _ _ Hoc Hold Hnc) in Hrun. }
  rewrite (copy_port_declared _ _ _ _ _ _ _ Hoc Hold) in Hrun by (by eexists).
  destruct (net old) as [a|].
  - apply connect_port_Done in Hrun as (pi & ni & _ & _ & _ & _ & ->).
    by rewrite port_of_write_net, port_of_write_port, decide_False,
      port_of_declared, decide_False.
  - injection Hrun as <-. by rewrite port_of_declared, decide_False.
Qed.

(** X20.  On a well-formed graph, [copy_bus] onto a bus whose ports are absent or
    unconnected returns well-formed graphs only. *)
Theorem copy_bus_keeps_wf ctx old_cell old_name old_offset old_brackets
    new_cell new_name new_offset new_brackets width ctx' :
  wf ctx →
  (∀ i tgt, (0 ≤ i < width)%Z →
     port_of ctx new_cell (stringf_bus new_brackets new_name (i + new_offset)) =
       Some tgt →
     net tgt = None) →
  copy_bus ctx old_cell old_name old_offset old_brackets
    new_cell new_name new_offset new_brackets width = Done ctx' →
  wf ctx'.
Proof.
  intros Hwf Hun Hrun. unfold copy_bus in Hrun.
  apply (for_loop_inv
           (λ j c, wf c ∧
                   ∀ i tgt, (j ≤ i < width)%Z →
                     port_of c new_cell
                       (stringf_bus new_brackets new_name (i + new_offset)) =
                       Some tgt →
                     net tgt = None)) in Hrun as [? _]; [done| |done].
  intros j c c' Hj [Hwfc Hunc] Hbody.
  apply (bus_round copy_port) in Hbody.
  assert (j < width)%Z as Hjw by lia.
  split.
  - eapply copy_port_wf_step; [done| |done]. intros tgt. apply Hunc. lia.
  - intros i tgt Hi Htgt.
    rewrite (copy_port_others _ _ _ _ _ _ _ _ Hbody) in Htgt.
    + apply (Hunc i); [lia|done].
    + intros [_ Heq]. apply stringf_bus_inj in Heq. lia.
Qed.

Lemma copy_bus_keeps_wf_witness :
  ∃ ctx',
    copy_bus wired_bus A "a" 0 false B "b" 0 true 2 = Done ctx' ∧
    port_of ctx' A "a1" = Some (mkPortInfo "a1" (Some M) PORT_IN) ∧
    port_of ctx' B "b[1]" = Some (mkPortInfo "b[1]" (Some M) PORT_IN) ∧
    wf ctx'.
Proof.
  eexists. split; [vm_compute; reflexivity|].
  split; [by vm_compute|]. split; [by vm_compute|].
  apply (copy_bus_keeps_wf wired_bus A "a" 0 false B "b" 0 true 2).
  - apply (bool_decide_unpack _). by vm_compute.
  - intros i tgt Hi Htgt.
    assert (i = 0 ∨ i = 1)%Z as [-> | ->] by lia; vm_compute in Htgt; discriminate.
  - vm_compute. reflexivity.
Defined.

(** A loop whose rounds all return and keep an invariant returns, with the
    invariant. *)
Lemma for_loop_total (I : Z → Context → Prop) body (todo : nat) : ∀ (i : Z) ctx,
  (∀ j c, (i ≤ j < i + Z.of_nat todo)%Z → I j c →
          ∃ c', body j c = Done c' ∧ I (j + 1)%Z c') →
  I i ctx →
  ∃ ctx', for_loop body todo i ctx = Done ctx' ∧ I (i + Z.of_nat todo)%Z ctx'.
Proof.
  induction todo as [|todo IH]; intros i ctx Hstep Hi.
  - exists ctx. split; [done|]. by replace (i + Z.of_nat 0)%Z with i by lia.
  - destruct (Hstep i ctx) as (ctx1 & Hbody & H1); [lia|done|].
    destruct (IH (i + 1)%Z ctx1) as (ctx' & Hrun & H'); [|done|].
    { intros j c Hj. apply Hstep. lia. }
    exists ctx'. cbn [for_loop]. rewrite Hbody. cbn [mbind outcome_bind].
    split; [done|].
    by replace (i + Z.of_nat (S todo))%Z with ((i + 1) + Z.of_nat todo)%Z by lia.
Qed.

Lemma cell_head_is_Some ctx c : is_Some (cell_head ctx c) ↔ is_Some (cell_mem ctx !! c).
Proof. unfold cell_head. by rewrite fmap_is_Some. Qed.

Lemma bus_moved_round ctx oc olds nc news width j c :
  Inj (=) (=) olds → Inj (=) (=) news →
  is_Some (cell_mem ctx !! nc) →
  (∀ i, (0 ≤ i < width)%Z →
     ∃ old, port_of ctx oc (olds i) = Some old ∧ type old ≠ PORT_INOUT) →
  (∀ i, (0 ≤ i < width)%Z → port_of ctx nc (news i) = None) →
  (0 ≤ j < width)%Z →
  bus_moved ctx oc olds nc news width j c →
  ∃ c', replace_port c oc (olds j) nc (news j) = Done c' ∧
        bus_moved ctx oc olds nc news width (j + 1) c'.
Proof.
  intros Holds Hnews Hnc Hold Hnew Hj (Hwf & Hheads & Hdone & Htodo & Hrest).
  assert (∀ i k, (0 ≤ i < width)%Z → (0 ≤ k < width)%Z →
                 ¬ (oc = nc ∧ olds i = news k)) as Hcross.
  { intros i k Hi Hk [-> Heq].
    destruct (Hold i Hi) as (x & Hx & _). rewrite Heq, Hnew in Hx; done. }
  destruct (Hold j Hj) as (old & Hctx & Hdir).
  destruct (Htodo j) as [Ho Hn]; [lia|]. rewrite Hctx in Ho.
  apply port_of_cell in Ho as (oci & Hoc & Hp).
  assert (∃ rci, cell_mem c !! nc = Some rci) as [rci Hrc].
  { apply cell_head_is_Some in Hnc. rewrite <- Hheads in Hnc.
    by apply cell_head_is_Some in Hnc. }
  assert (ports rci !! news j = None) as Hrn.
  { unfold port_of in Hn. by rewrite Hrc in Hn. }
  assert (∀ a, net old = Some a → is_Some (net_mem c !! a)) as Hvalid.
  { intros a Ha.
    destruct (wf_ports _ Hwf oc (olds j) old (port_of_Some _ _ _ _ _ Hoc Hp) a Ha)
      as (ni & ? & _).
    by exists ni. }
  destruct (replace_port_effect c oc (olds j) nc (news j) oci rci old Hoc Hrc Hp
              (Hcross j j Hj Hj))
    as (c1 & Hrun & E1 & E2 & E3 & E5 & E4 & _);
    [by rewrite Hrn|done|done|].
  rewrite Hrn in E2. cbn [default set_net name net type] in E2.
  exists c1. split; [done|]. split; [|split; [|split; [|split]]].
  - eapply (wf_after_move c c1 oc (olds j) nc (news j) old
              (mkPortInfo (news j) None (type old)));
      [done|by eapply port_of_Some|by apply Hcross|done|done| |done|done|done|done].
    intros x Hx. by rewrite Hn in Hx.
  - intros c0. by rewrite E5.
  - intros i old' Hi Hold'.
    destruct (decide (i = j)) as [->|Hij].
    + rewrite Hctx in Hold'. injection Hold' as <-. by rewrite E1, E2.
    + destruct (Hdone i old' ltac:(lia) Hold') as [D1 D2].
      rewrite !E3; [done|..].
      * intros [-> Heq]. apply (Hcross j i); [lia..|done].
      * intros [_ Heq]. apply Hnews in Heq. lia.
      * intros [_ Heq]. apply Holds in Heq. lia.
      * intros [<- Heq]. apply (Hcross i j); [lia..|done].
  - intros i Hi. destruct (Htodo i ltac:(lia)) as [T1 T2].
    rewrite !E3; [done|..].
    + intros [-> Heq]. apply (Hcross j i); [lia..|done].
    + intros [_ Heq]. apply Hnews in Heq. lia.
    + intros [_ Heq]. apply Holds in Heq. lia.
    + intros [<- Heq]. apply (Hcross i j); [lia..|done].
  - intros c0 p Hout. destruct (Hout j Hj) as [? ?].
    rewrite E3 by done. by apply Hrest.
Qed.

(** X16.  [replace_bus] moves a whole bus: on a well-formed graph, when every
    index is in the range of [int], every old port exists with direction
    IN or OUT and no new port exists yet, the call returns a well-formed
    graph in which every old port is unconnected, every new port has the
    net and the direction of its old port, and every other port is as
    before. *)
Theorem replace_bus_moves_bus ctx old_cell old_name old_offset old_brackets
    new_cell new_name new_offset new_brackets width :
  wf ctx →
  is_Some (cell_mem ctx !! new_cell) →
  (∀ i, (0 ≤ i < width)%Z → is_int (i + old_offset) ∧ is_int (i + new_offset)) →
  (∀ i, (0 ≤ i < width)%Z →
     ∃ old, port_of ctx old_cell (stringf_bus old_brackets old_name (i + old_offset)) =
              Some old ∧
            type old ≠ PORT_INOUT) →
  (∀ i, (0 ≤ i < width)%Z →
     port_of ctx new_cell (stringf_bus new_brackets new_name (i + new_offset)) = None) →
  ∃ ctx',
    replace_bus ctx old_cell old_name old_offset old_brackets
      new_cell new_name new_offset new_brackets width = Done ctx' ∧
    wf ctx' ∧
    (∀ i old, (0 ≤ i < width)%Z →
       port_of ctx old_cell (stringf_bus old_brackets old_name (i + old_offset)) =
         Some old →
       port_of ctx' old_cell (stringf_bus old_brackets old_name (i + old_offset)) =
         Some (set_net None old) ∧
       port_of ctx' new_cell (stringf_bus new_brackets new_name (i + new_offset)) =
         Some (mkPortInfo (stringf_bus new_brackets new_name (i + new_offset))
                 (net old) (type old))) ∧
    (∀ c p,
       (∀ i, (0 ≤ i < width)%Z →
          ¬ (old_cell = c ∧ stringf_bus old_brackets old_name (i + old_offset) = p) ∧
          ¬ (new_cell = c ∧ stringf_bus new_brackets new_name (i + new_offset) = p)) →
       port_of ctx' c p = port_of ctx c p).
Proof.
  intros Hwf Hnc Hint Hold Hnew.
  assert (Inj (=) (=) (λ i, stringf_bus old_brackets old_name (i + old_offset)))
    as Holds.
  { intros i j Heq. apply stringf_bus_inj in Heq. lia. }
  assert (Inj (=) (=) (λ i, stringf_bus new_brackets new_name (i + new_offset)))
    as Hnews.
  { intros i j Heq. apply stringf_bus_inj in Heq. lia. }
  unfold replace_bus.
  edestruct (for_loop_total
               (bus_moved ctx old_cell
                  (λ i, stringf_bus old_brackets old_name (i + old_offset))
                  new_cell
                  (λ i, stringf_bus new_brackets new_name (i + new_offset))
                  width))
    as (ctx' & Hrun & Hwf' & _ & Hdone & _ & Hrest); cycle 2.
  - exists ctx'. split; [exact Hrun|]. split; [done|]. split; [|done].
    intros i old Hi. apply Hdone. lia.
  - intros j c Hj Hinv. cbn beta.
    assert (0 ≤ j < width)%Z as Hjw by lia.
    destruct (Hint j Hjw) as [Ho Hn].
    rewrite (int_add_Done _ _ Ho). cbn [mbind outcome_bind].
    rewrite (int_add_Done _ _ Hn). cbn [mbind outcome_bind].
    by apply (bus_moved_round ctx old_cell _ new_cell _ width j c Holds Hnews).
  - split; [done|]. split; [done|]. split; [intros; lia|]. split; [|done].
    intros i Hi. split; [done|]. by apply Hnew.
Qed.

Lemma replace_bus_moves_bus_witness :
  ∃ ctx',
    replace_bus wired_bus A "a" 0 false B "b" 0 true 2 = Done ctx' ∧
    wf ctx' ∧
    port_of ctx' A "a1" = Some (mkPortInfo "a1" None PORT_IN) ∧
    port_of ctx' B "b[1]" = Some (mkPortInfo "b[1]" (Some M) PORT_IN).
Proof.
  destruct (replace_bus_moves_bus wired_bus A "a" 0 false B "b" 0 true 2)
    as (ctx' & Hrun & Hwf & Hmoved & _).
  - apply (bool_decide_unpack _). by vm_compute.
  - by eexists.
  - intros i Hi. unfold is_int, INT_MIN, INT_MAX. lia.
  - intros i Hi.
    assert (i = 0 ∨ i = 1)%Z as [-> | ->] by lia; eexists; split;
      [vm_compute; reflexivity|done..].
  - intros i Hi. by assert (i = 0 ∨ i = 1)%Z as [-> | ->] by lia.
  - exists ctx'. split; [done|]. split; [done|].
    apply (Hmoved 1%Z (mkPortInfo "a1" (Some M) PORT_IN)); [lia|by vm_compute].
Defined.

(** ** Moving a port there and back *)

(** Rewiring a net of a well-formed graph to a port that did not exist, and
    back, gives the net again. *)
Lemma rewired_back ctx oc on rc rn old a ni :
  wf ctx →
  port_of ctx oc on = Some old → net old = Some a →
  port_of ctx rc rn = None →
  net_mem ctx !! a = Some ni →
  rewired (type old) rc rn oc on (rewired (type old) oc on rc rn ni) = ni.
Proof.
  intros Hwf Hold Hnet Hnew Hn.
  assert (retarget rc rn oc on <$> (retarget oc on rc rn <$> users ni) = users ni)
    as Husers.
  { rewrite <- list_fmap_compose. apply fmap_fixed. intros r Hr. simpl.
    destruct (decide (refers oc on r)) as [Href|Href].
    - rewrite (retarget_refers _ _ _ _ _ Href).
      rewrite retarget_refers by done.
      destruct r as [rc0 rp0], Href as [Hc Hp]. simpl in *. by subst.
    - rewrite (retarget_other _ _ _ _ _ Href). apply retarget_other.
      intros [Hc Hp].
      destruct (wf_users _ Hwf a ni r Hn Hr) as (c & pi & Hc' & Hpi & _).
      rewrite Hc in Hc'. injection Hc' as <-. rewrite Hp in Hpi. congruence. }
  destruct (wf_ports _ Hwf oc on old Hold a Hnet) as (ni' & Hn' & Hl).
  rewrite Hn in Hn'. injection Hn' as <-.
  destruct ni as [nm dr us]. unfold rewired.
  destruct (type old); simpl in *.
  - by rewrite Husers.
  - by rewrite Hl.
  - by rewrite Husers.
Qed.

(** X13.  On a well-formed graph, moving an IN or OUT port to a port that does
    not exist yet and moving it back gives the starting graph, except that
    the new port now exists, unconnected, with the direction of the old
    one. *)
Theorem replace_port_round_trip ctx oc on rc rn old :
  wf ctx →
  port_of ctx oc on = Some old → type old ≠ PORT_INOUT →
  is_Some (cell_mem ctx !! rc) → port_of ctx rc rn = None →
  ∃ ctx1,
    replace_port ctx oc on rc rn = Done ctx1 ∧
    replace_port ctx1 rc rn oc on = Done (declared rc rn (type old) ctx).
Proof.
  intros Hwf Hold Hdir [rci Hrc] Hnew.
  pose proof Hold as Hold0.
  apply port_of_cell in Hold as (oci & Hoc & Hp).
  assert (ports rci !! rn = None) as Hrn.
  { unfold port_of in Hnew. by rewrite Hrc in Hnew. }
  assert (¬ (oc = rc ∧ on = rn)) as Hne by (intros [-> ->]; congruence).
  assert (¬ (rc = oc ∧ rn = on)) as Hne' by (intros [-> ->]; congruence).
  assert (∀ a, net old = Some a → is_Some (net_mem ctx !! a)) as Hvalid.
  { intros a Ha. destruct (wf_ports _ Hwf oc on old Hold0 a Ha) as (ni & ? & _).
    by exists ni. }
  destruct (replace_port_effect ctx oc on rc rn oci rci old Hoc Hrc Hp Hne)
    as (ctx1 & Hrun1 & E1 & E2 & E3 & E5 & E4 & E6 & E7);
    [by rewrite Hrn|done|done|].
  rewrite Hrn in E2. cbn [default set_net name net type] in E2.
  exists ctx1. split; [done|].
  pose proof E1 as E1'. pose proof E2 as E2'.
  apply port_of_cell in E1' as (oci1 & Hoc1 & Hp1).
  apply port_of_cell in E2' as (rci1 & Hrc1 & Hr1).
  destruct (replace_port_effect ctx1 rc rn oc on rci1 oci1 _ Hrc1 Hoc1 Hr1 Hne')
    as (ctx2 & Hrun2 & F1 & F2 & F3 & F5 & F4 & F6 & F7).
  { by rewrite Hp1. }
  { done. }
  { simpl. intros a Ha. rewrite E4, decide_True by done.
    apply fmap_is_Some. by apply Hvalid. }
  rewrite Hp1 in F2. cbn [default set_net name net type] in F1, F2, F3, F4.
  rewrite Hrun2. f_equal. symmetry. apply ctx_ext.
  - intros c. by rewrite cell_head_declared, F5, E5.
  - intros c p. rewrite port_of_declared.
    destruct (decide (rc = c ∧ rn = p)) as [[<- <-]|Hcp].
    + rewrite F1, Hrc. simpl. by rewrite Hrn.
    + destruct (decide (oc = c ∧ on = p)) as [[<- <-]|Hop].
      * rewrite F2, Hold0. by destruct old.
      * by rewrite F3, E3.
  - intros a. change (net_mem (declared rc rn (type old) ctx))
      with (net_mem ctx).
    rewrite F4, E4. destruct (decide (net old = Some a)) as [Ha|]; [|done].
    destruct (net_mem ctx !! a) as [ni|] eqn:Hn; [|done]. simpl. f_equal.
    symmetry. by eapply rewired_back.
  - change (cells (declared rc rn (type old) ctx)) with (cells ctx). congruence.
  - change (nets (declared rc rn (type old) ctx)) with (nets ctx). congruence.
Qed.

Lemma replace_port_round_trip_witness :
  ∃ ctx1,
    replace_port wired B "D" C "D3" = Done ctx1 ∧
    replace_port ctx1 C "D3" B "D" = Done (declared C "D3" PORT_IN wired).
Proof.
  apply (replace_port_round_trip wired B "D" C "D3" (mkPortInfo "D" (Some N) PORT_IN)).
  - apply (bool_decide_unpack _). by vm_compute.
  - reflexivity.
  - done.
  - by eexists.
  - reflexivity.
Defined.

(** ** What a bus copy leaves alone *)

(** X21.  [copy_bus] changes no port outside the new bus: the ports of the old
    bus, when they are not ports of the new bus too, keep their nets. *)
Theorem copy_bus_keeps_source ctx old_cell old_name old_offset old_brackets
    new_cell new_name new_offset new_brackets width ctx' c p :
  copy_bus ctx old_cell old_name old_offset old_brackets
    new_cell new_name new_offset new_brackets width = Done ctx' →
  (∀ i, (0 ≤ i < width)%Z →
     ¬ (new_cell = c ∧ stringf_bus new_brackets new_name (i + new_offset) = p)) →
  port_of ctx' c p = port_of ctx c p.
Proof.
  intros Hrun Hout. unfold copy_bus in Hrun.
  apply (for_loop_inv (λ _ c0, port_of c0 c p = port_of ctx c p)) in Hrun; [done| |done].
  intros j c0 c1 Hj Hinv Hbody.
  apply (bus_round copy_port) in Hbody.
  rewrite (copy_port_others _ _ _ _ _ _ _ _ Hbody); [done|].
  apply Hout. lia.
Qed.

Lemma copy_bus_keeps_source_witness :
  ∃ ctx',
    copy_bus wired_bus A "a" 0 false B "b" 0 true 2 = Done ctx' ∧
    port_of ctx' A "a0" = port_of wired_bus A "a0".
Proof.
  eexists. split; [vm_compute; reflexivity|].
  apply (copy_bus_keeps_source wired_bus A "a" 0 false B "b" 0 true 2).
  - vm_compute. reflexivity.
  - intros i Hi [Hc _]. discriminate Hc.
Defined.
